(** * GreyM: disassembly engine and PE rewriter

    A shallow embedding of [src/protector.cpp] and
    [src/disassembler/pe_disassembly_engine.cpp].

    Conventions.
    - Machine integers are [Z] values with the wrap-around written out
      ([u8], [u16], [u32], [u64], [uptr]).
    - The build switch [_WIN64] is the value [arch]; [uintptr_t] is 32 bits
      wide on [X86] and 64 bits wide on [X64].
    - Bytes are [Z] values in [0, 256); buffers are [list Z].
    - Offsets into sections and sizes of vectors are kept as unbounded [Z]:
      they are bounded by the memory that holds the vectors.  Differences,
      casts and values read from an image are wrapped.
    - A pointer into the image buffer of a PE is its distance from the
      start of the buffer.
    - A function that can throw, loop for ever or read outside a buffer
      returns a [Result]. *)

From Stdlib Require Import ZArith List Lia Bool Sorted.
From stdpp Require Import base list sorting strings gmap pretty.

Local Open Scope Z_scope.

(* ===================================================================== *)
(** ** Machine arithmetic *)
(* ===================================================================== *)

Inductive Arch := X86 | X64.

Definition sizeof_uintptr (arch : Arch) : Z :=
  match arch with X86 => 4 | X64 => 8 end.

Definition wrap (bits x : Z) : Z := x mod 2 ^ bits.

Definition u8 (x : Z) : Z := wrap 8 x.
Definition u16 (x : Z) : Z := wrap 16 x.
Definition u32 (x : Z) : Z := wrap 32 x.
Definition u64 (x : Z) : Z := wrap 64 x.
Definition uptr (arch : Arch) (x : Z) : Z := wrap (8 * sizeof_uintptr arch) x.

(** Two's complement reading of a 32 bit pattern. *)
Definition s32 (x : Z) : Z :=
  let v := u32 x in if v <? 2 ^ 31 then v else v - 2 ^ 32.

(** Little-endian integers in a byte buffer. *)
Fixpoint le_bytes (n : nat) (v : Z) : list Z :=
  match n with
  | O => []
  | S n' => v mod 256 :: le_bytes n' (v / 256)
  end.

Fixpoint le_value (bs : list Z) : Z :=
  match bs with
  | [] => 0
  | b :: bs' => b + 256 * le_value bs'
  end.

(** [*reinterpret_cast<const T*>( buf + off )] with [sizeof(T) = n]; [None]
    when the bytes are not all inside the buffer. *)
Definition read_le (buf : list Z) (off : Z) (n : nat) : option Z :=
  if (0 <=? off) && (off + Z.of_nat n <=? Z.of_nat (length buf))
  then Some (le_value (take n (drop (Z.to_nat off) buf)))
  else None.

(** Writing through a pointer into a vector: the length never changes. *)
Fixpoint write_bytes (off : nat) (bs : list Z) (buf : list Z) : list Z :=
  match bs with
  | [] => buf
  | b :: bs' => write_bytes (S off) bs' (<[off := b]> buf)
  end.

Definition write_le (buf : list Z) (off : Z) (n : nat) (v : Z) : option (list Z) :=
  if (0 <=? off) && (off + Z.of_nat n <=? Z.of_nat (length buf))
  then Some (write_bytes (Z.to_nat off) (le_bytes n v) buf)
  else None.

(* ===================================================================== *)
(** ** Results of functions that can fail *)
(* ===================================================================== *)

Inductive Result (A : Type) : Type :=
| Ok (a : A)
| Throw (what : string)      (* std::runtime_error *)
| Undefined                  (* null dereference, read outside a buffer *)
| OutOfFuel.                 (* the loop or recursion did not end *)

Arguments Ok {A} a.
Arguments Throw {A} what.
Arguments Undefined {A}.
Arguments OutOfFuel {A}.

(** [Result] is a monad in the sense of stdpp: [x ← r; k] runs [k] on the
    value of [r] and passes every other outcome on. *)
#[global] Instance Result_ret : MRet Result := @Ok.

#[global] Instance Result_bind : MBind Result := λ A B k r,
  match r with
  | Ok a => k a
  | Throw what => Throw what
  | Undefined => Undefined
  | OutOfFuel => OutOfFuel
  end.

Definition deref {A} (o : option A) : Result A :=
  match o with Some a => Ok a | None => Undefined end.

(* ===================================================================== *)
(** ** Decoded instructions (capstone) *)
(* ===================================================================== *)

Module capstone.

Inductive x86_insn :=
| X86_INS_INVALID | X86_INS_ADD | X86_INS_JMP | X86_INS_LJMP | X86_INS_MOV
| X86_INS_PUSH | X86_INS_SUB | X86_INS_other (n : Z).

Inductive x86_op_type := X86_OP_INVALID | X86_OP_REG | X86_OP_IMM | X86_OP_MEM.

Inductive x86_reg :=
| X86_REG_INVALID | X86_REG_EBP | X86_REG_EDI | X86_REG_ESP | X86_REG_RSP
| X86_REG_other (n : Z).

Inductive cs_group_type :=
| CS_GRP_JUMP | CS_GRP_CALL | CS_GRP_RET | CS_GRP_INT | CS_GRP_other (n : Z).

#[global] Instance x86_insn_eq_dec : EqDecision x86_insn.
Proof. solve_decision. Defined.
#[global] Instance x86_op_type_eq_dec : EqDecision x86_op_type.
Proof. solve_decision. Defined.
#[global] Instance x86_reg_eq_dec : EqDecision x86_reg.
Proof. solve_decision. Defined.
#[global] Instance cs_group_type_eq_dec : EqDecision cs_group_type.
Proof. solve_decision. Defined.

Record x86_op_mem := { base : x86_reg; index : x86_reg; scale : Z; disp : Z }.

(** [reg], [imm] and [mem] share storage in capstone; here each has a field
    of its own and only the one named by [type] is meaningful. *)
Record cs_x86_op :=
  { type : x86_op_type; reg : x86_reg; imm : Z; mem : x86_op_mem }.

Record cs_x86 := { op_count : Z; operands : list cs_x86_op; eflags : Z }.

Record cs_insn :=
  { id : x86_insn; address : Z; size : Z; detail : cs_x86;
    groups : list cs_group_type }.

Definition no_mem : x86_op_mem :=
  {| base := X86_REG_INVALID; index := X86_REG_INVALID; scale := 0; disp := 0 |}.

Definition no_operand : cs_x86_op :=
  {| type := X86_OP_INVALID; reg := X86_REG_INVALID; imm := 0; mem := no_mem |}.

(** An instruction buffer fresh from [cs_malloc]. *)
Definition empty_insn : cs_insn :=
  {| id := X86_INS_INVALID; address := 0; size := 0;
     detail := {| op_count := 0; operands := []; eflags := 0 |};
     groups := [] |}.

(** [detail->x86.operands[ i ]]: the array has a fixed capacity, the slots
    past [op_count] are zeroed. *)
Definition operand (insn : cs_insn) (i : nat) : cs_x86_op :=
  nth i (operands (detail insn)) no_operand.

Definition cs_insn_group (insn : cs_insn) (g : cs_group_type) : bool :=
  bool_decide (g ∈ groups insn).

End capstone.

(* ===================================================================== *)
(** ** The PE model *)
(* ===================================================================== *)

Module pe.

Record IMAGE_SECTION_HEADER :=
  { Name : string; VirtualSize : Z; VirtualAddress : Z;
    SizeOfRawData : Z; PointerToRawData : Z }.

(** Modelled from the spec: [section::IsRvaWithinSection] lives in
    pe/section.h, which is not part of the sources at hand.  Spec, section 3:
    a section covers the RVAs of its range, from its [VirtualAddress] on. *)
Definition IsRvaWithinSection (h : IMAGE_SECTION_HEADER) (rva : Z) : bool :=
  (VirtualAddress h <=? rva) && (rva <? VirtualAddress h + VirtualSize h).

(** Modelled from the spec: [section::RvaToSectionOffset] (pe/section.h,
    absent); a section offset is a byte index within the section. *)
Definition RvaToSectionOffset (h : IMAGE_SECTION_HEADER) (rva : Z) : Z :=
  rva - VirtualAddress h.

(** Modelled from the spec: [section::SectionOffsetToRva] (pe/section.h,
    absent); section 4.5: [rva = section.VirtualAddress + offset]. *)
Definition SectionOffsetToRva (h : IMAGE_SECTION_HEADER) (offset : Z) : Z :=
  VirtualAddress h + offset.

(** Modelled from the spec: the class [SectionHeaders]
    (pe/section_headers.h, absent), the ordered list of the section
    headers. *)
Definition SectionHeaders := list IMAGE_SECTION_HEADER.

(** Modelled from the spec: [SectionHeaders::FromName] (absent), the first
    header with that name or [nullptr]. *)
Definition FromName (hs : SectionHeaders) (n : string)
    : option IMAGE_SECTION_HEADER :=
  find (λ h, String.eqb (Name h) n) hs.

(** Modelled from the spec: [SectionHeaders::FromRva] (absent), the first
    header whose range holds the RVA or [nullptr]. *)
Definition FromRva (hs : SectionHeaders) (rva : Z) : option IMAGE_SECTION_HEADER :=
  find (λ h, IsRvaWithinSection h rva) hs.

(** Modelled from the spec: [SectionHeaders::RvaToFileOffset] (absent).
    The spec leaves the conversion undefined outside every section; the
    callers in the sources test the result against zero. *)
Definition RvaToFileOffset (hs : SectionHeaders) (rva : Z) : Z :=
  match FromRva hs rva with
  | Some h => rva - VirtualAddress h + PointerToRawData h
  | None => 0
  end.

(** Modelled from the spec: [peutils::AlignDown] (pe/peutils.h, absent),
    the spec's [align_down]. *)
Definition AlignDown (value alignment : Z) : Z := value - value mod alignment.

(** Modelled from the spec: the rounding of section 4.1, "up to the next
    multiple of [file_alignment]" (pe/peutils.h, absent). *)
Definition AlignUp (value alignment : Z) : Z :=
  if value mod alignment =? 0 then value else AlignDown value alignment + alignment.

(** Modelled from the spec: the wire format of a base relocation, a 16 bit
    word [{ type:4, offset:12 }] (section 3); the struct [Relocation] is
    declared in the absent PE headers. *)
Record Relocation := { offset : Z; type : Z }.

Definition IMAGE_REL_BASED_ABSOLUTE : Z := 0.
Definition IMAGE_REL_BASED_HIGHLOW : Z := 3.
Definition IMAGE_REL_BASED_DIR64 : Z := 10.

(** Storing into the bit fields truncates. *)
Definition mkRelocation (ty off : Z) : Relocation :=
  {| offset := off mod 4096; type := ty mod 16 |}.

(** The 16 bit word of an entry, low byte first. *)
Definition Relocation_bytes (r : Relocation) : list Z :=
  le_bytes 2 (offset r + 4096 * type r).

(** Modelled from the spec: the class [Section] (pe/section.h, absent):
    name, raw bytes and current write offset (section 3). *)
Record Section :=
  { GetName : string; GetData : list Z; GetCurrentOffset : Z }.

(** Modelled from the spec: [section::CreateEmptySection] (absent); the
    characteristics flags play no part here. *)
Definition CreateEmptySection (n : string) : Section :=
  {| GetName := n; GetData := []; GetCurrentOffset := 0 |}.

(** Modelled from the spec: [Section::AppendCode] (absent).  Section 4.1:
    [append] writes the bytes at the current write offset, pads the raw
    size up to the next multiple of the file alignment and returns the
    offset at which the first byte was written. *)
Definition AppendCode (s : Section) (code : list Z)
    (section_alignment file_alignment : Z) : Section * Z :=
  let off := GetCurrentOffset s in
  let written := take (Z.to_nat off) (GetData s) ++ code in
  let raw_size := AlignUp (Z.of_nat (length written)) file_alignment in
  ({| GetName := GetName s;
      GetData := written ++ replicate (Z.to_nat raw_size - length written) 0;
      GetCurrentOffset := off + Z.of_nat (length code) |},
   off).

(** A write through [GetData()]: the bytes change, the rest stays. *)
Definition SetData (s : Section) (d : list Z) : Section :=
  {| GetName := GetName s; GetData := d; GetCurrentOffset := GetCurrentOffset s |}.

Record IMAGE_DATA_DIRECTORY := { dir_VirtualAddress : Z; dir_Size : Z }.

Definition IMAGE_DIRECTORY_ENTRY_BASERELOC : nat := 5.
Definition IMAGE_DIRECTORY_ENTRY_DEBUG : nat := 6.
Definition IMAGE_DIRECTORY_ENTRY_TLS : nat := 9.
Definition IMAGE_DIRECTORY_ENTRY_LOAD_CONFIG : nat := 10.

Definition IMAGE_NT_OPTIONAL_HDR32_MAGIC : Z := 0x10b.
Definition IMAGE_NT_OPTIONAL_HDR64_MAGIC : Z := 0x20b.
Definition IMAGE_SCN_ALIGN_1BYTES : Z := 0x00100000.

(** The fields of [IMAGE_NT_HEADERS] that the protector reads or writes. *)
Record IMAGE_NT_HEADERS :=
  { Magic : Z; ImageBase : Z; SectionAlignment : Z; FileAlignment : Z;
    DataDirectory : list IMAGE_DATA_DIRECTORY }.

Definition GetDataDirectory (nt : IMAGE_NT_HEADERS) (i : nat) : IMAGE_DATA_DIRECTORY :=
  nth i (DataDirectory nt) {| dir_VirtualAddress := 0; dir_Size := 0 |}.

Definition SetDataDirectory (nt : IMAGE_NT_HEADERS) (i : nat)
    (d : IMAGE_DATA_DIRECTORY) : IMAGE_NT_HEADERS :=
  {| Magic := Magic nt; ImageBase := ImageBase nt;
     SectionAlignment := SectionAlignment nt; FileAlignment := FileAlignment nt;
     DataDirectory := <[i := d]> (DataDirectory nt) |}.

Record Export := { function_name : string; function_addr_rva : Z }.

(** Modelled from the spec: the class [PortableExecutable]
    (pe/portable_executable.h, absent): the owned byte buffer of the image,
    the headers and section headers read from it, its export list and the
    entries that [EachRelocation] visits, each with its RVA.
    [GetNtHeadersOffset] is the place of the NT headers in the buffer. *)
Record PortableExecutable :=
  { GetPeImage : list Z;
    GetNtHeadersOffset : Z;
    GetNtHeaders : IMAGE_NT_HEADERS;
    GetSectionHeaders : SectionHeaders;
    GetExports : list Export;
    GetRelocations : list (Z * Relocation) }.

Definition SetPeImage (p : PortableExecutable) (image : list Z)
    : PortableExecutable :=
  {| GetPeImage := image; GetNtHeadersOffset := GetNtHeadersOffset p;
     GetNtHeaders := GetNtHeaders p; GetSectionHeaders := GetSectionHeaders p;
     GetExports := GetExports p; GetRelocations := GetRelocations p |}.

Definition SetNtHeaders (p : PortableExecutable) (nt : IMAGE_NT_HEADERS)
    : PortableExecutable :=
  {| GetPeImage := GetPeImage p; GetNtHeadersOffset := GetNtHeadersOffset p;
     GetNtHeaders := nt; GetSectionHeaders := GetSectionHeaders p;
     GetExports := GetExports p; GetRelocations := GetRelocations p |}.

Definition SetRelocations (p : PortableExecutable) (r : list (Z * Relocation))
    : PortableExecutable :=
  {| GetPeImage := GetPeImage p; GetNtHeadersOffset := GetNtHeadersOffset p;
     GetNtHeaders := GetNtHeaders p; GetSectionHeaders := GetSectionHeaders p;
     GetExports := GetExports p; GetRelocations := r |}.

(** The place of [OptionalHeader.DataDirectory[ i ]] in the image buffer:
    signature, file header, then the optional header, whose directories
    start at byte 96 (PE32) or 112 (PE32+). *)
Definition DataDirectoryOffset (arch : Arch) (p : PortableExecutable) (i : nat) : Z :=
  GetNtHeadersOffset p + 24 + (match arch with X86 => 96 | X64 => 112 end)
  + 8 * Z.of_nat i.

End pe.

(* ===================================================================== *)
(** ** disassembler/pe_disassembly_engine.cpp *)
(* ===================================================================== *)

Module PeDisassemblyEngine.

Inductive DisassemblyAction := NextInstruction | NextDisassemblyPoint.

(** [code] is a pointer into the image buffer of the PE, kept as the
    distance from [GetPeImagePtr()]. *)
Record DisassemblyPoint := { rva : Z; code : Z }.

Record AddressRange := { begin_address : Z; end_address : Z }.

(** The members that change during a run. *)
Record Engine :=
  { code_ : Z;
    address_ : Z;
    code_buf_size_ : Z;
    current_code_index_ : Z;
    current_instruction_code_ : Z;
    disassembly_points_ : list DisassemblyPoint;   (* back() is the last element *)
    disassembly_points_cache_ : gset Z;
    data_ranges_ : list AddressRange }.

Definition set_points (e : Engine) (points : list DisassemblyPoint) (cache : gset Z) :=
  {| code_ := code_ e; address_ := address_ e; code_buf_size_ := code_buf_size_ e;
     current_code_index_ := current_code_index_ e;
     current_instruction_code_ := current_instruction_code_ e;
     disassembly_points_ := points; disassembly_points_cache_ := cache;
     data_ranges_ := data_ranges_ e |}.

Definition push_data_range (e : Engine) (r : AddressRange) :=
  {| code_ := code_ e; address_ := address_ e; code_buf_size_ := code_buf_size_ e;
     current_code_index_ := current_code_index_ e;
     current_instruction_code_ := current_instruction_code_ e;
     disassembly_points_ := disassembly_points_ e;
     disassembly_points_cache_ := disassembly_points_cache_ e;
     data_ranges_ := data_ranges_ e ++ [r] |}.

Definition IsGuaranteedJump (instruction : capstone.cs_insn) : bool :=
  bool_decide (capstone.id instruction = capstone.X86_INS_JMP)
  || bool_decide (capstone.id instruction = capstone.X86_INS_LJMP).

Section Engine.

Variable arch : Arch.

(** The members that the constructor sets once. *)
Variable pe_ : pe.PortableExecutable.

Definition pe_section_headers_ : pe.SectionHeaders := pe.GetSectionHeaders pe_.
Definition pe_text_section_header_ : option pe.IMAGE_SECTION_HEADER :=
  pe.FromName pe_section_headers_ ".text".
Definition pe_image_base_ : Z := pe.ImageBase (pe.GetNtHeaders pe_).

(** The decoder behind [disassembler_handle_].  [cs_disasm code size address
    count] gives the instructions it decodes, at most [count];
    [cs_disasm_iter code size address] gives the instruction at [code] or
    fails. *)
Variable cs_disasm : Z → Z → Z → nat → list capstone.cs_insn.
Variable cs_disasm_iter : Z → Z → Z → option capstone.cs_insn.

(** The cursor [(code, size, address)] that [cs_disasm_iter] moves on
    success, and the instruction buffer that it fills. *)
Definition disasm_iter (cursor : Z * Z * Z) (buffer : capstone.cs_insn)
    : bool * (Z * Z * Z) * capstone.cs_insn :=
  let '(code, size, address) := cursor in
  match cs_disasm_iter code size address with
  | Some insn =>
      (true,
       (uptr arch (code + capstone.size insn), uptr arch (size - capstone.size insn),
        u64 (address + capstone.size insn)),
       insn)
  | None => (false, cursor, buffer)
  end.

(** [section::IsRvaWithinSection( *pe_text_section_header_, rva )]. *)
Definition IsRvaWithinText (rva : Z) : Result bool :=
  text ← deref pe_text_section_header_;
  Ok (pe.IsRvaWithinSection text rva).

Definition SetDisassemblyPoint (e : Engine) (disasm_point : DisassemblyPoint)
    (disasm_buffer_size : Z) : Engine :=
  {| code_ := code disasm_point; address_ := rva disasm_point;
     code_buf_size_ := disasm_buffer_size;
     current_code_index_ := current_code_index_ e;
     current_instruction_code_ := current_instruction_code_ e;
     disassembly_points_ := disassembly_points_ e;
     disassembly_points_cache_ := disassembly_points_cache_ e;
     data_ranges_ := data_ranges_ e |}.

Definition GetOperandRva (operand : capstone.cs_x86_op) (image_base : Z) : Result Z :=
  match capstone.type operand with
  | capstone.X86_OP_IMM =>
      match arch with
      | X64 => Ok (uptr arch (capstone.imm operand))
      | X86 => Ok (uptr arch (uptr arch (capstone.imm operand) - image_base))
      end
  | capstone.X86_OP_MEM =>
      match arch with
      | X64 => Ok (uptr arch (capstone.disp (capstone.mem operand)))
      | X86 =>
          Ok (uptr arch (uptr arch (capstone.disp (capstone.mem operand)) - image_base))
      end
  | _ => Throw "should never occur"
  end.

Definition IsVTableOrFunction (operand1 operand2 : capstone.cs_x86_op) : Result bool :=
  if bool_decide (capstone.type operand1 = capstone.X86_OP_MEM)
     && bool_decide (capstone.type operand2 = capstone.X86_OP_IMM)
  then
    operand_rva ← GetOperandRva operand2 pe_image_base_;
    match pe.FromRva pe_section_headers_ operand_rva with
    | Some _ => Ok true
    | None => Ok false
    end
  else Ok false.

Definition IsJumpTableX86 (instruction : capstone.cs_insn)
    (operand : capstone.cs_x86_op) : Result bool :=
  if IsGuaranteedJump instruction
     || bool_decide (capstone.id instruction = capstone.X86_INS_MOV)
  then
    if bool_decide (capstone.type operand = capstone.X86_OP_MEM)
       && (capstone.scale (capstone.mem operand) =? 4)
    then
      jump_table_rva ← GetOperandRva operand pe_image_base_;
      in_text ← IsRvaWithinText jump_table_rva;
      if (in_text : bool) then Ok true else Ok false
    else Ok false
  else Ok false.

Definition IsJumpTableX64 (e : Engine) (instruction : capstone.cs_insn)
    (operand1 operand2 : capstone.cs_x86_op) (code rva : Z) : bool :=
  if bool_decide (capstone.id instruction = capstone.X86_INS_MOV) then
    if bool_decide (capstone.type operand1 = capstone.X86_OP_REG) then
      if bool_decide (capstone.type operand2 = capstone.X86_OP_MEM)
         && (capstone.scale (capstone.mem operand2) =? 4)
      then
        let code_copy := uptr arch (code + capstone.size instruction) in
        let code_size := uptr arch (code_buf_size_ e - current_code_index_ e) in
        let rva_copy := u64 (rva + capstone.size instruction) in
        (* disassemble first instruction *)
        let '(_, cursor, instruction2) :=
          disasm_iter (code_copy, code_size, rva_copy) capstone.empty_insn in
        if negb (bool_decide (capstone.id instruction2 = capstone.X86_INS_ADD))
        then false
        else if negb (capstone.op_count (capstone.detail instruction2) =? 2)
        then false
        else if negb (bool_decide (capstone.type (capstone.operand instruction2 0)
                                   = capstone.X86_OP_REG))
                || negb (bool_decide (capstone.type (capstone.operand instruction2 1)
                                      = capstone.X86_OP_REG))
        then false
        else
          let saved_add_operand1 := capstone.reg (capstone.operand instruction2 0) in
          (* disassemble second instruction *)
          let '(_, _, instruction2) := disasm_iter cursor instruction2 in
          if IsGuaranteedJump instruction2
             && bool_decide (capstone.type (capstone.operand instruction2 0)
                             = capstone.X86_OP_REG)
             && bool_decide (capstone.reg (capstone.operand instruction2 0)
                             = saved_add_operand1)
          then true
          else false
      else false
    else false
  else false.

Definition IsJumpTable (e : Engine) (instruction : capstone.cs_insn)
    (code rva : Z) : Result bool :=
  let detail := capstone.detail instruction in
  match arch with
  | X64 =>
      if capstone.op_count detail =? 2
      then Ok (IsJumpTableX64 e instruction (capstone.operand instruction 0)
                 (capstone.operand instruction 1) code rva)
      else Ok false
  | X86 =>
      if capstone.op_count detail =? 1
      then IsJumpTableX86 instruction (capstone.operand instruction 0)
      else Ok false
  end.

Definition GetOperandDestinationValueDisassasemblyPoint
    (instruction : capstone.cs_insn) (instruction_code_ptr rva : Z)
    : DisassemblyPoint :=
  let operand_dest_rva := rva in
  let operand_dest_code :=
    if bool_decide (capstone.id instruction = capstone.X86_INS_MOV) then
      (* an absolute RVA, converted to a file offset *)
      let file_offset := pe.RvaToFileOffset pe_section_headers_ operand_dest_rva in
      uptr arch (0 + file_offset)
    else
      (* push or jmp *)
      let dest_delta := u64 (operand_dest_rva - capstone.address instruction) in
      uptr arch (instruction_code_ptr + dest_delta) in
  {| rva := operand_dest_rva; code := operand_dest_code |}.

Definition AddDisassemblyPoint (e : Engine) (disasm_point : DisassemblyPoint) : Engine :=
  if bool_decide (rva disasm_point ∈ disassembly_points_cache_ e) then e
  else set_points e (disassembly_points_ e ++ [disasm_point])
         ({[ rva disasm_point ]} ∪ disassembly_points_cache_ e).

(** [item_dest_rva] in [ParseJumpTable]: on x64 the entry is the RVA, on x86
    it is the RVA plus the image base. *)
Definition item_rva (item_dest_va : Z) : Z :=
  match arch with
  | X64 => item_dest_va
  | X86 => u32 (item_dest_va - pe_image_base_)
  end.

(** The loop of [ParseJumpTable], [for ( ;; i += operand.mem.scale )]; the
    result is the engine and the value of [i] at the [break]. *)
Fixpoint ParseJumpTable_loop (fuel : nat) (e : Engine)
    (instruction : capstone.cs_insn) (operand : capstone.cs_x86_op)
    (operand_rva i : Z) : Result (Engine * Z) :=
  match fuel with
  | O => OutOfFuel
  | S fuel' =>
      let jump_table_disasm_point :=
        GetOperandDestinationValueDisassasemblyPoint instruction
          (current_instruction_code_ e) operand_rva in
      match pe.FromRva pe_section_headers_ (rva jump_table_disasm_point) with
      | None => Ok (e, i)
      | Some _ =>
          let jump_table_code_dest := uptr arch (code jump_table_disasm_point + i) in
          item_dest_va ← deref (read_le (pe.GetPeImage pe_) jump_table_code_dest 4);
          if (item_dest_va =? 0xCCCCCCCC) || (item_dest_va =? 0) then Ok (e, i)
          else
            let item_dest_rva := item_rva item_dest_va in
            in_text ← IsRvaWithinText item_dest_rva;
            if negb (in_text : bool) then Ok (e, i)
            else
              let item_dest_delta :=
                u64 (item_dest_rva - capstone.address instruction) in
              let item_dest_code :=
                uptr arch (current_instruction_code_ e + item_dest_delta) in
              let disasm_point := {| rva := item_dest_rva; code := item_dest_code |} in
              ParseJumpTable_loop fuel' (AddDisassemblyPoint e disasm_point)
                instruction operand operand_rva
                (i + capstone.scale (capstone.mem operand))
      end
  end.

Definition ParseJumpTable (fuel : nat) (e : Engine) (instruction : capstone.cs_insn)
    (operand : capstone.cs_x86_op) : Result Engine :=
  operand_rva ← GetOperandRva operand pe_image_base_;
  '(e, i) ← ParseJumpTable_loop fuel e instruction operand operand_rva 0;
  Ok (push_data_range e
        {| begin_address := operand_rva; end_address := uptr arch (operand_rva + i) |}).

Definition IsAddressWithinDataSectionOfCode (e : Engine) (address : Z) : bool :=
  existsb (λ range, (begin_address range <=? address) && (address <? end_address range))
    (data_ranges_ e).

Definition kDisassembleInstructionCount : nat := 3.

Fixpoint IsFunctionX86 (fuel : nat) (e : Engine) (code rva recursion_counter : Z)
    : Result bool :=
  match fuel with
  | O => OutOfFuel
  | S fuel' =>
      (* we only try to follow jumps 10 times deep *)
      if 10 <? recursion_counter then Ok false
      else
        let instructions :=
          cs_disasm code (uptr arch (code_buf_size_ e - current_code_index_ e)) rva
            kDisassembleInstructionCount in
        if negb (length instructions =? kDisassembleInstructionCount)%nat then Ok false
        else
          let instruction1 := nth 0 instructions capstone.empty_insn in
          let instruction2 := nth 1 instructions capstone.empty_insn in
          if IsGuaranteedJump instruction1 then
            let operand := capstone.operand instruction1 0 in
            let jump_target_rva := capstone.imm operand in
            let jump_dest_disasm_point :=
              GetOperandDestinationValueDisassasemblyPoint instruction1 code
                (uptr arch jump_target_rva) in
            in_text ← IsRvaWithinText (PeDisassemblyEngine.rva jump_dest_disasm_point);
            if negb (in_text : bool) then Ok false
            else IsFunctionX86 fuel' e (PeDisassemblyEngine.code jump_dest_disasm_point)
                   (PeDisassemblyEngine.rva jump_dest_disasm_point)
                   (recursion_counter + 1)
          else
            (* if the first instruction is mov edi, edi *)
            let skip :=
              bool_decide (capstone.id instruction1 = capstone.X86_INS_MOV)
              && (capstone.op_count (capstone.detail instruction1) =? 2)
              && bool_decide (capstone.reg (capstone.operand instruction1 0)
                              = capstone.X86_REG_EDI)
              && bool_decide (capstone.reg (capstone.operand instruction1 1)
                              = capstone.X86_REG_EDI) in
            let instruction1 :=
              if skip then nth 1 instructions capstone.empty_insn else instruction1 in
            let instruction2 :=
              if skip then nth 2 instructions capstone.empty_insn else instruction2 in
            if negb (capstone.op_count (capstone.detail instruction1) =? 1) then Ok false
            else if negb (bool_decide (capstone.id instruction1 = capstone.X86_INS_PUSH))
                    || negb (bool_decide (capstone.reg (capstone.operand instruction1 0)
                                          = capstone.X86_REG_EBP))
            then Ok false
            else if negb (bool_decide (capstone.id instruction2 = capstone.X86_INS_MOV))
                    || negb (capstone.op_count (capstone.detail instruction2) =? 2)
            then Ok false
            else if negb (bool_decide (capstone.reg (capstone.operand instruction2 0)
                                       = capstone.X86_REG_EBP))
                    || negb (bool_decide (capstone.reg (capstone.operand instruction2 1)
                                          = capstone.X86_REG_ESP))
            then Ok false
            else Ok true
  end.

(** The lambda [is_instruction_mov_rsp_plus_disp_reg]. *)
Definition is_instruction_mov_rsp_plus_disp_reg (instruction : capstone.cs_insn) : bool :=
  if bool_decide (capstone.id instruction = capstone.X86_INS_MOV)
     && (capstone.op_count (capstone.detail instruction) =? 2)
  then
    let operand1 := capstone.operand instruction 0 in
    if bool_decide (capstone.type operand1 = capstone.X86_OP_MEM)
       && bool_decide (capstone.base (capstone.mem operand1) = capstone.X86_REG_RSP)
    then
      let operand2 := capstone.operand instruction 1 in
      if bool_decide (capstone.type operand2 = capstone.X86_OP_REG) then true else false
    else false
  else false.

(** [for ( uint32_t i = 0; i < total_movs_in_order; ++i )]: [None] stands
    for [return false], otherwise the cursor after the movs. *)
Fixpoint following_movs (n : nat) (cursor : Z * Z * Z) (instruction : capstone.cs_insn)
    : option ((Z * Z * Z) * capstone.cs_insn) :=
  match n with
  | O => Some (cursor, instruction)
  | S n' =>
      let '(disasm_status, cursor, instruction) := disasm_iter cursor instruction in
      if negb disasm_status then None
      else if negb (is_instruction_mov_rsp_plus_disp_reg instruction) then None
      else following_movs n' cursor instruction
  end.

(** [for ( int i = 0; i < 10; ++i )]: the search for [sub rsp, imm]. *)
Fixpoint find_sub_rsp (n : nat) (cursor : Z * Z * Z) (instruction : capstone.cs_insn)
    : bool :=
  match n with
  | O => false
  | S n' =>
      let '(disasm_status, cursor, instruction) := disasm_iter cursor instruction in
      if negb disasm_status then false
      else if bool_decide (capstone.id instruction = capstone.X86_INS_SUB)
              && (capstone.op_count (capstone.detail instruction) =? 2)
              && bool_decide (capstone.type (capstone.operand instruction 0)
                              = capstone.X86_OP_REG)
              && bool_decide (capstone.reg (capstone.operand instruction 0)
                              = capstone.X86_REG_RSP)
              && bool_decide (capstone.type (capstone.operand instruction 1)
                              = capstone.X86_OP_IMM)
      then true
      else find_sub_rsp n' cursor instruction
  end.

Fixpoint IsFunctionX64 (fuel : nat) (e : Engine) (code rva : Z) : Result bool :=
  match fuel with
  | O => OutOfFuel
  | S fuel' =>
      let code_size := uptr arch (code_buf_size_ e - current_code_index_ e) in
      (* disassemble first instruction *)
      let '(disasm_status, cursor, instruction) :=
        disasm_iter (code, code_size, rva) capstone.empty_insn in
      if negb disasm_status then Ok false
      else if IsGuaranteedJump instruction then
        let operand := capstone.operand instruction 0 in
        let jump_target_rva := capstone.imm operand in
        let jump_dest_disasm_point :=
          GetOperandDestinationValueDisassasemblyPoint instruction code
            (uptr arch jump_target_rva) in
        in_text ← IsRvaWithinText (PeDisassemblyEngine.rva jump_dest_disasm_point);
        if negb (in_text : bool) then Ok false
        else IsFunctionX64 fuel' e (PeDisassemblyEngine.code jump_dest_disasm_point)
               (PeDisassemblyEngine.rva jump_dest_disasm_point)
      else if negb (is_instruction_mov_rsp_plus_disp_reg instruction) then Ok false
      else
        let op1_value := capstone.disp (capstone.mem (capstone.operand instruction 0)) in
        (* is it divisible by 8? *)
        if Z.rem op1_value 8 =? 0 then
          let total_movs_in_order := u32 (Z.quot op1_value 8 - 1) in
          match following_movs (Z.to_nat total_movs_in_order) cursor instruction with
          | None => Ok false
          | Some (cursor, instruction) => Ok (find_sub_rsp 10 cursor instruction)
          end
        else Ok false
  end.

Definition IsFunction (fuel : nat) (e : Engine) (code rva : Z) : Result bool :=
  match arch with
  | X64 => IsFunctionX64 fuel e code rva
  | X86 => IsFunctionX86 fuel e code rva 0
  end.

Definition ParseInstruction (fuel : nat) (e : Engine) (instruction : capstone.cs_insn)
    : Result (DisassemblyAction * Engine) :=
  let is_ret := capstone.cs_insn_group instruction capstone.CS_GRP_RET in
  let is_interrupt := capstone.cs_insn_group instruction capstone.CS_GRP_INT in
  let is_jump := capstone.cs_insn_group instruction capstone.CS_GRP_JUMP in
  let is_call := capstone.cs_insn_group instruction capstone.CS_GRP_CALL in
  let ins_detail := capstone.detail instruction in
  let after_jump :=
    if IsGuaranteedJump instruction then NextDisassemblyPoint else NextInstruction in
  if is_ret then Ok (NextDisassemblyPoint, e)
  else if is_call || is_jump then
    if capstone.op_count ins_detail =? 1 then
      let operand := capstone.operand instruction 0 in
      if bool_decide (capstone.type operand = capstone.X86_OP_IMM) then
        let dest_delta := u64 (capstone.imm operand - capstone.address instruction) in
        let instruction_code_ptr := uptr arch (code_ e - capstone.size instruction) in
        let disasm_point :=
          {| rva := uptr arch (u64 (capstone.address instruction + dest_delta));
             code := uptr arch (instruction_code_ptr + dest_delta) |} in
        Ok (after_jump, AddDisassemblyPoint e disasm_point)
      else
        jump_table ←
          IsJumpTable e instruction (current_instruction_code_ e)
            (capstone.address instruction);
        if (jump_table : bool) then
          e ← ParseJumpTable fuel e instruction operand;
          Ok (NextDisassemblyPoint, e)
        else Ok (after_jump, e)
    else Ok (NextDisassemblyPoint, e)
  else if is_interrupt then Ok (NextDisassemblyPoint, e)
  else
    match capstone.id instruction with
    | capstone.X86_INS_MOV =>
        if capstone.op_count ins_detail =? 2 then
          let operand1 := capstone.operand instruction 0 in
          let operand2 := capstone.operand instruction 1 in
          jump_table ←
            IsJumpTable e instruction (current_instruction_code_ e)
              (capstone.address instruction);
          if (jump_table : bool) then
            e ← ParseJumpTable fuel e instruction operand2;
            Ok (NextDisassemblyPoint, e)
          else
            vtable_or_function ← IsVTableOrFunction operand1 operand2;
            if (vtable_or_function : bool) then
              (* mov mem_op, imm_op *)
              operand_rva ← GetOperandRva operand2 pe_image_base_;
              let dest_disasm_point :=
                GetOperandDestinationValueDisassasemblyPoint instruction
                  (current_instruction_code_ e) operand_rva in
              in_text ← IsRvaWithinText (rva dest_disasm_point);
              is_function ←
                (if (in_text : bool)
                 then IsFunction fuel e (code dest_disasm_point) (rva dest_disasm_point)
                 else Ok false);
              if (is_function : bool)
              then Ok (NextInstruction, AddDisassemblyPoint e dest_disasm_point)
              else Ok (NextInstruction, e)
            else Ok (NextInstruction, e)
        else Ok (NextInstruction, e)
    | capstone.X86_INS_PUSH =>
        let operand := capstone.operand instruction 0 in
        if bool_decide (capstone.type operand = capstone.X86_OP_IMM) then
          operand_rva ← GetOperandRva operand pe_image_base_;
          in_text ← IsRvaWithinText operand_rva;
          if (in_text : bool) then
            let dest_disasm :=
              GetOperandDestinationValueDisassasemblyPoint instruction
                (current_instruction_code_ e) operand_rva in
            is_function ← IsFunction fuel e (code dest_disasm) (rva dest_disasm);
            if (is_function : bool)
            then Ok (NextInstruction, AddDisassemblyPoint e dest_disasm)
            else Ok (NextInstruction, e)
          else Ok (NextInstruction, e)
        else Ok (NextInstruction, e)
    | _ => Ok (NextInstruction, e)
    end.

Definition ContinueFromRedirectionInstructions (e : Engine) : bool * Engine :=
  match last (disassembly_points_ e) with
  | None => (false, e)
  | Some next_disasm_point =>
      (true,
       {| code_ := code next_disasm_point; address_ := rva next_disasm_point;
          code_buf_size_ := code_buf_size_ e;
          current_code_index_ := current_code_index_ e;
          current_instruction_code_ := current_instruction_code_ e;
          disassembly_points_ := removelast (disassembly_points_ e);
          disassembly_points_cache_ := disassembly_points_cache_ e;
          data_ranges_ := data_ranges_ e |})
  end.

(** The loop of [ParseRDataSection],
    [for ( uint32_t i = 0; i < SizeOfRawData; i += sizeof( uintptr_t ) )]. *)
Fixpoint ParseRDataSection_loop (fuel : nat) (e : Engine)
    (rdata_section_header : pe.IMAGE_SECTION_HEADER) (i : Z) : Result Engine :=
  match fuel with
  | O => OutOfFuel
  | S fuel' =>
      if negb (i <? pe.SizeOfRawData rdata_section_header) then Ok e
      else
        let continue := λ e,
          ParseRDataSection_loop fuel' e rdata_section_header
            (u32 (i + sizeof_uintptr arch)) in
        let raw_file_data := u32 (pe.PointerToRawData rdata_section_header + i) in
        raw_file_data_value ←
          deref (read_le (pe.GetPeImage pe_) raw_file_data
                   (Z.to_nat (sizeof_uintptr arch)));
        (* if the value (to be address) is 0, it is not function pointer *)
        if raw_file_data_value =? 0 then continue e
        else
          let possible_function_pointer_rva :=
            uptr arch (raw_file_data_value - pe_image_base_) in
          in_text ← IsRvaWithinText possible_function_pointer_rva;
          if (in_text : bool) then
            let possible_function_pointer_offset :=
              pe.RvaToFileOffset pe_section_headers_ possible_function_pointer_rva in
            if possible_function_pointer_offset =? 0 then continue e
            else
              let possible_function_pointer_code :=
                uptr arch (0 + possible_function_pointer_offset) in
              is_function ←
                IsFunction fuel' e possible_function_pointer_code
                  possible_function_pointer_rva;
              if (is_function : bool)
              then continue
                     (AddDisassemblyPoint e
                        {| rva := possible_function_pointer_rva;
                           code := possible_function_pointer_code |})
              else continue e
          else continue e
  end.

Definition ParseRDataSection (fuel : nat) (e : Engine) : Result Engine :=
  match pe.FromName pe_section_headers_ ".rdata" with
  | None => Throw ".rdata was not found"
  | Some rdata_section_header =>
      ParseRDataSection_loop fuel e rdata_section_header 0
  end.

End Engine.

(* --------------------------------------------------------------------- *)
(** *** The constructor *)

(** [cs_err::CS_ERR_OK] *)
Definition CS_ERR_OK : Z := 0.

(** The constructor.  [cs_open_status] and [cs_option_status] are the values
    that [cs_open] and [cs_option] return, [nullptr] is the null pointer as
    a distance from the image buffer.  The members that are read from [pe_]
    are the definitions [pe_section_headers_], [pe_text_section_header_]
    and [pe_image_base_] above. *)
Definition new_PeDisassemblyEngine (cs_open_status cs_option_status nullptr : Z)
    : Result Engine :=
  let cs_status := cs_open_status in
  if negb (cs_status =? CS_ERR_OK) then
    Throw ("cs_open failed with error code " +:+ pretty cs_status)
  else
    let detail_status := cs_option_status in
    if negb (detail_status =? CS_ERR_OK) then
      Throw ("cs_option failed with error code " +:+ pretty cs_status)
    else
      Ok {| code_ := nullptr; address_ := 0; code_buf_size_ := 0;
            current_code_index_ := 0; current_instruction_code_ := nullptr;
            disassembly_points_ := []; disassembly_points_cache_ := ∅;
            data_ranges_ := [] |}.

End PeDisassemblyEngine.

(* ===================================================================== *)
(** ** protector.cpp *)
(* ===================================================================== *)

Module protector.

Inductive FixupOperation :=
| AddVmLoaderSectionVirtualAddress
| SubtractVmLoaderSectionVirtualAddress
| AddVirtualizedCodeSectionVirtualAddress.

Inductive OffsetRelativeTo :=
| VmLoaderSection | TextSection | RelocSection | VirtualizedCodeSection
| Beginning.

Record FixupDescriptor :=
  { offset_type : OffsetRelativeTo;
    size : Z;   (* the size of the value to update, 4 or 8 bytes *)
    operation : FixupOperation }.

Record Fixup := { offset : Z; desc : FixupDescriptor }.

Record FixupContext :=
  { relocation_rvas_to_remove : list Z;
    vm_section_offsets_to_add_to_relocation_table : list Z;
    virtualized_code_section_offsets_to_add_to_relocation_table : list Z;
    fixups : list Fixup }.

Record ProtectorContext :=
  { vm_loader_section : pe.Section;
    virtualized_code_section : pe.Section;
    new_text_section : pe.Section;
    fixup_context : FixupContext }.

(** [std::lower_bound], the binary search of the standard library, on
    indices: [first] is the start of the range that is still searched and
    [len] its length ([length l] plays the part of [cend()]).  Each turn
    looks at the middle of the range and goes on with the part before it or
    the part after it, so that [len] shrinks; [fuel] is the length of the
    vector and is never used up.  The element at [middle] exists, since
    [middle < first + len]. *)
Fixpoint lower_bound_loop (fuel : nat) (l : list Z) (v : Z) (first len : nat)
    : nat :=
  match fuel with
  | O => first
  | S fuel' =>
      if (0 <? len)%nat then
        let half := (len / 2)%nat in
        let middle := (first + half)%nat in
        match l !! middle with
        | Some x =>
            if x <? v
            then lower_bound_loop fuel' l v (S middle) (len - half - 1)
            else lower_bound_loop fuel' l v first half
        | None => first
        end
      else first
  end.

Definition lower_bound (l : list Z) (v : Z) : nat :=
  lower_bound_loop (length l) l v 0 (length l).

(** The first loop, [for ( int i = 0; i < instruction.size; ++i )]: [n] is
    the number of iterations left.  The result is [it_found_result]. *)
Fixpoint find_first_relocation
    (relocations_to_search : list Z) (address i : Z) (n : nat) : option nat :=
  match n with
  | O => None
  | S n' =>
      let instruction_rva := u64 (address + i) in
      let it := lower_bound relocations_to_search instruction_rva in
      match relocations_to_search !! it with
      | Some x =>
          if x =? instruction_rva then Some it
          else find_first_relocation relocations_to_search address (i + 1) n'
      | None => find_first_relocation relocations_to_search address (i + 1) n'
      end
  end.

(** The second loop, over the elements that follow [it_found_result]. *)
Fixpoint collect_following (address size : Z) (rest : list Z) : list Z :=
  match rest with
  | [] => []
  | reloc_rva :: rest' =>
      let is_reloc_within_instruction :=
        (address <=? reloc_rva) && (reloc_rva <? u64 (address + size)) in
      if is_reloc_within_instruction
      then reloc_rva :: collect_following address size rest'
      else []
  end.

(** [GetRelocationsWithinInstruction]; of the instruction only
    [instruction.address] and [instruction.size] are read. *)
Definition GetRelocationsWithinInstruction
    (address size : Z) (relocations_to_search : list Z) : list Z :=
  match find_first_relocation relocations_to_search address 0 (Z.to_nat size) with
  | None => []
  | Some it =>
      match relocations_to_search !! it with
      | Some x =>
          x :: collect_following address size (drop (S it) relocations_to_search)
      | None => []
      end
  end.

(** A loop body that can fail, run over a vector from left to right. *)
Fixpoint foldM {A S : Type} (f : S → A → Result S) (l : list A) (s : S) : Result S :=
  match l with
  | [] => Ok s
  | a :: l' => s' ← f s a; foldM f l' s'
  end.

Section Build.

(** The build switches and the constants of the absent headers. *)
Variable arch : Arch.
Variable ENABLE_TLS_CALLBACKS : bool.
Variable DEFAULT_PE_BASE_ADDRESS : Z.
Variable VM_FUNCTIONS_SECTION_NAME : string.
Variable VM_LOADER_SECTION_NAME : string.
Variable VM_CODE_SECTION_NAME : string.

(** [sizeof( uintptr_t )] as a byte count. *)
Definition ptr_bytes : nat := Z.to_nat (sizeof_uintptr arch).

Definition push_fixup (c : FixupContext) (f : Fixup) : FixupContext :=
  {| relocation_rvas_to_remove := relocation_rvas_to_remove c;
     vm_section_offsets_to_add_to_relocation_table :=
       vm_section_offsets_to_add_to_relocation_table c;
     virtualized_code_section_offsets_to_add_to_relocation_table :=
       virtualized_code_section_offsets_to_add_to_relocation_table c;
     fixups := fixups c ++ [f] |}.

Definition push_vm_section_offsets (c : FixupContext) (l : list Z) : FixupContext :=
  {| relocation_rvas_to_remove := relocation_rvas_to_remove c;
     vm_section_offsets_to_add_to_relocation_table :=
       vm_section_offsets_to_add_to_relocation_table c ++ l;
     virtualized_code_section_offsets_to_add_to_relocation_table :=
       virtualized_code_section_offsets_to_add_to_relocation_table c;
     fixups := fixups c |}.

Definition push_virtualized_code_section_offsets
    (c : FixupContext) (l : list Z) : FixupContext :=
  {| relocation_rvas_to_remove := relocation_rvas_to_remove c;
     vm_section_offsets_to_add_to_relocation_table :=
       vm_section_offsets_to_add_to_relocation_table c;
     virtualized_code_section_offsets_to_add_to_relocation_table :=
       virtualized_code_section_offsets_to_add_to_relocation_table c ++ l;
     fixups := fixups c |}.

Definition set_relocation_rvas_to_remove (c : FixupContext) (l : list Z) : FixupContext :=
  {| relocation_rvas_to_remove := l;
     vm_section_offsets_to_add_to_relocation_table :=
       vm_section_offsets_to_add_to_relocation_table c;
     virtualized_code_section_offsets_to_add_to_relocation_table :=
       virtualized_code_section_offsets_to_add_to_relocation_table c;
     fixups := fixups c |}.

Definition set_fixups (c : FixupContext) (l : list Fixup) : FixupContext :=
  {| relocation_rvas_to_remove := relocation_rvas_to_remove c;
     vm_section_offsets_to_add_to_relocation_table :=
       vm_section_offsets_to_add_to_relocation_table c;
     virtualized_code_section_offsets_to_add_to_relocation_table :=
       virtualized_code_section_offsets_to_add_to_relocation_table c;
     fixups := l |}.

Definition AddInterpreterCodeToSection
    (CopySectionDeep : pe.PortableExecutable → pe.IMAGE_SECTION_HEADER → pe.Section)
    (interpreter_pe : pe.PortableExecutable) (section : pe.Section) : Result pe.Section :=
  interpreter_vm_section ←
    deref (pe.FromName (pe.GetSectionHeaders interpreter_pe) VM_FUNCTIONS_SECTION_NAME);
  let temp_section_copy := CopySectionDeep interpreter_pe interpreter_vm_section in
  let nt_header := pe.GetNtHeaders interpreter_pe in
  Ok (fst (pe.AppendCode section (pe.GetData temp_section_copy)
             (pe.SectionAlignment nt_header) (pe.FileAlignment nt_header))).

Definition GetExportedFunctionOffsetRelativeToSection
    (p : pe.PortableExecutable) (function_name : string) : Result Z :=
  match find (λ exprt, String.eqb (pe.function_name exprt) function_name)
             (pe.GetExports p) with
  | None => Throw ("Unable to find the" +:+ function_name)
  | Some export_found =>
      section_containing_interpreter ←
        deref (pe.FromRva (pe.GetSectionHeaders p) (pe.function_addr_rva export_found));
      Ok (u32 (pe.RvaToSectionOffset section_containing_interpreter
                 (pe.function_addr_rva export_found)))
  end.

(** [offsetof( IMAGE_TLS_DIRECTORY, ... )]: four pointer-sized fields, then
    two DWORDs. *)
Definition offsetof_AddressOfIndex : Z := 2 * sizeof_uintptr arch.
Definition offsetof_AddressOfCallBacks : Z := 3 * sizeof_uintptr arch.
Definition sizeof_IMAGE_TLS_DIRECTORY : Z := 4 * sizeof_uintptr arch + 8.

(** The loop of [CopyTlsCallbackList], [for ( int i = 0;; ++i )]. *)
Fixpoint CopyTlsCallbackList_loop (fuel : nat) (original_pe_data : list Z)
    (tls_callback_list_start_offset i : Z) (tls_callback_list : list Z)
    : Result (list Z) :=
  match fuel with
  | O => OutOfFuel
  | S fuel' =>
      let addr_list_offset := i * sizeof_uintptr arch in
      callback_addr ←
        deref (read_le original_pe_data
                 (tls_callback_list_start_offset + addr_list_offset) ptr_bytes);
      let reached_end := callback_addr =? 0 in
      if negb reached_end
      then CopyTlsCallbackList_loop fuel' original_pe_data
             tls_callback_list_start_offset (i + 1)
             (tls_callback_list ++ [callback_addr])
      else Ok tls_callback_list
  end.

Definition CopyTlsCallbackList (fuel : nat) (original_pe_data : list Z)
    (AddressOfCallBacks : Z) (original_sections : pe.SectionHeaders)
    (image_base : Z) : Result (list Z) :=
  if AddressOfCallBacks =? 0 then Ok []
  else
    let tls_callback_list_start_offset :=
      pe.RvaToFileOffset original_sections (uptr arch (AddressOfCallBacks - image_base)) in
    CopyTlsCallbackList_loop fuel original_pe_data tls_callback_list_start_offset 0 [].

(** [reinterpret_cast<uint8_t*>( tls_callback_list.data() )]. *)
Definition pointer_list_bytes (l : list Z) : list Z :=
  concat (map (le_bytes ptr_bytes) l).

(** The offsets pushed by
    [for ( int i = 0; i < tls_callback_list.size(); ++i )
       if ( tls_callback_list[ i ] != 0 ) ...]. *)
Definition callback_relocation_offsets
    (tls_callback_list_offset : Z) (tls_callback_list : list Z) : list Z :=
  concat (imap (λ i callback,
                  if callback =? 0 then []
                  else [tls_callback_list_offset + Z.of_nat i * sizeof_uintptr arch])
               tls_callback_list).

Definition set_virtualized_code_section (c : ProtectorContext) (s : pe.Section) :=
  {| vm_loader_section := vm_loader_section c; virtualized_code_section := s;
     new_text_section := new_text_section c; fixup_context := fixup_context c |}.

Definition set_vm_loader_section (c : ProtectorContext) (s : pe.Section) :=
  {| vm_loader_section := s; virtualized_code_section := virtualized_code_section c;
     new_text_section := new_text_section c; fixup_context := fixup_context c |}.

Definition set_new_text_section (c : ProtectorContext) (s : pe.Section) :=
  {| vm_loader_section := vm_loader_section c;
     virtualized_code_section := virtualized_code_section c;
     new_text_section := s; fixup_context := fixup_context c |}.

Definition set_fixup_context (c : ProtectorContext) (f : FixupContext) :=
  {| vm_loader_section := vm_loader_section c;
     virtualized_code_section := virtualized_code_section c;
     new_text_section := new_text_section c; fixup_context := f |}.

(** [AddTlsCallbacks].  [original_pe] is changed in place: the function
    returns it next to the context.  [fuel] bounds the walk over the
    callback list of the input. *)
Definition AddTlsCallbacks (fuel : nat) (interpreter_pe original_pe : pe.PortableExecutable)
    (context : ProtectorContext) : Result (pe.PortableExecutable * ProtectorContext) :=
  let original_pe_data := pe.GetPeImage original_pe in
  let original_pe_headers := pe.GetNtHeaders original_pe in
  let original_sections := pe.GetSectionHeaders original_pe in
  let original_tls_data_dir :=
    pe.GetDataDirectory original_pe_headers pe.IMAGE_DIRECTORY_ENTRY_TLS in
  let has_tls_directory := negb (pe.dir_Size original_tls_data_dir =? 0) in
  if has_tls_directory then
    let image_base := pe.ImageBase original_pe_headers in
    let tls_dir_file_offset :=
      pe.RvaToFileOffset original_sections (pe.dir_VirtualAddress original_tls_data_dir) in
    AddressOfCallBacks ←
      deref (read_le original_pe_data
               (tls_dir_file_offset + offsetof_AddressOfCallBacks) ptr_bytes);
    tls_callback_list ←
      CopyTlsCallbackList fuel original_pe_data AddressOfCallBacks
        original_sections image_base;
    interpreter_tls_callback_offset ←
      GetExportedFunctionOffsetRelativeToSection interpreter_pe "TlsCallback";
    let my_tls_callback_index := Z.of_nat (length tls_callback_list) in
    let tls_callback_list :=
      tls_callback_list
        ++ [uptr arch (DEFAULT_PE_BASE_ADDRESS + interpreter_tls_callback_offset)]
        ++ [0; 0; 0; 0; 0] in
    let tls_callbacks_list_data := pointer_list_bytes tls_callback_list in
    let '(section, tls_callback_list_offset) :=
      pe.AppendCode (virtualized_code_section context) tls_callbacks_list_data
        (pe.SectionAlignment original_pe_headers)
        (pe.FileAlignment original_pe_headers) in
    let fc :=
      push_virtualized_code_section_offsets (fixup_context context)
        (callback_relocation_offsets tls_callback_list_offset tls_callback_list) in
    let my_tls_callback_offset :=
      tls_callback_list_offset + my_tls_callback_index * sizeof_uintptr arch in
    let callback_addr_fixup :=
      {| offset := my_tls_callback_offset;
         desc := {| offset_type := VirtualizedCodeSection;
                    size := sizeof_uintptr arch;
                    operation := AddVmLoaderSectionVirtualAddress |} |} in
    let fc := push_fixup fc callback_addr_fixup in
    let addr_of_callbacks_offset := tls_dir_file_offset + offsetof_AddressOfCallBacks in
    image ←
      deref (write_le original_pe_data addr_of_callbacks_offset ptr_bytes
               (uptr arch (DEFAULT_PE_BASE_ADDRESS + tls_callback_list_offset)));
    let addr_of_callbacks_fixup :=
      {| offset := addr_of_callbacks_offset;
         desc := {| offset_type := Beginning;
                    size := sizeof_uintptr arch;
                    operation := AddVirtualizedCodeSectionVirtualAddress |} |} in
    let fc := push_fixup fc addr_of_callbacks_fixup in
    Ok (pe.SetPeImage original_pe image,
        set_fixup_context (set_virtualized_code_section context section) fc)
  else
    let index_data := replicate ptr_bytes 0 in
    let '(section, index_data_offset) :=
      pe.AppendCode (virtualized_code_section context) index_data
        (pe.SectionAlignment original_pe_headers)
        (pe.FileAlignment original_pe_headers) in
    interpreter_tls_callback_offset ←
      GetExportedFunctionOffsetRelativeToSection interpreter_pe "TlsCallback";
    let my_tls_callback_index := 0 in
    let tls_callback_list :=
      [uptr arch (DEFAULT_PE_BASE_ADDRESS + interpreter_tls_callback_offset)]
        ++ [0; 0; 0; 0; 0] in
    let tls_callbacks_list_data := pointer_list_bytes tls_callback_list in
    let '(section, tls_callback_list_offset) :=
      pe.AppendCode section tls_callbacks_list_data
        (pe.SectionAlignment original_pe_headers)
        (pe.FileAlignment original_pe_headers) in
    let fc :=
      push_virtualized_code_section_offsets (fixup_context context)
        (callback_relocation_offsets tls_callback_list_offset tls_callback_list) in
    let my_tls_callback_offset :=
      tls_callback_list_offset + my_tls_callback_index * sizeof_uintptr arch in
    let callback_addr_fixup :=
      {| offset := my_tls_callback_offset;
         desc := {| offset_type := VirtualizedCodeSection;
                    size := sizeof_uintptr arch;
                    operation := AddVmLoaderSectionVirtualAddress |} |} in
    let fc := push_fixup fc callback_addr_fixup in
    let tls_directory_data :=
      pointer_list_bytes
        [0; 0;
         uptr arch (DEFAULT_PE_BASE_ADDRESS + index_data_offset);
         uptr arch (DEFAULT_PE_BASE_ADDRESS + tls_callback_list_offset)]
      ++ le_bytes 4 0 ++ le_bytes 4 pe.IMAGE_SCN_ALIGN_1BYTES in
    let virtualized_code_desc :=
      {| offset_type := VirtualizedCodeSection;
         size := sizeof_uintptr arch;
         operation := AddVirtualizedCodeSectionVirtualAddress |} in
    let '(section, tls_directory_data_offset) :=
      pe.AppendCode section tls_directory_data
        (pe.SectionAlignment original_pe_headers)
        (pe.FileAlignment original_pe_headers) in
    let addr_of_index_offset := tls_directory_data_offset + offsetof_AddressOfIndex in
    let fc := push_fixup fc {| offset := addr_of_index_offset; desc := virtualized_code_desc |} in
    let fc := push_virtualized_code_section_offsets fc [addr_of_index_offset] in
    let addr_of_callbacks_offset :=
      tls_directory_data_offset + offsetof_AddressOfCallBacks in
    let fc := push_fixup fc {| offset := addr_of_callbacks_offset; desc := virtualized_code_desc |} in
    let fc := push_virtualized_code_section_offsets fc [addr_of_callbacks_offset] in
    (* the data directory entry lives in the image buffer: both views change *)
    let entry_offset :=
      pe.DataDirectoryOffset arch original_pe pe.IMAGE_DIRECTORY_ENTRY_TLS in
    image ←
      deref (write_le original_pe_data (entry_offset + 4) 4
               (u32 sizeof_IMAGE_TLS_DIRECTORY));
    image ← deref (write_le image entry_offset 4 (u32 tls_directory_data_offset));
    let headers :=
      pe.SetDataDirectory original_pe_headers pe.IMAGE_DIRECTORY_ENTRY_TLS
        {| pe.dir_VirtualAddress := u32 tls_directory_data_offset;
           pe.dir_Size := u32 sizeof_IMAGE_TLS_DIRECTORY |} in
    let tls_data_directory_virtual_address_fixup :=
      {| offset := entry_offset + 0;
         desc := {| offset_type := Beginning;
                    size := sizeof_uintptr arch;
                    operation := AddVirtualizedCodeSectionVirtualAddress |} |} in
    let fc := push_fixup fc tls_data_directory_virtual_address_fixup in
    Ok (pe.SetNtHeaders (pe.SetPeImage original_pe image) headers,
        set_fixup_context (set_virtualized_code_section context section) fc).

(** [RelocateInterpreterPe]; [Relocate] is a method of the absent class. *)
Definition RelocateInterpreterPe
    (Relocate : pe.PortableExecutable → Z → pe.PortableExecutable)
    (interpreter_pe : pe.PortableExecutable) (new_image_base : Z)
    : Result pe.PortableExecutable :=
  vm_fun_section ←
    deref (pe.FromName (pe.GetSectionHeaders interpreter_pe) VM_FUNCTIONS_SECTION_NAME);
  let vm_section_virtual_address := 0 in
  let section_delta := u32 (vm_section_virtual_address - pe.VirtualAddress vm_fun_section) in
  let base_address_delta :=
    uptr arch (new_image_base - pe.ImageBase (pe.GetNtHeaders interpreter_pe)) in
  Ok (Relocate interpreter_pe (uptr arch (base_address_delta + section_delta))).

(* --------------------------------------------------------------------- *)
(** *** The relocation rebuilder *)

Definition CreateRelocationBlockBuffer
    (virtual_address : Z) (relocations : list pe.Relocation) : list Z :=
  let SizeOfBlock := u32 (8 + Z.of_nat (length relocations) * 2) in
  le_bytes 4 virtual_address ++ le_bytes 4 SizeOfBlock
  ++ concat (map pe.Relocation_bytes relocations).

Definition DetermineFirstRelocationBlockVirtualAddress
    (vm_section_offsets_to_add_to_relocation_table : list Z)
    (highest_reloc_offset : Z) : Z :=
  u32 (pe.AlignDown (nth 0 vm_section_offsets_to_add_to_relocation_table 0)
         highest_reloc_offset).

Definition TrimRelocSectionPadding
    (nt_headers : pe.IMAGE_NT_HEADERS) (reloc_section : pe.Section) : pe.Section :=
  let reloc_directory :=
    pe.GetDataDirectory nt_headers pe.IMAGE_DIRECTORY_ENTRY_BASERELOC in
  pe.SetData reloc_section
    (take (Z.to_nat (pe.dir_Size reloc_directory)) (pe.GetData reloc_section)).

(** [AppendRelocationBlock].  [relocations] is passed by reference and may
    grow by the padding entry: it is returned with the destination offset,
    the headers and the section. *)
Definition AppendRelocationBlock (reloc_block_virtual_address : Z)
    (relocations : list pe.Relocation) (nt_headers : pe.IMAGE_NT_HEADERS)
    (reloc_section : pe.Section)
    : Z * list pe.Relocation * pe.IMAGE_NT_HEADERS * pe.Section :=
  let relocations :=
    if negb (Z.of_nat (length relocations) mod 2 =? 0)
    then relocations ++ [pe.mkRelocation 0 0]
    else relocations in
  let reloc_block_bytes :=
    CreateRelocationBlockBuffer reloc_block_virtual_address relocations in
  let '(reloc_section, dest_offset) :=
    pe.AppendCode reloc_section reloc_block_bytes
      (pe.SectionAlignment nt_headers) (pe.FileAlignment nt_headers) in
  let reloc_directory :=
    pe.GetDataDirectory nt_headers pe.IMAGE_DIRECTORY_ENTRY_BASERELOC in
  let nt_headers :=
    pe.SetDataDirectory nt_headers pe.IMAGE_DIRECTORY_ENTRY_BASERELOC
      {| pe.dir_VirtualAddress := pe.dir_VirtualAddress reloc_directory;
         pe.dir_Size :=
           u32 (pe.dir_Size reloc_directory + Z.of_nat (length reloc_block_bytes)) |} in
  (dest_offset, relocations, nt_headers, reloc_section).

Definition k4kPage : Z := 4096.

Definition relocation_type : Z :=
  match arch with
  | X64 => pe.IMAGE_REL_BASED_DIR64
  | X86 => pe.IMAGE_REL_BASED_HIGHLOW
  end.

(** What the loop of [AddRelocations] carries from one offset to the next. *)
Record RelocationRun :=
  { reloc_block_virtual_address : Z;
    new_relocations : list pe.Relocation;
    run_nt_headers : pe.IMAGE_NT_HEADERS;
    run_reloc_section : pe.Section;
    run_fixups : list Fixup }.

Definition AddRelocations_step (fixup_desc : FixupDescriptor)
    (run : RelocationRun) (vm_section_offset_to_relocate : Z) : RelocationRun :=
  let delta_offset_from_reloc_block_va :=
    uptr arch (vm_section_offset_to_relocate - reloc_block_virtual_address run) in
  let relocation := pe.mkRelocation relocation_type delta_offset_from_reloc_block_va in
  if k4kPage <=? delta_offset_from_reloc_block_va then
    let '(dest_offset, _, nt_headers, reloc_section) :=
      AppendRelocationBlock (reloc_block_virtual_address run) (new_relocations run)
        (run_nt_headers run) (run_reloc_section run) in
    let va := u32 (pe.AlignDown vm_section_offset_to_relocate k4kPage) in
    let relocation :=
      pe.mkRelocation relocation_type (uptr arch (vm_section_offset_to_relocate - va)) in
    {| reloc_block_virtual_address := va;
       new_relocations := [relocation];
       run_nt_headers := nt_headers;
       run_reloc_section := reloc_section;
       run_fixups := run_fixups run ++ [{| offset := dest_offset; desc := fixup_desc |}] |}
  else
    {| reloc_block_virtual_address := reloc_block_virtual_address run;
       new_relocations := new_relocations run ++ [relocation];
       run_nt_headers := run_nt_headers run;
       run_reloc_section := run_reloc_section run;
       run_fixups := run_fixups run |}.

Definition AddRelocations (fixup_desc : FixupDescriptor)
    (section_offsets_to_add_to_relocation_table : list Z)
    (nt_headers : pe.IMAGE_NT_HEADERS) (reloc_section : pe.Section)
    (fixups : list Fixup) : pe.IMAGE_NT_HEADERS * pe.Section * list Fixup :=
  match section_offsets_to_add_to_relocation_table with
  | [] => (nt_headers, reloc_section, fixups)
  | _ =>
      let run :=
        fold_left (AddRelocations_step fixup_desc)
          section_offsets_to_add_to_relocation_table
          {| reloc_block_virtual_address :=
               DetermineFirstRelocationBlockVirtualAddress
                 section_offsets_to_add_to_relocation_table k4kPage;
             new_relocations := [];
             run_nt_headers := nt_headers;
             run_reloc_section := TrimRelocSectionPadding nt_headers reloc_section;
             run_fixups := fixups |} in
      if (0 <? length (new_relocations run))%nat then
        let '(dest_offset, _, nt_headers, reloc_section) :=
          AppendRelocationBlock (reloc_block_virtual_address run) (new_relocations run)
            (run_nt_headers run) (run_reloc_section run) in
        (nt_headers, reloc_section,
         run_fixups run ++ [{| offset := dest_offset; desc := fixup_desc |}])
      else (run_nt_headers run, run_reloc_section run, run_fixups run)
  end.

Definition AddVirtualizedCodeSectionRelocations (nt_headers : pe.IMAGE_NT_HEADERS)
    (reloc_section : pe.Section) (fixup_context : FixupContext)
    : pe.IMAGE_NT_HEADERS * pe.Section * FixupContext :=
  let fixup_desc :=
    {| offset_type := RelocSection;
       size := sizeof_uintptr arch;
       operation := AddVirtualizedCodeSectionVirtualAddress |} in
  let '(nt_headers, reloc_section, fixups) :=
    AddRelocations fixup_desc
      (virtualized_code_section_offsets_to_add_to_relocation_table fixup_context)
      nt_headers reloc_section (fixups fixup_context) in
  (nt_headers, reloc_section, set_fixups fixup_context fixups).

Definition AddVmSectionRelocations (nt_headers : pe.IMAGE_NT_HEADERS)
    (reloc_section : pe.Section) (fixup_context : FixupContext)
    : pe.IMAGE_NT_HEADERS * pe.Section * FixupContext :=
  let fixup_desc :=
    {| offset_type := RelocSection;
       size := 4;
       operation := AddVmLoaderSectionVirtualAddress |} in
  let '(nt_headers, reloc_section, fixups) :=
    AddRelocations fixup_desc
      (vm_section_offsets_to_add_to_relocation_table fixup_context)
      nt_headers reloc_section (fixups fixup_context) in
  (nt_headers, reloc_section, set_fixups fixup_context fixups).

(** [RemoveRelocations]: every entry whose RVA is in the list becomes
    padding. *)
Definition RemoveRelocations (relocation_rvas_to_remove : list Z)
    (p : pe.PortableExecutable) : pe.PortableExecutable :=
  fold_left
    (λ p reloc_rva,
       pe.SetRelocations p
         (map (λ '(rva, reloc),
                 if reloc_rva =? rva
                 then (rva, pe.mkRelocation pe.IMAGE_REL_BASED_ABSOLUTE 0)
                 else (rva, reloc))
              (pe.GetRelocations p)))
    relocation_rvas_to_remove p.

Definition CreateVmSection
    (CopySectionDeep : pe.PortableExecutable → pe.IMAGE_SECTION_HEADER → pe.Section)
    (interpreter_pe : pe.PortableExecutable) : Result pe.Section :=
  let vm_section := pe.CreateEmptySection VM_LOADER_SECTION_NAME in
  AddInterpreterCodeToSection CopySectionDeep interpreter_pe vm_section.

Definition GetRelocationsWithinSectionAsSectionOffsets
    (p : pe.PortableExecutable) (section : pe.IMAGE_SECTION_HEADER) : list Z :=
  concat (map (λ '(rva, reloc),
                 if pe.type reloc =? pe.IMAGE_REL_BASED_ABSOLUTE then []
                 else if pe.IsRvaWithinSection section rva
                      then [u32 (pe.RvaToSectionOffset section rva)]
                      else [])
              (pe.GetRelocations p)).

Definition GetRelocationRvas (p : pe.PortableExecutable) : list Z :=
  concat (map (λ '(rva, reloc),
                 if negb (pe.type reloc =? pe.IMAGE_REL_BASED_ABSOLUTE)
                 then [rva] else [])
              (pe.GetRelocations p)).

(* --------------------------------------------------------------------- *)
(** *** The fixup engine *)

(** The first [switch] of the loop of [FixFinishedPe]: the file offset of
    the value to update. *)
Definition fixup_file_offset (new_pe_section_headers : pe.SectionHeaders)
    (text_section : pe.IMAGE_SECTION_HEADER) (fixup : Fixup) : Result Z :=
  let new_pe_vm_loader_section :=
    pe.FromName new_pe_section_headers VM_LOADER_SECTION_NAME in
  let new_pe_virtualized_code_section :=
    pe.FromName new_pe_section_headers VM_CODE_SECTION_NAME in
  let reloc_section := pe.FromName new_pe_section_headers ".reloc" in
  match offset_type (desc fixup) with
  | VmLoaderSection =>
      section ← deref new_pe_vm_loader_section;
      let rva := pe.SectionOffsetToRva section (offset fixup) in
      Ok (pe.RvaToFileOffset new_pe_section_headers rva)
  | TextSection =>
      let rva := pe.SectionOffsetToRva text_section (offset fixup) in
      Ok (pe.RvaToFileOffset new_pe_section_headers rva)
  | RelocSection =>
      section ← deref reloc_section;
      let rva := pe.SectionOffsetToRva section (offset fixup) in
      Ok (pe.RvaToFileOffset new_pe_section_headers rva)
  | VirtualizedCodeSection =>
      section ← deref new_pe_virtualized_code_section;
      let rva := pe.SectionOffsetToRva section (offset fixup) in
      Ok (pe.RvaToFileOffset new_pe_section_headers rva)
  | Beginning => Ok (offset fixup)
  end.

(** The inner [switch] on [fixup.desc.operation]; [bits] is the width of the
    integer that is read and written back. *)
Definition fixup_value (new_pe_section_headers : pe.SectionHeaders)
    (bits : Z) (op : FixupOperation) (value : Z) : Result Z :=
  match op with
  | AddVmLoaderSectionVirtualAddress =>
      section ← deref (pe.FromName new_pe_section_headers VM_LOADER_SECTION_NAME);
      Ok (wrap bits (value + pe.VirtualAddress section))
  | AddVirtualizedCodeSectionVirtualAddress =>
      section ← deref (pe.FromName new_pe_section_headers VM_CODE_SECTION_NAME);
      Ok (wrap bits (value + pe.VirtualAddress section))
  | SubtractVmLoaderSectionVirtualAddress =>
      section ← deref (pe.FromName new_pe_section_headers VM_LOADER_SECTION_NAME);
      Ok (wrap bits (value - pe.VirtualAddress section))
  end.

(** One turn of the loop of [FixFinishedPe] on the image buffer. *)
Definition apply_fixup (new_pe_section_headers : pe.SectionHeaders)
    (text_section : pe.IMAGE_SECTION_HEADER) (image : list Z) (fixup : Fixup)
    : Result (list Z) :=
  file_offset ← fixup_file_offset new_pe_section_headers text_section fixup;
  if size (desc fixup) =? 4 then
    value ← deref (read_le image file_offset 4);
    updated ← fixup_value new_pe_section_headers 32 (operation (desc fixup)) value;
    deref (write_le image file_offset 4 updated)
  else if size (desc fixup) =? 8 then
    value ← deref (read_le image file_offset 8);
    updated ← fixup_value new_pe_section_headers 64 (operation (desc fixup)) value;
    deref (write_le image file_offset 8 updated)
  else Throw "unsupported fixup size".

Definition apply_fixups (new_pe_section_headers : pe.SectionHeaders)
    (text_section : pe.IMAGE_SECTION_HEADER) (fixups : list Fixup) (image : list Z)
    : Result (list Z) :=
  foldM (apply_fixup new_pe_section_headers text_section) fixups image.

(** A fixup misses the window [site, site + n) of the image when the bytes
    that it updates lie before or after it. *)
Definition misses (new_pe_section_headers : pe.SectionHeaders)
    (text_section : pe.IMAGE_SECTION_HEADER) (site : Z) (n : nat)
    (fixup : Fixup) : Prop :=
  ∀ file_offset,
    fixup_file_offset new_pe_section_headers text_section fixup = Ok file_offset →
    file_offset + size (desc fixup) <= site ∨ site + Z.of_nat n <= file_offset.

(** A fixup of a supported size whose integer lies inside an image of [n]
    bytes. *)
Definition resolves (new_pe_section_headers : pe.SectionHeaders)
    (text_section : pe.IMAGE_SECTION_HEADER) (n : nat) (fixup : Fixup) : Prop :=
  ∃ file_offset,
    fixup_file_offset new_pe_section_headers text_section fixup = Ok file_offset
    ∧ 0 <= file_offset ∧ file_offset + size (desc fixup) <= Z.of_nat n
    ∧ (size (desc fixup) = 4 ∨ size (desc fixup) = 8).

(** The lambda [nullify_pe_directory]. *)
Definition nullify_pe_directory (p : pe.PortableExecutable) (directory_index : nat)
    : Result pe.PortableExecutable :=
  let nt_headers := pe.GetNtHeaders p in
  let rva := pe.dir_VirtualAddress (pe.GetDataDirectory nt_headers directory_index) in
  let size := pe.dir_Size (pe.GetDataDirectory nt_headers directory_index) in
  let directory_offset := pe.RvaToFileOffset (pe.GetSectionHeaders p) rva in
  let pe_data := pe.GetPeImage p in
  if (0 <=? directory_offset)
     && (directory_offset + size <=? Z.of_nat (length pe_data))
  then
    let pe_data :=
      write_bytes (Z.to_nat directory_offset) (replicate (Z.to_nat size) 0) pe_data in
    entry ← deref (write_le pe_data (pe.DataDirectoryOffset arch p directory_index) 8 0);
    Ok (pe.SetNtHeaders (pe.SetPeImage p entry)
          (pe.SetDataDirectory nt_headers directory_index
             {| pe.dir_VirtualAddress := 0; pe.dir_Size := 0 |}))
  else Undefined.

(** [FixFinishedPe]; [ObfuscateRTTI] belongs to another translation unit. *)
Definition FixFinishedPe
    (ObfuscateRTTI : pe.PortableExecutable → pe.PortableExecutable)
    (p : pe.PortableExecutable) (text_section : pe.IMAGE_SECTION_HEADER)
    (fixups : list Fixup) : Result pe.PortableExecutable :=
  image ← apply_fixups (pe.GetSectionHeaders p) text_section fixups (pe.GetPeImage p);
  let p := ObfuscateRTTI (pe.SetPeImage p image) in
  p ← nullify_pe_directory p pe.IMAGE_DIRECTORY_ENTRY_LOAD_CONFIG;
  nullify_pe_directory p pe.IMAGE_DIRECTORY_ENTRY_DEBUG.

Definition AddInterpreterRelocationsToFixup
    (interpreter_pe : pe.PortableExecutable) (context : ProtectorContext)
    : Result ProtectorContext :=
  vm_fun_section_header ←
    deref (pe.FromName (pe.GetSectionHeaders interpreter_pe) VM_FUNCTIONS_SECTION_NAME);
  let vm_fun_section_offsets_that_has_relocations :=
    GetRelocationsWithinSectionAsSectionOffsets interpreter_pe vm_fun_section_header in
  let fixup_desc :=
    {| offset_type := VmLoaderSection; size := 4;
       operation := AddVmLoaderSectionVirtualAddress |} in
  Ok (set_fixup_context context
        (fold_left
           (λ fc relocation_section_offset,
              push_fixup (push_vm_section_offsets fc [relocation_section_offset])
                {| offset := relocation_section_offset; desc := fixup_desc |})
           vm_fun_section_offsets_that_has_relocations
           (fixup_context context))).

(** [AssembleNewPe]; [CopySectionsDeep], [CopyHeaderData] and [pe::Build]
    belong to the absent PE classes. *)
Definition AssembleNewPe
    (CopySectionsDeep : pe.PortableExecutable → list pe.Section)
    (Build : pe.IMAGE_NT_HEADERS → list pe.Section → pe.PortableExecutable)
    (original_pe : pe.PortableExecutable) (context : ProtectorContext)
    : Result (pe.PortableExecutable * ProtectorContext) :=
  let new_sections := CopySectionsDeep original_pe in
  let new_sections :=
    map (λ section,
           if String.eqb (pe.GetName section) ".text"
           then new_text_section context else section)
        new_sections in
  reloc_section ← deref (last new_sections);
  let new_header_nt_header := pe.GetNtHeaders original_pe in
  let '(new_header_nt_header, reloc_section, fc) :=
    AddVmSectionRelocations new_header_nt_header reloc_section (fixup_context context) in
  let '(new_header_nt_header, reloc_section, fc) :=
    if ENABLE_TLS_CALLBACKS
    then AddVirtualizedCodeSectionRelocations new_header_nt_header reloc_section fc
    else (new_header_nt_header, reloc_section, fc) in
  let new_sections :=
    removelast new_sections
      ++ [reloc_section; vm_loader_section context; virtualized_code_section context] in
  Ok (Build new_header_nt_header new_sections, set_fixup_context context fc).

(* --------------------------------------------------------------------- *)
(** *** The callbacks of [Protect] *)

(** The interface of the virtualizer (virtualizer/virtualizer.h and
    utils/shellcode.h are other translation units). *)
Inductive ShellcodeVariable :=
| VmOpcodeEncryptionKeyVariable | VmCodeAddrVariable | VmCoreFunctionVariable
| OrigAddrVariable | ImageBaseVariable.

Record Shellcode :=
  { GetBuffer : list Z; GetNamedValueOffset : ShellcodeVariable → Z }.

(** Modelled from the spec: [Shellcode::ModifyVariable<T>] (utils/shellcode.h,
    absent), the spec's [patch(name, value)], which writes a little-endian
    value of [sizeof(T)] bytes at the offset of the variable. *)
Definition ModifyVariable (n : nat) (sc : Shellcode) (name : ShellcodeVariable)
    (value : Z) : Shellcode :=
  {| GetBuffer :=
       write_bytes (Z.to_nat (GetNamedValueOffset sc name)) (le_bytes n value)
         (GetBuffer sc);
     GetNamedValueOffset := GetNamedValueOffset sc |}.

Record Virtualizer (VmOpcode : Type) :=
  { GetVmOpcode : capstone.cs_insn → VmOpcode;
    IsVirtualizeable : capstone.cs_insn → VmOpcode → bool;
    CreateVirtualizedShellcode :
      capstone.cs_insn → VmOpcode → Z → list Z → list Z;
    GetLoaderShellcodeForVirtualizedCode :
      capstone.cs_insn → VmOpcode → Z → Shellcode }.

#[local] Arguments GetVmOpcode {VmOpcode}.
#[local] Arguments IsVirtualizeable {VmOpcode}.
#[local] Arguments CreateVirtualizedShellcode {VmOpcode}.
#[local] Arguments GetLoaderShellcodeForVirtualizedCode {VmOpcode}.

(** What one call of [EachInstructionCallback] draws from the random
    source: the result of [RandomU32( 1000, 10000000 )] and the results of
    the calls of [RandomU8()], in order. *)
Record Random := { RandomU32 : Z; RandomU8 : nat → Z }.

(** The variables that the two lambdas capture by reference. *)
Record ProtectState :=
  { protector_context : ProtectorContext;
    total_virtualized_instructions : Z;
    total_disassembled_instructions : Z }.

(** A pointer write of [bs] at [buf + off]; outside the vector it is
    undefined. *)
Definition store_bytes (buf : list Z) (off : Z) (bs : list Z) : Result (list Z) :=
  if (0 <=? off) && (off + Z.of_nat (length bs) <=? Z.of_nat (length buf))
  then Ok (write_bytes (Z.to_nat off) bs buf)
  else Undefined.

Fixpoint erase_first (x : Z) (l : list Z) : list Z :=
  match l with
  | [] => []
  | y :: l' => if x =? y then l' else y :: erase_first x l'
  end.

Section Callbacks.

Context {VmOpcode : Type}.
Variable virtualizer : Virtualizer VmOpcode.
Variable original_pe_nt_headers : pe.IMAGE_NT_HEADERS.
Variable interpreter_function_offset : Z.
Variable original_text_section_header : pe.IMAGE_SECTION_HEADER.
Variable original_text_section_copy : pe.Section.
Variable original_pe_relocation_rvas : list Z.

(** The text of the exception of [EachInstructionCallback]. *)
Definition eflags_not_supported : string :=
  "An instruction changing eflags was found, not supported at the moment".

Definition kCallInstructionSize : Z := 5.
Definition kJmpInstructionSize : Z := 5.
Definition kJmpOpcode : Z := 0xE9.

Definition EachInstructionCallback (st : ProtectState)
    (instruction : capstone.cs_insn) (rnd : Random) : Result ProtectState :=
  let ctx := protector_context st in
  let vm_opcode := GetVmOpcode virtualizer instruction in
  st' ←
    (if IsVirtualizeable virtualizer instruction vm_opcode then
       if negb (capstone.eflags (capstone.detail instruction) =? 0) then
         Throw eflags_not_supported
       else
         let relocations_rva_within_instruction :=
           GetRelocationsWithinInstruction (capstone.address instruction)
             (capstone.size instruction) original_pe_relocation_rvas in
         let vm_opcode_encyption_key := RandomU32 rnd in
         let virtualized_shellcode :=
           CreateVirtualizedShellcode virtualizer instruction vm_opcode
             vm_opcode_encyption_key relocations_rva_within_instruction in
         let created_vm_code := (0 <? length virtualized_shellcode)%nat in
         if created_vm_code then
           let '(vcs, virtualized_code_offset) :=
             pe.AppendCode (virtualized_code_section ctx) virtualized_shellcode
               (pe.SectionAlignment original_pe_nt_headers)
               (pe.FileAlignment original_pe_nt_headers) in
           let vm_code_loader_shellcode :=
             GetLoaderShellcodeForVirtualizedCode virtualizer instruction vm_opcode
               (pe.ImageBase original_pe_nt_headers) in
           let vm_code_loader_shellcode :=
             ModifyVariable 4 vm_code_loader_shellcode
               VmOpcodeEncryptionKeyVariable vm_opcode_encyption_key in
           let vm_code_loader_shellcode :=
             ModifyVariable ptr_bytes vm_code_loader_shellcode
               VmCodeAddrVariable virtualized_code_offset in
           let loader_shellcode_offset_before :=
             pe.GetCurrentOffset (vm_loader_section ctx) in
           let vm_core_function_shellcode_offset :=
             GetNamedValueOffset vm_code_loader_shellcode VmCoreFunctionVariable in
           let vm_code_loader_shellcode :=
             ModifyVariable 4 vm_code_loader_shellcode VmCoreFunctionVariable
               (u32 (interpreter_function_offset - loader_shellcode_offset_before
                     - kCallInstructionSize - vm_core_function_shellcode_offset + 1)) in
           let orig_addr_value_offset :=
             GetNamedValueOffset vm_code_loader_shellcode OrigAddrVariable in
           let destination :=
             u32 (capstone.address instruction + capstone.size instruction) in
           let origin := u32 (loader_shellcode_offset_before + orig_addr_value_offset) in
           let vm_code_loader_shellcode :=
             ModifyVariable 4 vm_code_loader_shellcode OrigAddrVariable
               (u32 (destination - origin - kJmpInstructionSize + 1)) in
           let '(vls, loader_shellcode_offset) :=
             pe.AppendCode (vm_loader_section ctx) (GetBuffer vm_code_loader_shellcode)
               (pe.SectionAlignment original_pe_nt_headers)
               (pe.FileAlignment original_pe_nt_headers) in
           let jmp_back_addr_fixup :=
             {| offset := loader_shellcode_offset + orig_addr_value_offset;
                desc := {| offset_type := VmLoaderSection; size := 4;
                           operation := SubtractVmLoaderSectionVirtualAddress |} |} in
           let fc := push_fixup (fixup_context ctx) jmp_back_addr_fixup in
           let vm_code_addr_offset :=
             loader_shellcode_offset
             + GetNamedValueOffset vm_code_loader_shellcode VmCodeAddrVariable in
           let virtualized_code_addr_fixup :=
             {| offset := vm_code_addr_offset;
                desc := {| offset_type := VmLoaderSection; size := 4;
                           operation := AddVirtualizedCodeSectionVirtualAddress |} |} in
           let fc := push_fixup fc virtualized_code_addr_fixup in
           let vm_var_section_shellcode_offset :=
             GetNamedValueOffset vm_code_loader_shellcode ImageBaseVariable in
           let fc :=
             push_vm_section_offsets fc
               [loader_shellcode_offset + vm_var_section_shellcode_offset] in
           let instruction_text_section_offset :=
             pe.RvaToSectionOffset original_text_section_header
               (u32 (capstone.address instruction)) in
           let text_section_data := pe.GetData (new_text_section ctx) in
           (* fill the whole instruction with random bytes *)
           text_section_data ←
             store_bytes text_section_data instruction_text_section_offset
               (map (λ i, u8 (RandomU8 rnd i))
                    (seq 0 (Z.to_nat (capstone.size instruction))));
           (* write the jump *)
           text_section_data ←
             store_bytes text_section_data instruction_text_section_offset [kJmpOpcode];
           let jmp_addr_offset := instruction_text_section_offset + 1 in
           let jmp_destination :=
             u32 (u32 (loader_shellcode_offset - capstone.address instruction)
                  - kJmpInstructionSize) in
           text_section_data ←
             store_bytes text_section_data jmp_addr_offset (le_bytes 4 jmp_destination);
           let jmp_to_vm_loader_fixup :=
             {| offset := jmp_addr_offset;
                desc := {| offset_type := TextSection; size := 4;
                           operation := AddVmLoaderSectionVirtualAddress |} |} in
           let fc := push_fixup fc jmp_to_vm_loader_fixup in
           let fc :=
             set_relocation_rvas_to_remove fc
               (relocation_rvas_to_remove fc ++ relocations_rva_within_instruction) in
           Ok {| protector_context :=
                   {| vm_loader_section := vls;
                      virtualized_code_section := vcs;
                      new_text_section :=
                        pe.SetData (new_text_section ctx) text_section_data;
                      fixup_context := fc |};
                 total_virtualized_instructions :=
                   u32 (total_virtualized_instructions st + 1);
                 total_disassembled_instructions :=
                   total_disassembled_instructions st |}
         else Ok st
     else Ok st);
  Ok {| protector_context := protector_context st';
        total_virtualized_instructions := total_virtualized_instructions st';
        total_disassembled_instructions :=
          u32 (total_disassembled_instructions st' + 1) |}.

Definition InvalidInstructionCallback (st : ProtectState)
    (address instruction_size_ : Z) : Result ProtectState :=
  let ctx := protector_context st in
  let text_section_offset :=
    pe.RvaToSectionOffset original_text_section_header address in
  let text_section_data := pe.GetData (new_text_section ctx) in
  let original_pe_text_section_data := pe.GetData original_text_section_copy in
  (* memcpy of [instruction_size_] bytes from the saved copy *)
  original_bytes ←
    (if (0 <=? text_section_offset)
        && (text_section_offset + instruction_size_
            <=? Z.of_nat (length original_pe_text_section_data))
     then Ok (take (Z.to_nat instruction_size_)
                (drop (Z.to_nat text_section_offset) original_pe_text_section_data))
     else Undefined);
  text_section_data ← store_bytes text_section_data text_section_offset original_bytes;
  let relocations_rva_within_instruction :=
    GetRelocationsWithinInstruction address instruction_size_
      original_pe_relocation_rvas in
  let fc :=
    set_relocation_rvas_to_remove (fixup_context ctx)
      (fold_left (λ to_remove reloc_rva, erase_first reloc_rva to_remove)
         relocations_rva_within_instruction
         (relocation_rvas_to_remove (fixup_context ctx))) in
  Ok {| protector_context :=
          set_fixup_context
            (set_new_text_section ctx
               (pe.SetData (new_text_section ctx) text_section_data)) fc;
        total_virtualized_instructions := total_virtualized_instructions st;
        total_disassembled_instructions := total_disassembled_instructions st |}.

(** Modelled from the spec: [DisassembleFromEntrypoint] is a template of
    pe_disassembly_engine.h, which is absent.  Section 4.3: the engine calls
    the per-instruction callback for each instruction it decodes and the
    rollback callback with the address and size of an instruction that
    turned out invalid; it never looks at the context of the protector, so
    a run is the sequence of these calls, and an exception thrown by a
    callback leaves the loop (section 7). *)
Inductive DisassemblyEvent :=
| EachInstruction (instruction : capstone.cs_insn) (rnd : Random)
| InvalidInstruction (address instruction_size_ : Z).

Definition DisassembleFromEntrypoint (events : list DisassemblyEvent)
    (st : ProtectState) : Result ProtectState :=
  foldM (λ st event,
           match event with
           | EachInstruction instruction rnd =>
               EachInstructionCallback st instruction rnd
           | InvalidInstruction address instruction_size_ =>
               InvalidInstructionCallback st address instruction_size_
           end)
        events st.

(** Whether [EachInstructionCallback] virtualizes the instruction: the
    virtualizer accepts it and hands out code for it. *)
Definition virtualizes (instruction : capstone.cs_insn) (rnd : Random) : bool :=
  let vm_opcode := GetVmOpcode virtualizer instruction in
  IsVirtualizeable virtualizer instruction vm_opcode
  && (0 <? length
             (CreateVirtualizedShellcode virtualizer instruction vm_opcode
                (RandomU32 rnd)
                (GetRelocationsWithinInstruction (capstone.address instruction)
                   (capstone.size instruction) original_pe_relocation_rvas)))%nat.

(** The bytes of the new text section that an event of a run writes, as the
    section offset of the first one and their number: the instruction and
    the five bytes of the jump for an instruction that is virtualized, the
    restored bytes for a rollback. *)
Definition written (event : DisassemblyEvent) : option (Z * Z) :=
  match event with
  | EachInstruction instruction rnd =>
      if virtualizes instruction rnd
      then Some (pe.RvaToSectionOffset original_text_section_header
                   (u32 (capstone.address instruction)),
                 Z.max (capstone.size instruction) kJmpInstructionSize)
      else None
  | InvalidInstruction address instruction_size_ =>
      Some (pe.RvaToSectionOffset original_text_section_header address,
            instruction_size_)
  end.

(** An event that writes none of the [n] bytes at section offset [off]. *)
Definition leaves_alone (off n : Z) (event : DisassemblyEvent) : Prop :=
  match written event with
  | Some (first, count) => first + count <= off ∨ off + n <= first
  | None => True
  end.

End Callbacks.

(** [Protect].  The file with the interpreter, the methods of the absent PE
    classes, the results of the calls of capstone in the constructor of the
    engine and the run of the disassembly engine are arguments. *)
Section Protect.

Context {VmOpcode : Type}.
Variable virtualizer : Virtualizer VmOpcode.
Variable ReadInterpreterPe : Result pe.PortableExecutable.
Variable IsValid : pe.PortableExecutable → bool.
Variable Relocate : pe.PortableExecutable → Z → pe.PortableExecutable.
Variable CopySectionDeep : pe.PortableExecutable → pe.IMAGE_SECTION_HEADER → pe.Section.
Variable CopySectionsDeep : pe.PortableExecutable → list pe.Section.
Variable Build : pe.IMAGE_NT_HEADERS → list pe.Section → pe.PortableExecutable.
Variable ObfuscateRTTI : pe.PortableExecutable → pe.PortableExecutable.
(** What [cs_open] and [cs_option] return to the constructor of the engine,
    and the null pointer. *)
Variable cs_open_status : Z.
Variable cs_option_status : Z.
Variable nullptr : Z.

Definition Protect (fuel : nat) (events : list DisassemblyEvent)
    (original_pe : pe.PortableExecutable) : Result pe.PortableExecutable :=
  let original_pe_nt_headers := pe.GetNtHeaders original_pe in
  let expected_magic :=
    match arch with
    | X86 => pe.IMAGE_NT_OPTIONAL_HDR32_MAGIC
    | X64 => pe.IMAGE_NT_OPTIONAL_HDR64_MAGIC
    end in
  if negb (pe.Magic original_pe_nt_headers =? expected_magic) then
    Throw (match arch with
           | X86 => "Please use the x64 version of GreyM to protect this executable."
           | X64 => "Please use the x86 version of GreyM to protect this executable."
           end)
  else
    pe_disassembler ←
      PeDisassemblyEngine.new_PeDisassemblyEngine cs_open_status cs_option_status
        nullptr;
    interpreter_pe ← ReadInterpreterPe;
    if negb (IsValid interpreter_pe) then
      Throw "Interpreter is not valid portable executable"
    else
      interpreter_function_offset ←
        GetExportedFunctionOffsetRelativeToSection interpreter_pe "VmInterpreter";
      interpreter_pe ←
        RelocateInterpreterPe Relocate interpreter_pe
          (pe.ImageBase original_pe_nt_headers);
      vm_loader ← CreateVmSection CopySectionDeep interpreter_pe;
      let context :=
        {| vm_loader_section := vm_loader;
           virtualized_code_section := pe.CreateEmptySection VM_CODE_SECTION_NAME;
           new_text_section := pe.CreateEmptySection "";
           fixup_context :=
             {| relocation_rvas_to_remove := [];
                vm_section_offsets_to_add_to_relocation_table := [];
                virtualized_code_section_offsets_to_add_to_relocation_table := [];
                fixups := [] |} |} in
      '(original_pe, context) ←
        (if ENABLE_TLS_CALLBACKS
         then AddTlsCallbacks fuel interpreter_pe original_pe context
         else Ok (original_pe, context));
      original_text_section_header ←
        deref (pe.FromName (pe.GetSectionHeaders original_pe) ".text");
      let original_text_section_copy :=
        CopySectionDeep original_pe original_text_section_header in
      let context :=
        set_new_text_section context
          (CopySectionDeep original_pe original_text_section_header) in
      context ← AddInterpreterRelocationsToFixup interpreter_pe context;
      let original_pe_relocation_rvas :=
        merge_sort Z.le (GetRelocationRvas original_pe) in
      st ←
        DisassembleFromEntrypoint virtualizer original_pe_nt_headers
          interpreter_function_offset original_text_section_header
          original_text_section_copy original_pe_relocation_rvas events
          {| protector_context := context;
             total_virtualized_instructions := 0;
             total_disassembled_instructions := 0 |};
      let context := protector_context st in
      let original_pe :=
        RemoveRelocations (relocation_rvas_to_remove (fixup_context context))
          original_pe in
      '(new_pe, context) ←
        AssembleNewPe CopySectionsDeep Build original_pe context;
      FixFinishedPe ObfuscateRTTI new_pe original_text_section_header
        (fixups (fixup_context context)).

End Protect.

End Build.

Arguments GetVmOpcode {VmOpcode}.
Arguments IsVirtualizeable {VmOpcode}.
Arguments CreateVirtualizedShellcode {VmOpcode}.
Arguments GetLoaderShellcodeForVirtualizedCode {VmOpcode}.

End protector.

(* ===================================================================== *)
(** ** Concrete inputs *)
(* ===================================================================== *)

Module scenario.

Definition no_directories : list pe.IMAGE_DATA_DIRECTORY :=
  replicate 16 {| pe.dir_VirtualAddress := 0; pe.dir_Size := 0 |}.

(** Headers of a 32 bit image at 0x400000 without data directories. *)
Definition nt_headers : pe.IMAGE_NT_HEADERS :=
  {| pe.Magic := pe.IMAGE_NT_OPTIONAL_HDR32_MAGIC; pe.ImageBase := 0x400000;
     pe.SectionAlignment := 0x1000; pe.FileAlignment := 0x200;
     pe.DataDirectory := no_directories |}.

(** S4: three offsets that straddle a page boundary. *)
Definition S4_offsets : list Z := [0x100; 0x500; 0x1010].

Definition S4_fixup_desc : protector.FixupDescriptor :=
  {| protector.offset_type := protector.RelocSection;
     protector.size := 4;
     protector.operation := protector.AddVmLoaderSectionVirtualAddress |}.

Definition S4_reloc_section : pe.Section :=
  snd (fst (protector.AddRelocations X86 S4_fixup_desc S4_offsets nt_headers
              (pe.CreateEmptySection ".reloc") [])).

(** An input with a TLS directory.  The image is the one section [.tls] at
    RVA 0x3000: the directory at file offset 0, whose [AddressOfCallBacks]
    points at file offset 0x20, where one callback (0x401000) and the
    terminator are stored. *)
Definition tls_sections : pe.SectionHeaders :=
  [ {| pe.Name := ".tls"; pe.VirtualSize := 0x40; pe.VirtualAddress := 0x3000;
       pe.SizeOfRawData := 0x40; pe.PointerToRawData := 0 |} ].

Definition tls_image : list Z :=
  le_bytes 4 0 ++ le_bytes 4 0 ++ le_bytes 4 0x403030 ++ le_bytes 4 0x403020
  ++ le_bytes 4 0 ++ le_bytes 4 0 ++ replicate 8 0
  ++ le_bytes 4 0x401000 ++ le_bytes 4 0 ++ replicate 24 0.

Definition tls_pe : pe.PortableExecutable :=
  {| pe.GetPeImage := tls_image;
     pe.GetNtHeadersOffset := 0;
     pe.GetNtHeaders :=
       pe.SetDataDirectory nt_headers pe.IMAGE_DIRECTORY_ENTRY_TLS
         {| pe.dir_VirtualAddress := 0x3000; pe.dir_Size := 24 |};
     pe.GetSectionHeaders := tls_sections;
     pe.GetExports := [];
     pe.GetRelocations := [] |}.

(** An interpreter whose VM function section holds [VmInterpreter] at
    offset 0 and [TlsCallback] at offset 0x10. *)
Definition interpreter_pe : pe.PortableExecutable :=
  {| pe.GetPeImage := [];
     pe.GetNtHeadersOffset := 0;
     pe.GetNtHeaders := nt_headers;
     pe.GetSectionHeaders :=
       [ {| pe.Name := ".vmfun"; pe.VirtualSize := 0x1000;
            pe.VirtualAddress := 0x1000; pe.SizeOfRawData := 0x1000;
            pe.PointerToRawData := 0x400 |} ];
     pe.GetExports :=
       [ {| pe.function_name := "VmInterpreter"; pe.function_addr_rva := 0x1000 |};
         {| pe.function_name := "TlsCallback"; pe.function_addr_rva := 0x1010 |} ];
     pe.GetRelocations := [] |}.

Definition empty_context : protector.ProtectorContext :=
  {| protector.vm_loader_section := pe.CreateEmptySection ".vmldr";
     protector.virtualized_code_section := pe.CreateEmptySection ".vmcode";
     protector.new_text_section := pe.CreateEmptySection ".text";
     protector.fixup_context :=
       {| protector.relocation_rvas_to_remove := [];
          protector.vm_section_offsets_to_add_to_relocation_table := [];
          protector.virtualized_code_section_offsets_to_add_to_relocation_table := [];
          protector.fixups := [] |} |}.

(** The sections of an output image with the loader section at 0x5000 and
    the virtualized code section at 0x6000. *)
Definition new_pe_sections : pe.SectionHeaders :=
  [ {| pe.Name := ".text"; pe.VirtualSize := 0x1000; pe.VirtualAddress := 0x1000;
       pe.SizeOfRawData := 0x20; pe.PointerToRawData := 0x20 |};
    {| pe.Name := ".reloc"; pe.VirtualSize := 0x1000; pe.VirtualAddress := 0x4000;
       pe.SizeOfRawData := 0x20; pe.PointerToRawData := 0x40 |};
    {| pe.Name := ".vmldr"; pe.VirtualSize := 0x1000; pe.VirtualAddress := 0x5000;
       pe.SizeOfRawData := 0x60; pe.PointerToRawData := 0x60 |};
    {| pe.Name := ".vmcode"; pe.VirtualSize := 0x1000; pe.VirtualAddress := 0x6000;
       pe.SizeOfRawData := 0x20; pe.PointerToRawData := 0xc0 |} ].

(** A virtualizer that accepts every [MOV] and every [ADD], and the loader
    stub it hands out. *)
Definition loader_template : protector.Shellcode :=
  {| protector.GetBuffer := replicate 32 0x90;
     protector.GetNamedValueOffset := λ name,
       match name with
       | protector.VmOpcodeEncryptionKeyVariable => 1
       | protector.VmCodeAddrVariable => 6
       | protector.VmCoreFunctionVariable => 11
       | protector.OrigAddrVariable => 16
       | protector.ImageBaseVariable => 21
       end |}.

Definition virtualizer : protector.Virtualizer unit :=
  {| protector.GetVmOpcode := λ _, tt;
     protector.IsVirtualizeable := λ instruction _,
       bool_decide (capstone.id instruction = capstone.X86_INS_MOV)
       || bool_decide (capstone.id instruction = capstone.X86_INS_ADD);
     protector.CreateVirtualizedShellcode := λ _ _ key _, le_bytes 4 key;
     protector.GetLoaderShellcodeForVirtualizedCode := λ _ _ _, loader_template |}.

Definition text_header : pe.IMAGE_SECTION_HEADER :=
  {| pe.Name := ".text"; pe.VirtualSize := 0x1000; pe.VirtualAddress := 0x1000;
     pe.SizeOfRawData := 0x1000; pe.PointerToRawData := 0x400 |}.

(** [mov eax, 0x12345678; ret] and padding. *)
Definition text_bytes : list Z :=
  [0xB8; 0x78; 0x56; 0x34; 0x12; 0xC3] ++ replicate 10 0xCC.

Definition text_section : pe.Section :=
  {| pe.GetName := ".text"; pe.GetData := text_bytes; pe.GetCurrentOffset := 16 |}.

Definition reg_operand (r : capstone.x86_reg) : capstone.cs_x86_op :=
  {| capstone.type := capstone.X86_OP_REG; capstone.reg := r;
     capstone.imm := 0; capstone.mem := capstone.no_mem |}.

Definition imm_operand (v : Z) : capstone.cs_x86_op :=
  {| capstone.type := capstone.X86_OP_IMM; capstone.reg := capstone.X86_REG_INVALID;
     capstone.imm := v; capstone.mem := capstone.no_mem |}.

Definition mem_operand (m : capstone.x86_op_mem) : capstone.cs_x86_op :=
  {| capstone.type := capstone.X86_OP_MEM; capstone.reg := capstone.X86_REG_INVALID;
     capstone.imm := 0; capstone.mem := m |}.

Definition eax : capstone.x86_reg := capstone.X86_REG_other 19.

(** [mov eax, 0x12345678] at RVA 0x1000; its immediate has a relocation. *)
Definition mov_insn : capstone.cs_insn :=
  {| capstone.id := capstone.X86_INS_MOV; capstone.address := 0x1000;
     capstone.size := 5;
     capstone.detail :=
       {| capstone.op_count := 2;
          capstone.operands := [reg_operand eax; imm_operand 0x12345678];
          capstone.eflags := 0 |};
     capstone.groups := [] |}.

(** [add eax, 1]: it changes the flags. *)
Definition add_insn : capstone.cs_insn :=
  {| capstone.id := capstone.X86_INS_ADD; capstone.address := 0x1006;
     capstone.size := 3;
     capstone.detail :=
       {| capstone.op_count := 2;
          capstone.operands := [reg_operand eax; imm_operand 1];
          capstone.eflags := 0x3f |};
     capstone.groups := [] |}.

Definition relocation_rvas : list Z := [0x1001].

Definition random : protector.Random :=
  {| protector.RandomU32 := 4242;
     protector.RandomU8 := λ i, 0x11 * (Z.of_nat i + 1) |}.

(** The loader section holds 0x40 bytes of interpreter code. *)
Definition initial_state : protector.ProtectState :=
  {| protector.protector_context :=
       {| protector.vm_loader_section :=
            {| pe.GetName := ".vmldr"; pe.GetData := replicate 0x200 0;
               pe.GetCurrentOffset := 0x40 |};
          protector.virtualized_code_section := pe.CreateEmptySection ".vmcode";
          protector.new_text_section := text_section;
          protector.fixup_context :=
            protector.fixup_context empty_context |};
     protector.total_virtualized_instructions := 0;
     protector.total_disassembled_instructions := 0 |}.

Definition each_instruction :=
  protector.EachInstructionCallback X86 virtualizer nt_headers 0 text_header
    relocation_rvas.

Definition invalid_instruction :=
  protector.InvalidInstructionCallback text_header text_section
    relocation_rvas.

(** The state after the callback has virtualized [mov_insn]. *)
Definition virtualized_state : protector.ProtectState :=
  match each_instruction initial_state mov_insn random with
  | Ok st => st
  | _ => initial_state
  end.

(** An output image laid out as [new_pe_sections] says, carrying the text
    section of a state at file offset 0x20. *)
Definition output_image (st : protector.ProtectState) : list Z :=
  replicate 0x20 0
  ++ pe.GetData (protector.new_text_section (protector.protector_context st))
  ++ replicate 0xb0 0.

(** S1: a 32 bit image at 0x400000 whose only section is [.text], at RVA
    0x1000 and file offset 0x40.  It starts with
    [jmp dword ptr [eax*4 + 0x401020]]; the table at RVA 0x1020 holds
    0x00401030, 0x00401040 and 0. *)
Definition S1_text : list Z :=
  [0xFF; 0x24; 0x85; 0x20; 0x10; 0x40; 0x00] ++ replicate 25 0xCC
  ++ le_bytes 4 0x00401030 ++ le_bytes 4 0x00401040 ++ le_bytes 4 0
  ++ replicate 4 0xCC
  ++ [0x55; 0x8B; 0xEC; 0xC3] ++ replicate 12 0xCC
  ++ [0x55; 0x8B; 0xEC; 0xC3] ++ replicate 12 0xCC.

Definition S1_pe : pe.PortableExecutable :=
  {| pe.GetPeImage := replicate 0x40 0 ++ S1_text;
     pe.GetNtHeadersOffset := 0;
     pe.GetNtHeaders := nt_headers;
     pe.GetSectionHeaders :=
       [ {| pe.Name := ".text"; pe.VirtualSize := 0x50; pe.VirtualAddress := 0x1000;
            pe.SizeOfRawData := 0x50; pe.PointerToRawData := 0x40 |} ];
     pe.GetExports := [];
     pe.GetRelocations := [] |}.

Definition S1_operand : capstone.cs_x86_op :=
  mem_operand {| capstone.base := capstone.X86_REG_INVALID; capstone.index := eax;
                 capstone.scale := 4; capstone.disp := 0x401020 |}.

Definition S1_jmp : capstone.cs_insn :=
  {| capstone.id := capstone.X86_INS_JMP; capstone.address := 0x1000;
     capstone.size := 7;
     capstone.detail :=
       {| capstone.op_count := 1; capstone.operands := [S1_operand];
          capstone.eflags := 0 |};
     capstone.groups := [capstone.CS_GRP_JUMP] |}.

(** The engine right after it has decoded the instruction at RVA 0x1000. *)
Definition S1_engine : PeDisassemblyEngine.Engine :=
  {| PeDisassemblyEngine.code_ := 0x47;
     PeDisassemblyEngine.address_ := 0x1007;
     PeDisassemblyEngine.code_buf_size_ := 0x50;
     PeDisassemblyEngine.current_code_index_ := 0;
     PeDisassemblyEngine.current_instruction_code_ := 0x40;
     PeDisassemblyEngine.disassembly_points_ := [];
     PeDisassemblyEngine.disassembly_points_cache_ := ∅;
     PeDisassemblyEngine.data_ranges_ := [] |}.

(** A decoder that knows the prologue [push ebp; mov ebp, esp; ret] at the
    file offsets 0x70 and 0x80 of [S1_pe] and nothing else. *)
Definition push_ebp (address : Z) : capstone.cs_insn :=
  {| capstone.id := capstone.X86_INS_PUSH; capstone.address := address;
     capstone.size := 1;
     capstone.detail :=
       {| capstone.op_count := 1;
          capstone.operands := [reg_operand capstone.X86_REG_EBP];
          capstone.eflags := 0 |};
     capstone.groups := [] |}.

Definition mov_ebp_esp (address : Z) : capstone.cs_insn :=
  {| capstone.id := capstone.X86_INS_MOV; capstone.address := address;
     capstone.size := 2;
     capstone.detail :=
       {| capstone.op_count := 2;
          capstone.operands :=
            [reg_operand capstone.X86_REG_EBP; reg_operand capstone.X86_REG_ESP];
          capstone.eflags := 0 |};
     capstone.groups := [] |}.

Definition ret (address : Z) : capstone.cs_insn :=
  {| capstone.id := capstone.X86_INS_other 633; capstone.address := address;
     capstone.size := 1;
     capstone.detail :=
       {| capstone.op_count := 0; capstone.operands := []; capstone.eflags := 0 |};
     capstone.groups := [capstone.CS_GRP_RET] |}.

Definition prologue_decoder (code size address : Z) (count : nat) : list capstone.cs_insn :=
  if (code =? 0x70) || (code =? 0x80)
  then take count [push_ebp address; mov_ebp_esp (address + 1); ret (address + 3)]
  else [].

Definition no_iter (code size address : Z) : option capstone.cs_insn := None.

(** [mov dword ptr [esp + 4], 0x401030] and [mov eax, 0x401030]: the
    immediate is the address of the function at RVA 0x1030. *)
Definition mov_to (destination : capstone.cs_x86_op) : capstone.cs_insn :=
  {| capstone.id := capstone.X86_INS_MOV; capstone.address := 0x1000;
     capstone.size := 8;
     capstone.detail :=
       {| capstone.op_count := 2;
          capstone.operands := [destination; imm_operand 0x401030];
          capstone.eflags := 0 |};
     capstone.groups := [] |}.

Definition mov_mem_imm : capstone.cs_insn :=
  mov_to (mem_operand {| capstone.base := capstone.X86_REG_ESP;
                         capstone.index := capstone.X86_REG_INVALID;
                         capstone.scale := 1; capstone.disp := 4 |}).

Definition mov_reg_imm : capstone.cs_insn := mov_to (reg_operand eax).

(** A 64 bit image whose [.text] holds [jmp $] (EB FE) at RVA 0x1000, and
    the decoder that reads it. *)
Definition self_jump_pe : pe.PortableExecutable :=
  {| pe.GetPeImage := replicate 0x40 0 ++ [0xEB; 0xFE] ++ replicate 14 0xCC;
     pe.GetNtHeadersOffset := 0;
     pe.GetNtHeaders :=
       {| pe.Magic := pe.IMAGE_NT_OPTIONAL_HDR64_MAGIC; pe.ImageBase := 0x140000000;
          pe.SectionAlignment := 0x1000; pe.FileAlignment := 0x200;
          pe.DataDirectory := no_directories |};
     pe.GetSectionHeaders :=
       [ {| pe.Name := ".text"; pe.VirtualSize := 0x10; pe.VirtualAddress := 0x1000;
            pe.SizeOfRawData := 0x10; pe.PointerToRawData := 0x40 |} ];
     pe.GetExports := [];
     pe.GetRelocations := [] |}.

Definition jmp_to (address target : Z) : capstone.cs_insn :=
  {| capstone.id := capstone.X86_INS_JMP; capstone.address := address;
     capstone.size := 2;
     capstone.detail :=
       {| capstone.op_count := 1; capstone.operands := [imm_operand target];
          capstone.eflags := 0 |};
     capstone.groups := [capstone.CS_GRP_JUMP] |}.

Definition self_jump_iter (code size address : Z) : option capstone.cs_insn :=
  if code =? 0x40 then Some (jmp_to address address) else None.

Definition self_jump_disasm (code size address : Z) (count : nat) : list capstone.cs_insn :=
  if code =? 0x40 then take count [jmp_to address address] else [].

Definition self_jump_engine : PeDisassemblyEngine.Engine :=
  {| PeDisassemblyEngine.code_ := 0x40;
     PeDisassemblyEngine.address_ := 0x1000;
     PeDisassemblyEngine.code_buf_size_ := 0x10;
     PeDisassemblyEngine.current_code_index_ := 0;
     PeDisassemblyEngine.current_instruction_code_ := 0x40;
     PeDisassemblyEngine.disassembly_points_ := [];
     PeDisassemblyEngine.disassembly_points_cache_ := ∅;
     PeDisassemblyEngine.data_ranges_ := [] |}.

End scenario.

(* ===================================================================== *)
(** ** Relations between states of the engine *)
(* ===================================================================== *)

Module invariants.

(** The relation that the class keeps between [disassembly_points_] and
    [disassembly_points_cache_]: no RVA is queued twice, and the RVA of every
    queued point is in the cache. *)
Definition points_known (e : PeDisassemblyEngine.Engine) : Prop :=
  NoDup (map PeDisassemblyEngine.rva (PeDisassemblyEngine.disassembly_points_ e))
  ∧ ∀ p, p ∈ PeDisassemblyEngine.disassembly_points_ e →
         PeDisassemblyEngine.rva p ∈ PeDisassemblyEngine.disassembly_points_cache_ e.

(** [e'] is [e] with more points, more cached RVAs and more data ranges. *)
Definition extends (e e' : PeDisassemblyEngine.Engine) : Prop :=
  PeDisassemblyEngine.disassembly_points_ e
    `prefix_of` PeDisassemblyEngine.disassembly_points_ e'
  ∧ PeDisassemblyEngine.disassembly_points_cache_ e
      ⊆ PeDisassemblyEngine.disassembly_points_cache_ e'
  ∧ PeDisassemblyEngine.data_ranges_ e `prefix_of` PeDisassemblyEngine.data_ranges_ e'
  ∧ PeDisassemblyEngine.code_ e' = PeDisassemblyEngine.code_ e
  ∧ PeDisassemblyEngine.address_ e' = PeDisassemblyEngine.address_ e
  ∧ PeDisassemblyEngine.code_buf_size_ e' = PeDisassemblyEngine.code_buf_size_ e
  ∧ PeDisassemblyEngine.current_code_index_ e'
    = PeDisassemblyEngine.current_code_index_ e
  ∧ PeDisassemblyEngine.current_instruction_code_ e'
    = PeDisassemblyEngine.current_instruction_code_ e.

(** What every step of the engine keeps. *)
Definition kept (e e' : PeDisassemblyEngine.Engine) : Prop :=
  extends e e' ∧ (points_known e → points_known e').

(** A result that is no exception. *)
Definition quiet {A} (r : Result A) : Prop := ∀ what, r ≠ Throw what.

End invariants.

(* ===================================================================== *)
(** ** More concrete inputs *)
(* ===================================================================== *)

Module examples.

(** An input without a TLS directory: 0x100 bytes of headers, no section. *)
Definition no_tls_pe : pe.PortableExecutable :=
  {| pe.GetPeImage := replicate 0x100 0;
     pe.GetNtHeadersOffset := 0;
     pe.GetNtHeaders := scenario.nt_headers;
     pe.GetSectionHeaders := [];
     pe.GetExports := [];
     pe.GetRelocations := [] |}.

(** An image of 0x100 bytes 0xAA whose debug directory is the four bytes at
    RVA 0x3008, file offset 8. *)
Definition debug_pe : pe.PortableExecutable :=
  {| pe.GetPeImage := replicate 0x100 0xAA;
     pe.GetNtHeadersOffset := 0;
     pe.GetNtHeaders :=
       pe.SetDataDirectory scenario.nt_headers pe.IMAGE_DIRECTORY_ENTRY_DEBUG
         {| pe.dir_VirtualAddress := 0x3008; pe.dir_Size := 4 |};
     pe.GetSectionHeaders := scenario.tls_sections;
     pe.GetExports := [];
     pe.GetRelocations := [] |}.

(** [S1_pe] with a second section, [.rdata] at RVA 0x2000 and file offset
    0x90: the address of the function at RVA 0x1030, a null pointer and a
    value that is no address of the image. *)
Definition rdata_pe : pe.PortableExecutable :=
  {| pe.GetPeImage :=
       replicate 0x40 0 ++ scenario.S1_text
       ++ le_bytes 4 0x00401030 ++ le_bytes 4 0 ++ le_bytes 4 0x12345678;
     pe.GetNtHeadersOffset := 0;
     pe.GetNtHeaders := scenario.nt_headers;
     pe.GetSectionHeaders :=
       [ {| pe.Name := ".text"; pe.VirtualSize := 0x50; pe.VirtualAddress := 0x1000;
            pe.SizeOfRawData := 0x50; pe.PointerToRawData := 0x40 |};
         {| pe.Name := ".rdata"; pe.VirtualSize := 12; pe.VirtualAddress := 0x2000;
            pe.SizeOfRawData := 12; pe.PointerToRawData := 0x90 |} ];
     pe.GetExports := [];
     pe.GetRelocations := [] |}.

(** [push 0x401030] at RVA 0x1000: the address of the function at RVA
    0x1030 of [S1_pe]. *)
Definition push_imm : capstone.cs_insn :=
  {| capstone.id := capstone.X86_INS_PUSH; capstone.address := 0x1000;
     capstone.size := 5;
     capstone.detail :=
       {| capstone.op_count := 1;
          capstone.operands := [scenario.imm_operand 0x401030];
          capstone.eflags := 0 |};
     capstone.groups := [] |}.

(** [mov ecx, 0x12345678] at RVA 0x1006, after [mov_insn] and the [ret]. *)
Definition second_mov : capstone.cs_insn :=
  {| capstone.id := capstone.X86_INS_MOV; capstone.address := 0x1006;
     capstone.size := 5;
     capstone.detail :=
       {| capstone.op_count := 2;
          capstone.operands :=
            [scenario.reg_operand (capstone.X86_REG_other 22);
             scenario.imm_operand 0x12345678];
          capstone.eflags := 0 |};
     capstone.groups := [] |}.

Definition run_of (events : list protector.DisassemblyEvent) : protector.ProtectState :=
  match protector.DisassembleFromEntrypoint X86 scenario.virtualizer
          scenario.nt_headers 0 scenario.text_header scenario.text_section
          scenario.relocation_rvas events scenario.initial_state with
  | Ok st => st
  | _ => scenario.initial_state
  end.

(** The run that virtualizes [mov_insn] and then [second_mov], and the run
    in which the engine reports [mov_insn] twice. *)
Definition two_instructions : list protector.DisassemblyEvent :=
  [ protector.EachInstruction scenario.mov_insn scenario.random;
    protector.EachInstruction second_mov scenario.random ].

Definition same_instruction_twice : list protector.DisassemblyEvent :=
  [ protector.EachInstruction scenario.mov_insn scenario.random;
    protector.EachInstruction scenario.mov_insn scenario.random ].

(** An output image with room for two loader stubs: [.text] at file offset
    0x20, the loader section at 0x60, the virtualized code at 0xe0. *)
Definition two_stub_sections : pe.SectionHeaders :=
  [ {| pe.Name := ".text"; pe.VirtualSize := 0x1000; pe.VirtualAddress := 0x1000;
       pe.SizeOfRawData := 0x20; pe.PointerToRawData := 0x20 |};
    {| pe.Name := ".reloc"; pe.VirtualSize := 0x1000; pe.VirtualAddress := 0x4000;
       pe.SizeOfRawData := 0x20; pe.PointerToRawData := 0x40 |};
    {| pe.Name := ".vmldr"; pe.VirtualSize := 0x1000; pe.VirtualAddress := 0x5000;
       pe.SizeOfRawData := 0x80; pe.PointerToRawData := 0x60 |};
    {| pe.Name := ".vmcode"; pe.VirtualSize := 0x1000; pe.VirtualAddress := 0x6000;
       pe.SizeOfRawData := 0x20; pe.PointerToRawData := 0xe0 |} ].

Definition two_stub_image (st : protector.ProtectState) : list Z :=
  replicate 0x20 0
  ++ pe.GetData (protector.new_text_section (protector.protector_context st))
  ++ replicate 0xd0 0.

End examples.

(* ===================================================================== *)
(** * Theorems *)
(* ===================================================================== *)

(* --------------------------------------------------------------------- *)
(** ** Byte buffers *)

Section Bytes.

Lemma length_le_bytes n v : length (le_bytes n v) = n.
Proof. revert v. induction n as [|n IH]; intros v; simpl; [done|]. by rewrite IH. Qed.

Lemma le_value_le_bytes n v : le_value (le_bytes n v) = v mod 2 ^ (8 * Z.of_nat n).
Proof.
  revert v. induction n as [|n IH]; intros v; simpl le_bytes; simpl le_value.
  - by rewrite Z.mod_1_r.
  - rewrite IH.
    replace (8 * Z.of_nat (S n)) with (8 + 8 * Z.of_nat n) by lia.
    rewrite Z.pow_add_r by lia. change (2 ^ 8) with 256.
    rewrite Z.rem_mul_r by lia. lia.
Qed.

Lemma length_write_bytes bs : ∀ off (buf : list Z),
  length (write_bytes off bs buf) = length buf.
Proof.
  induction bs as [|b bs IH]; intros off buf; simpl; [done|].
  by rewrite IH, length_insert.
Qed.

Lemma write_bytes_eq bs : ∀ off (buf : list Z),
  (off + length bs <= length buf)%nat →
  write_bytes off bs buf = take off buf ++ bs ++ drop (off + length bs) buf.
Proof.
  induction bs as [|b bs IH]; intros off buf Hlen; simpl in *.
  - by rewrite Nat.add_0_r, take_drop.
  - rewrite IH by (rewrite length_insert; lia).
    rewrite take_insert_lt by lia.
    rewrite drop_insert_lt by lia.
    replace (S off + length bs)%nat with (off + S (length bs))%nat by lia.
    destruct (lookup_lt_is_Some_2 buf off ltac:(lia)) as [x Hx].
    rewrite (take_S_r _ _ x) by done.
    replace off with (length (take off buf) + 0)%nat at 1
      by (rewrite length_take; lia).
    rewrite insert_app_r. simpl.
    by rewrite <- app_assoc.
Qed.

(** Reading back what was written. *)
Lemma write_bytes_same bs off (buf : list Z) :
  (off + length bs <= length buf)%nat →
  take (length bs) (drop off (write_bytes off bs buf)) = bs.
Proof.
  intros Hlen. rewrite write_bytes_eq by done.
  rewrite drop_app_length' by (rewrite length_take; lia).
  by rewrite take_app_length.
Qed.

(** A write leaves the bytes before it alone ... *)
Lemma write_bytes_before bs off (buf : list Z) :
  (off + length bs <= length buf)%nat →
  take off (write_bytes off bs buf) = take off buf.
Proof.
  intros Hlen. rewrite write_bytes_eq by done.
  rewrite take_app_length' by (rewrite length_take; lia). done.
Qed.

(** ... and the bytes after it. *)
Lemma write_bytes_after bs off (buf : list Z) :
  (off + length bs <= length buf)%nat →
  drop (off + length bs) (write_bytes off bs buf) = drop (off + length bs) buf.
Proof.
  intros Hlen. rewrite write_bytes_eq by done.
  rewrite app_assoc.
  rewrite drop_app_length' by (rewrite length_app, length_take; lia). done.
Qed.

(** A window that does not meet the written bytes keeps its content. *)
Lemma write_bytes_frame bs off (buf : list Z) a n :
  (off + length bs <= length buf)%nat →
  (a + n <= off ∨ off + length bs <= a)%nat →
  take n (drop a (write_bytes off bs buf)) = take n (drop a buf).
Proof.
  intros Hlen [Hb|Ha].
  - rewrite !take_drop_commute. f_equal.
    replace (a + n)%nat with (Nat.min (a + n) off) by lia.
    rewrite <- !take_take. by rewrite write_bytes_before.
  - set (k := (a - (off + length bs))%nat).
    replace a with ((off + length bs) + k)%nat by lia.
    rewrite <- (drop_drop (write_bytes off bs buf) k (off + length bs)).
    rewrite <- (drop_drop buf k (off + length bs)).
    by rewrite write_bytes_after.
Qed.

End Bytes.

Section RelocationsWithinInstruction.

Lemma StronglySorted_lookup_lt (l : list Z) : StronglySorted Z.lt l →
  ∀ i j x y, (i < j)%nat → l !! i = Some x → l !! j = Some y → x < y.
Proof.
  induction 1 as [|z t Hs IH Hall]; intros i j x y Hij Hx Hy; [done|].
  destruct j as [|j]; [lia|]. simpl in Hy.
  destruct i as [|i]; simpl in Hx.
  - injection Hx as ->. rewrite Forall_forall in Hall.
    apply Hall. by eapply list_elem_of_lookup_2.
  - apply (IH i j); [lia|done..].
Qed.

Lemma lower_bound_loop_le (l : list Z) v : ∀ fuel first len,
  (first + len <= length l)%nat →
  (protector.lower_bound_loop fuel l v first len <= length l)%nat.
Proof.
  induction fuel as [|fuel IH]; intros first len Hrange;
    cbn [protector.lower_bound_loop]; [lia|].
  destruct (Nat.ltb_spec 0 len) as [Hlen|Hlen]; [|lia].
  pose proof (Nat.div_lt len 2 Hlen ltac:(lia)) as Hlt.
  destruct (l !! (first + len / 2)%nat) as [x|]; [|lia].
  destruct (x <? v); apply IH; lia.
Qed.

Lemma lower_bound_le (l : list Z) v : (protector.lower_bound l v <= length l)%nat.
Proof. apply lower_bound_loop_le. lia. Qed.

(** The invariant of the binary search on a sorted vector: everything
    before the range is below [v], nothing after it is. *)
Lemma lower_bound_loop_sorted (l : list Z) v : StronglySorted Z.lt l →
  ∀ fuel first len,
  (len <= fuel)%nat → (first + len <= length l)%nat →
  (∀ i x, (i < first)%nat → l !! i = Some x → x < v) →
  (∀ i x, (first + len <= i)%nat → l !! i = Some x → v <= x) →
  let r := protector.lower_bound_loop fuel l v first len in
  (∀ i x, (i < r)%nat → l !! i = Some x → x < v)
  ∧ (∀ i x, (r <= i)%nat → l !! i = Some x → v <= x).
Proof.
  intros Hs. induction fuel as [|fuel IH]; intros first len Hfuel Hrange Hlow Hhigh.
  { simpl. split; [done|]. intros i x Hi. apply Hhigh. lia. }
  cbn [protector.lower_bound_loop].
  destruct (Nat.ltb_spec 0 len) as [Hlen|Hlen].
  2: { split; [done|]. intros i x Hi. apply Hhigh. lia. }
  pose proof (Nat.div_lt len 2 Hlen ltac:(lia)) as Hlt.
  destruct (l !! (first + len / 2)%nat) as [m|] eqn:Hm.
  2: { apply lookup_ge_None in Hm. lia. }
  destruct (Z.ltb_spec m v) as [Hmv|Hmv]; apply IH; try lia; try done.
  - intros i x Hi Hx.
    destruct (decide (i = first + len / 2)%nat) as [->|Hne]; [congruence|].
    assert (x < m); [|lia].
    apply (StronglySorted_lookup_lt l Hs i (first + len / 2)%nat); [lia|done..].
  - intros i x Hi. apply Hhigh. lia.
  - intros i x Hi Hx.
    destruct (decide (i = first + len / 2)%nat) as [->|Hne]; [congruence|].
    assert (m < x); [|lia].
    apply (StronglySorted_lookup_lt l Hs (first + len / 2)%nat i); [lia|done..].
Qed.

Lemma lower_bound_prefix (l : list Z) v x :
  StronglySorted Z.lt l → x ∈ take (protector.lower_bound l v) l → x < v.
Proof.
  intros Hs Hin. apply list_elem_of_lookup_1 in Hin as [i Hi].
  apply lookup_take_Some in Hi as [Hi Hlt].
  destruct (lower_bound_loop_sorted l v Hs (length l) 0 (length l))
    as [Hlow _]; try done; try lia.
  - intros ? ? Hge Hlook. apply lookup_lt_Some in Hlook. simpl in Hge. lia.
  - by apply (Hlow i).
Qed.

Lemma lower_bound_suffix (l : list Z) v x :
  StronglySorted Z.lt l → x ∈ drop (protector.lower_bound l v) l → v <= x.
Proof.
  intros Hs Hin. apply list_elem_of_lookup_1 in Hin as [i Hi].
  rewrite lookup_drop in Hi. unfold protector.lower_bound in Hi.
  destruct (lower_bound_loop_sorted l v Hs (length l) 0 (length l))
    as [_ Hhigh]; try done; try lia.
  - intros ? ? Hge Hlook. apply lookup_lt_Some in Hlook. simpl in Hge. lia.
  - eapply Hhigh; [|exact Hi]. lia.
Qed.

(** For a sorted vector, [lower_bound] followed by the equality test is a
    membership test. *)
Lemma lower_bound_miss (l : list Z) v :
  StronglySorted Z.lt l →
  (∀ x, l !! protector.lower_bound l v = Some x → x ≠ v) → v ∉ l.
Proof.
  intros Hs Hmiss Hin.
  rewrite <- (take_drop (protector.lower_bound l v) l) in Hin.
  apply elem_of_app in Hin as [Hin|Hin].
  - apply lower_bound_prefix in Hin; [lia|done].
  - destruct (l !! protector.lower_bound l v) as [y|] eqn:Hy.
    + pose proof (take_drop_middle _ _ _ Hy) as Hsplit.
      assert (Hle : v <= y).
      { apply (lower_bound_suffix l v); [done|].
        rewrite (drop_S _ _ _ Hy). left. }
      rewrite (drop_S _ _ _ Hy) in Hin.
      apply elem_of_cons in Hin as [->|Hin]; [by eapply Hmiss|].
      rewrite <- Hsplit in Hs.
      apply StronglySorted_app_1_r, StronglySorted_cons in Hs as [Hall _].
      rewrite Forall_forall in Hall. specialize (Hall _ Hin). lia.
    + apply lookup_ge_None in Hy. rewrite drop_ge in Hin by done.
      inversion Hin.
Qed.

Lemma u64_small x : 0 <= x < 2 ^ 64 → u64 x = x.
Proof. intros H. unfold u64, wrap. by apply Z.mod_small. Qed.

Lemma find_first_relocation_spec (l : list Z) a n : ∀ i,
  StronglySorted Z.lt l → 0 <= a → 0 <= i → a + i + Z.of_nat n <= 2 ^ 64 →
  match protector.find_first_relocation l a i n with
  | Some it =>
      ∃ x, l !! it = Some x ∧ a + i <= x < a + i + Z.of_nat n ∧
           ∀ y, y ∈ l → a + i <= y → x <= y
  | None => ∀ y, y ∈ l → ¬ (a + i <= y < a + i + Z.of_nat n)
  end.
Proof.
  induction n as [|n IH]; intros i Hs Ha Hi Hb; simpl.
  - intros y _. lia.
  - rewrite u64_small by lia.
    assert (Hstep :
      (∀ x, l !! protector.lower_bound l (a + i) = Some x → x ≠ a + i) →
      match protector.find_first_relocation l a (i + 1) n with
      | Some it =>
          ∃ x, l !! it = Some x ∧ a + i <= x < a + i + Z.of_nat (S n) ∧
               ∀ y, y ∈ l → a + i <= y → x <= y
      | None => ∀ y, y ∈ l → ¬ (a + i <= y < a + i + Z.of_nat (S n))
      end).
    { intros Hmiss. apply lower_bound_miss in Hmiss; [|done].
      specialize (IH (i + 1) Hs Ha ltac:(lia) ltac:(lia)).
      destruct (protector.find_first_relocation l a (i + 1) n) as [it|].
      - destruct IH as (x & Hx & Hr & Hmin). exists x.
        split; [done|]. split; [lia|].
        intros y Hy Hle. apply Hmin; [done|].
        assert (y ≠ a + i) by (intros ->; done). lia.
      - intros y Hy Hr. assert (y ≠ a + i) by (intros ->; done).
        apply (IH y Hy). lia. }
    destruct (l !! protector.lower_bound l (a + i)) as [x|] eqn:Hx.
    + destruct (Z.eqb_spec x (a + i)) as [->|Hne].
      * exists (a + i). split; [done|]. split; [lia|]. intros; lia.
      * apply Hstep. intros x' [= <-]. done.
    + apply Hstep. intros x' [=].
Qed.

Lemma filter_none (P : Z → Prop) `{∀ x, Decision (P x)} (l : list Z) :
  (∀ y, y ∈ l → ¬ P y) → filter P l = [].
Proof.
  induction l as [|y t IH]; intros Hn; [done|].
  rewrite filter_cons_False; [|apply Hn; left].
  apply IH. intros z Hz. apply Hn. by right.
Qed.

Lemma collect_following_filter a s (rest : list Z) :
  0 <= a + s < 2 ^ 64 →
  StronglySorted Z.lt rest → (∀ y, y ∈ rest → a <= y) →
  protector.collect_following a s rest = filter (λ r, a <= r < a + s) rest.
Proof.
  intros Hb Hs. induction Hs as [|y t Hs IH Hall]; intros Hge; [done|].
  simpl. rewrite u64_small by done.
  assert (a <= y) by (apply Hge; left).
  destruct (Z.ltb_spec y (a + s)) as [Hlt|Hnlt].
  - replace (a <=? y) with true by (symmetry; by apply Z.leb_le). simpl.
    rewrite filter_cons_True by lia. f_equal.
    apply IH. intros z Hz. apply Hge. by right.
  - rewrite andb_false_r. rewrite filter_cons_False by lia.
    symmetry. apply filter_none. intros z Hz.
    rewrite Forall_forall in Hall. specialize (Hall _ Hz). lia.
Qed.

(** C9. For an instruction at [a] of [s] bytes and an ascending,
    duplicate-free vector of relocation RVAs, the function returns exactly
    the elements [r] of the vector with [a <= r < a + s], in the order of
    the vector, hence ascending. *)
Theorem GetRelocationsWithinInstruction_exact (a s : Z) (relocs : list Z) :
  0 <= a → 0 <= s → a + s < 2 ^ 64 →
  StronglySorted Z.lt relocs →
  protector.GetRelocationsWithinInstruction a s relocs
    = filter (λ r, a <= r < a + s) relocs
  ∧ StronglySorted Z.lt (protector.GetRelocationsWithinInstruction a s relocs)
  ∧ ∀ r, r ∈ protector.GetRelocationsWithinInstruction a s relocs
         ↔ r ∈ relocs ∧ a <= r < a + s.
Proof.
  intros Ha Hs0 Hb Hs.
  assert (Heq : protector.GetRelocationsWithinInstruction a s relocs
                = filter (λ r, a <= r < a + s) relocs).
  { unfold protector.GetRelocationsWithinInstruction.
    pose proof (find_first_relocation_spec relocs a (Z.to_nat s) 0 Hs Ha
                  ltac:(lia) ltac:(lia)) as Hf.
    rewrite Z2Nat.id in Hf by done. rewrite Z.add_0_r in Hf.
    destruct (protector.find_first_relocation relocs a 0 (Z.to_nat s)) as [it|].
    - destruct Hf as (x & Hx & Hr & Hmin). rewrite Hx.
      pose proof (take_drop_middle _ _ _ Hx) as Hsplit.
      rewrite <- Hsplit at 2. rewrite <- Hsplit in Hs.
      apply StronglySorted_app in Hs as (Hcross & _ & Hs).
      apply StronglySorted_cons in Hs as [Hall Hs].
      rewrite filter_app, filter_cons_True by lia.
      rewrite filter_none; simpl.
      + f_equal. apply collect_following_filter; [lia|done|].
        intros y Hy. rewrite Forall_forall in Hall.
        specialize (Hall _ Hy). lia.
      + intros y Hy Hin.
        assert (y < x) by (apply Hcross; [done|left]).
        assert (x <= y); [|lia].
        apply Hmin; [|lia]. rewrite <- Hsplit. apply elem_of_app. by left.
    - symmetry. apply filter_none. intros y Hy Hin. by apply (Hf y). }
  split; [done|]. rewrite Heq. split.
  - clear Heq. induction Hs as [|y t Hs IH Hall]; [constructor|].
    destruct (decide (a <= y < a + s)).
    + rewrite filter_cons_True by done. constructor; [done|].
      rewrite Forall_forall in Hall |- *.
      intros z Hz. apply list_elem_of_filter in Hz as [_ Hz]. auto.
    + by rewrite filter_cons_False.
  - intros r. rewrite list_elem_of_filter. tauto.
Qed.

Lemma GetRelocationsWithinInstruction_exact_witness :
  protector.GetRelocationsWithinInstruction 0x1000 5 [0xFFE; 0x1001; 0x1004; 0x1005]
    = [0x1001; 0x1004].
Proof.
  destruct (GetRelocationsWithinInstruction_exact 0x1000 5
              [0xFFE; 0x1001; 0x1004; 0x1005]) as [H _];
    [lia | lia | lia | repeat (constructor; try lia) | ].
  rewrite H. reflexivity.
Defined.

End RelocationsWithinInstruction.

(* --------------------------------------------------------------------- *)
(** ** The relocation rebuilder *)

Section RelocationRebuilder.

Variable arch : Arch.

(** On flush the padding entry is appended exactly when the number of
    entries is odd, and the block that is written is the block of the
    padded list. *)
Lemma AppendRelocationBlock_padding va (relocations : list pe.Relocation) nt rs :
  let padded :=
    if Nat.odd (length relocations)
    then relocations ++ [pe.mkRelocation pe.IMAGE_REL_BASED_ABSOLUTE 0]
    else relocations in
  let appended :=
    pe.AppendCode rs (protector.CreateRelocationBlockBuffer va padded)
      (pe.SectionAlignment nt) (pe.FileAlignment nt) in
  Nat.even (length padded) = true
  ∧ ∃ nt', protector.AppendRelocationBlock va relocations nt rs
           = (snd appended, padded, nt', fst appended).
Proof.
  intros padded appended. unfold protector.AppendRelocationBlock.
  assert (Hodd : negb (Z.of_nat (length relocations) mod 2 =? 0)
                 = Nat.odd (length relocations)).
  { destruct (Nat.odd (length relocations)) eqn:E.
    - apply Nat.odd_spec in E as [k Hk]. rewrite Hk.
      replace (Z.of_nat (2 * k + 1)) with (1 + Z.of_nat k * 2) by lia.
      by rewrite Z.mod_add.
    - rewrite <- Nat.negb_even in E. apply negb_false_iff in E.
      apply Nat.even_spec in E as [k Hk]. rewrite Hk.
      replace (Z.of_nat (2 * k)) with (0 + Z.of_nat k * 2) by lia.
      by rewrite Z.mod_add. }
  rewrite Hodd. fold padded. fold appended. split.
  - subst padded. destruct (Nat.odd (length relocations)) eqn:E.
    + rewrite length_app, Nat.add_1_r, Nat.even_succ. done.
    + by rewrite <- Nat.negb_odd, E.
  - subst appended padded. change pe.IMAGE_REL_BASED_ABSOLUTE with 0.
    destruct (pe.AppendCode _ _ _ _) as [rs' off]. simpl. eauto.
Qed.

End RelocationRebuilder.

(** C4, as the code has it.  The offsets [0x100; 0x500; 0x1010] give two
    blocks: one at virtual address 0 with the two entries 0x100 and 0x500
    and no padding entry, and one at 0x1000 with the entry 0x10 and one
    padding entry of type 0.  A flush appends the padding entry exactly
    when the number of entries of the block is odd. *)
Theorem AddRelocations_block_boundary (arch : Arch) :
  let ty := protector.relocation_type arch in
  let pad := pe.mkRelocation pe.IMAGE_REL_BASED_ABSOLUTE 0 in
  (* the two flushes *)
  (∀ desc nt rs fixups,
     protector.AddRelocations arch desc scenario.S4_offsets nt rs fixups
     = let '(off1, block1, nt1, rs1) :=
         protector.AppendRelocationBlock 0
           [pe.mkRelocation ty 0x100; pe.mkRelocation ty 0x500] nt
           (protector.TrimRelocSectionPadding nt rs) in
       let '(off2, block2, nt2, rs2) :=
         protector.AppendRelocationBlock 0x1000 [pe.mkRelocation ty 0x10] nt1 rs1 in
       (nt2, rs2,
        fixups ++ [ {| protector.offset := off1; protector.desc := desc |};
                    {| protector.offset := off2; protector.desc := desc |} ]))
  (* the entries of the two blocks after the flush *)
  ∧ (∀ nt rs,
       snd (fst (fst (protector.AppendRelocationBlock 0
                        [pe.mkRelocation ty 0x100; pe.mkRelocation ty 0x500] nt rs)))
       = [pe.mkRelocation ty 0x100; pe.mkRelocation ty 0x500])
  ∧ (∀ nt rs,
       snd (fst (fst (protector.AppendRelocationBlock 0x1000
                        [pe.mkRelocation ty 0x10] nt rs)))
       = [pe.mkRelocation ty 0x10; pad])
  (* the bytes in an empty .reloc section *)
  ∧ (let '(nt, rs, fixups) :=
       protector.AddRelocations arch scenario.S4_fixup_desc scenario.S4_offsets
         scenario.nt_headers (pe.CreateEmptySection ".reloc") [] in
     take 24 (pe.GetData rs)
     = protector.CreateRelocationBlockBuffer 0
         [pe.mkRelocation ty 0x100; pe.mkRelocation ty 0x500]
       ++ protector.CreateRelocationBlockBuffer 0x1000 [pe.mkRelocation ty 0x10; pad]
     ∧ pe.dir_Size (pe.GetDataDirectory nt pe.IMAGE_DIRECTORY_ENTRY_BASERELOC) = 24
     ∧ map protector.offset fixups = [0; 12])
  (* the rule *)
  ∧ (∀ va (relocations : list pe.Relocation) nt rs,
       snd (fst (fst (protector.AppendRelocationBlock va relocations nt rs)))
       = if Nat.odd (length relocations) then relocations ++ [pad] else relocations).
Proof.
  intros ty pad. subst ty pad.
  split; [|split; [|split; [|split]]].
  - intros desc nt rs fixups.
    transitivity
      (let '(off1, block1, nt1, rs1) :=
         protector.AppendRelocationBlock 0
           [pe.mkRelocation (protector.relocation_type arch) 0x100;
            pe.mkRelocation (protector.relocation_type arch) 0x500] nt
           (protector.TrimRelocSectionPadding nt rs) in
       let '(off2, block2, nt2, rs2) :=
         protector.AppendRelocationBlock 0x1000
           [pe.mkRelocation (protector.relocation_type arch) 0x10] nt1 rs1 in
       (nt2, rs2,
        (fixups ++ [ {| protector.offset := off1; protector.desc := desc |} ])
        ++ [ {| protector.offset := off2; protector.desc := desc |} ])).
    + destruct arch; reflexivity.
    + destruct (protector.AppendRelocationBlock 0 _ _ _) as [[[off1 b1] nt1] rs1].
      destruct (protector.AppendRelocationBlock 0x1000 _ _ _) as [[[off2 b2] nt2] rs2].
      by rewrite <- app_assoc.
  - intros nt rs. reflexivity.
  - intros nt rs. reflexivity.
  - destruct arch; vm_compute; done.
  - intros va relocations nt rs.
    destruct (AppendRelocationBlock_padding va relocations nt rs) as [_ [nt' ->]].
    reflexivity.
Qed.

(** The reading of C4 with a padding entry in the first block does not
    hold: the section does not start with a block of three entries. *)
Lemma AddRelocations_first_block_not_padded :
  ¬ ∃ tail,
      pe.GetData scenario.S4_reloc_section
      = protector.CreateRelocationBlockBuffer 0
          [pe.mkRelocation pe.IMAGE_REL_BASED_HIGHLOW 0x100;
           pe.mkRelocation pe.IMAGE_REL_BASED_HIGHLOW 0x500;
           pe.mkRelocation pe.IMAGE_REL_BASED_ABSOLUTE 0]
        ++ protector.CreateRelocationBlockBuffer 0x1000
             [pe.mkRelocation pe.IMAGE_REL_BASED_HIGHLOW 0x10;
              pe.mkRelocation pe.IMAGE_REL_BASED_ABSOLUTE 0]
        ++ tail.
Proof.
  intros [tail H]. vm_compute in H. discriminate H.
Qed.

(* --------------------------------------------------------------------- *)
(** ** Reading and writing integers *)

Section Integers.

Lemma wrap_idem bits x : 0 <= bits → wrap bits (wrap bits x) = wrap bits x.
Proof. intros. unfold wrap. apply Z.mod_mod. apply Z.pow_nonzero; lia. Qed.

Lemma wrap_add_l bits x y : wrap bits (wrap bits x + y) = wrap bits (x + y).
Proof. unfold wrap. apply Zplus_mod_idemp_l. Qed.

Lemma wrap_sub_l bits x y : wrap bits (wrap bits x - y) = wrap bits (x - y).
Proof. unfold wrap. apply Zminus_mod_idemp_l. Qed.

Lemma ptr_bits arch :
  8 * Z.of_nat (protector.ptr_bytes arch) = 8 * sizeof_uintptr arch.
Proof. by destruct arch. Qed.

Lemma read_le_range buf off n v :
  read_le buf off n = Some v →
  0 <= off ∧ off + Z.of_nat n <= Z.of_nat (length buf).
Proof.
  unfold read_le.
  destruct (Z.leb_spec 0 off), (Z.leb_spec (off + Z.of_nat n) (Z.of_nat (length buf)));
    simpl; intros [=]; lia.
Qed.

Lemma write_le_in_range buf off n v :
  0 <= off → off + Z.of_nat n <= Z.of_nat (length buf) →
  write_le buf off n v = Some (write_bytes (Z.to_nat off) (le_bytes n v) buf).
Proof.
  intros H0 H1. unfold write_le.
  destruct (Z.leb_spec 0 off), (Z.leb_spec (off + Z.of_nat n) (Z.of_nat (length buf)));
    simpl; (done || lia).
Qed.

Lemma read_le_in_range buf off n :
  0 <= off → off + Z.of_nat n <= Z.of_nat (length buf) →
  read_le buf off n = Some (le_value (take n (drop (Z.to_nat off) buf))).
Proof.
  intros H0 H1. unfold read_le.
  destruct (Z.leb_spec 0 off), (Z.leb_spec (off + Z.of_nat n) (Z.of_nat (length buf)));
    simpl; (done || lia).
Qed.

(** An integer that was written reads back, truncated to its width. *)
Lemma read_le_write_bytes buf off n v :
  0 <= off → off + Z.of_nat n <= Z.of_nat (length buf) →
  read_le (write_bytes (Z.to_nat off) (le_bytes n v) buf) off n
  = Some (wrap (8 * Z.of_nat n) v).
Proof.
  intros H0 H1.
  rewrite read_le_in_range by (rewrite ?length_write_bytes; lia).
  pose proof (write_bytes_same (le_bytes n v) (Z.to_nat off) buf) as Hs.
  rewrite length_le_bytes in Hs. rewrite Hs by lia.
  by rewrite le_value_le_bytes.
Qed.

End Integers.

(* --------------------------------------------------------------------- *)
(** ** The TLS injector *)

Section TlsInjector.

Variable arch : Arch.
Variable DEFAULT_PE_BASE_ADDRESS : Z.

(** The offsets that are recorded for relocation are those of the slots
    that are not zero. *)
Lemma callback_relocation_offsets_spec off (table : list Z) x :
  x ∈ protector.callback_relocation_offsets arch off table
  ↔ ∃ (i : nat) v, table !! i = Some v ∧ v ≠ 0
                   ∧ x = off + Z.of_nat i * sizeof_uintptr arch.
Proof.
  unfold protector.callback_relocation_offsets.
  rewrite list_elem_of_In, in_concat. split.
  - intros (ys & Hys & Hx). apply list_elem_of_In in Hys, Hx.
    apply list_elem_of_lookup in Hys as [i Hi].
    rewrite list_lookup_imap in Hi.
    destruct (table !! i) as [v|] eqn:Hv; simpl in Hi; [|done].
    injection Hi as <-. exists i, v.
    destruct (Z.eqb_spec v 0); [inversion Hx|].
    apply list_elem_of_singleton in Hx. done.
  - intros (i & v & Hv & Hne & ->).
    exists [off + Z.of_nat i * sizeof_uintptr arch]. split.
    + apply list_elem_of_In, list_elem_of_lookup. exists i.
      rewrite list_lookup_imap, Hv. simpl.
      by destruct (Z.eqb_spec v 0).
    + by left.
Qed.

(** C7, as the code has it.  With a TLS directory in the input, the table
    that is appended to the virtualized code section is the old callback
    list, then [DEFAULT_PE_BASE_ADDRESS + function_offset], then five zero
    slots; the offset of every slot that is not zero is recorded for
    relocation; a fixup on the slot of the interpreter callback adds the
    virtual address of the loader section, so that the slot ends as
    [DEFAULT_PE_BASE_ADDRESS + function_offset + VirtualAddress];
    [AddressOfCallBacks] is overwritten with [DEFAULT_PE_BASE_ADDRESS +
    offset of the table in the section], and a fixup relative to the
    beginning of the file adds the virtual address of the virtualized code
    section to it. *)
Theorem AddTlsCallbacks_existing_directory
    (fuel : nat) (interpreter_pe original_pe : pe.PortableExecutable)
    (context : protector.ProtectorContext)
    (AddressOfCallBacks function_offset : Z) (existing : list Z) :
  let nt := pe.GetNtHeaders original_pe in
  let directory := pe.GetDataDirectory nt pe.IMAGE_DIRECTORY_ENTRY_TLS in
  let field :=
    pe.RvaToFileOffset (pe.GetSectionHeaders original_pe)
      (pe.dir_VirtualAddress directory)
    + protector.offsetof_AddressOfCallBacks arch in
  let table :=
    existing ++ [uptr arch (DEFAULT_PE_BASE_ADDRESS + function_offset)]
      ++ [0; 0; 0; 0; 0] in
  let table_offset :=
    pe.GetCurrentOffset (protector.virtualized_code_section context) in
  let old := protector.fixup_context context in
  pe.dir_Size directory ≠ 0 →
  read_le (pe.GetPeImage original_pe) field (protector.ptr_bytes arch)
    = Some AddressOfCallBacks →
  protector.CopyTlsCallbackList arch fuel (pe.GetPeImage original_pe)
    AddressOfCallBacks (pe.GetSectionHeaders original_pe) (pe.ImageBase nt)
    = Ok existing →
  protector.GetExportedFunctionOffsetRelativeToSection interpreter_pe "TlsCallback"
    = Ok function_offset →
  ∃ original_pe' context',
    protector.AddTlsCallbacks arch DEFAULT_PE_BASE_ADDRESS fuel
      interpreter_pe original_pe context = Ok (original_pe', context')
    (* the table *)
    ∧ protector.virtualized_code_section context'
      = fst (pe.AppendCode (protector.virtualized_code_section context)
               (protector.pointer_list_bytes arch table)
               (pe.SectionAlignment nt) (pe.FileAlignment nt))
    (* a relocation for each slot that is not zero *)
    ∧ protector.virtualized_code_section_offsets_to_add_to_relocation_table
        (protector.fixup_context context')
      = protector.virtualized_code_section_offsets_to_add_to_relocation_table old
        ++ protector.callback_relocation_offsets arch table_offset table
    (* the two fixups *)
    ∧ protector.fixups (protector.fixup_context context')
      = protector.fixups old
        ++ [ {| protector.offset :=
                  table_offset + Z.of_nat (length existing) * sizeof_uintptr arch;
                protector.desc :=
                  {| protector.offset_type := protector.VirtualizedCodeSection;
                     protector.size := sizeof_uintptr arch;
                     protector.operation :=
                       protector.AddVmLoaderSectionVirtualAddress |} |};
             {| protector.offset := field;
                protector.desc :=
                  {| protector.offset_type := protector.Beginning;
                     protector.size := sizeof_uintptr arch;
                     protector.operation :=
                       protector.AddVirtualizedCodeSectionVirtualAddress |} |} ]
    (* AddressOfCallBacks in the TLS directory of the input *)
    ∧ read_le (pe.GetPeImage original_pe') field (protector.ptr_bytes arch)
      = Some (uptr arch (DEFAULT_PE_BASE_ADDRESS + table_offset))
    (* what the first fixup makes of the slot *)
    ∧ ∀ loader_name code_name headers loader,
        pe.FromName headers loader_name = Some loader →
        protector.fixup_value loader_name code_name headers
          (8 * sizeof_uintptr arch) protector.AddVmLoaderSectionVirtualAddress
          (uptr arch (DEFAULT_PE_BASE_ADDRESS + function_offset))
        = Ok (uptr arch (DEFAULT_PE_BASE_ADDRESS + function_offset
                         + pe.VirtualAddress loader)).
Proof.
  intros nt directory field table table_offset old Hsize Hread Hcopy Hexport.
  pose proof (read_le_range _ _ _ _ Hread) as [Hlo Hhi].
  unfold protector.AddTlsCallbacks.
  fold nt. fold directory.
  rewrite (proj2 (Z.eqb_neq _ _) Hsize). cbn [negb].
  fold field. rewrite Hread. cbn [deref mbind Result_bind].
  rewrite Hcopy. cbn [mbind Result_bind].
  rewrite Hexport. cbn [mbind Result_bind].
  fold table. unfold pe.AppendCode at 1. fold table_offset.
  rewrite (write_le_in_range _ _ _ _ Hlo Hhi). cbn [deref mbind Result_bind].
  eexists _, _. split; [reflexivity|]. cbn.
  split; [reflexivity|]. split; [reflexivity|].
  split; [by rewrite <- app_assoc|].
  split.
  - rewrite read_le_write_bytes by done.
    rewrite ptr_bits. unfold uptr. by rewrite wrap_idem by (destruct arch; done).
  - intros loader_name code_name headers loader Hloader.
    unfold protector.fixup_value. rewrite Hloader. cbn.
    unfold uptr. by rewrite wrap_add_l.
Qed.

End TlsInjector.

Lemma AddTlsCallbacks_existing_directory_witness :
  ∃ original_pe' context',
    protector.AddTlsCallbacks X86 0x400000 10 scenario.interpreter_pe
      scenario.tls_pe scenario.empty_context = Ok (original_pe', context')
    ∧ take 28 (pe.GetData (protector.virtualized_code_section context'))
      = protector.pointer_list_bytes X86 [0x401000; 0x400010; 0; 0; 0; 0; 0]
    ∧ read_le (pe.GetPeImage original_pe') 12 4 = Some 0x400000.
Proof.
  destruct (AddTlsCallbacks_existing_directory X86 0x400000 10
              scenario.interpreter_pe scenario.tls_pe scenario.empty_context
              0x403020 0x10 [0x401000])
    as (p & c & Hrun & Htable & _ & _ & Hfield & _);
    [ vm_compute; discriminate | reflexivity | reflexivity | reflexivity | ].
  exists p, c. split; [exact Hrun|]. split.
  - rewrite Htable. reflexivity.
  - exact Hfield.
Defined.

(** The reading of C7 in which [AddressOfCallBacks] receives the bare
    section offset of the table does not hold: with the default base
    0x400000 the field receives 0x400000 for a table at offset 0. *)
Lemma AddTlsCallbacks_stores_base_plus_offset :
  ¬ ∃ original_pe' context',
      protector.AddTlsCallbacks X86 0x400000 10 scenario.interpreter_pe
        scenario.tls_pe scenario.empty_context = Ok (original_pe', context')
      ∧ read_le (pe.GetPeImage original_pe') 12 4
        = Some (pe.GetCurrentOffset
                  (protector.virtualized_code_section scenario.empty_context)).
Proof.
  intros (p & c & Hrun & Hfield).
  vm_compute in Hrun. injection Hrun as <- _.
  vm_compute in Hfield. discriminate Hfield.
Qed.

(* --------------------------------------------------------------------- *)
(** ** The jump into the loader section *)

Section TextPatch.

Lemma store_bytes_in_range buf off bs :
  0 <= off → off + Z.of_nat (length bs) <= Z.of_nat (length buf) →
  protector.store_bytes buf off bs = Ok (write_bytes (Z.to_nat off) bs buf).
Proof.
  intros H0 H1. unfold protector.store_bytes.
  destruct (Z.leb_spec 0 off),
    (Z.leb_spec (off + Z.of_nat (length bs)) (Z.of_nat (length buf)));
    simpl; (done || lia).
Qed.

Lemma take_drop_split (l : list Z) a n m :
  take (n + m) (drop a l) = take n (drop a l) ++ take m (drop (a + n) l).
Proof. by rewrite <- take_take_drop, drop_drop. Qed.

(** The five bytes at [off] after the three stores of the callback. *)
Lemma write_le_bytes_same n v off (buf : list Z) :
  (off + n <= length buf)%nat →
  take n (drop off (write_bytes off (le_bytes n v) buf)) = le_bytes n v.
Proof.
  intros Hlen.
  rewrite <- (length_le_bytes n v) at 1.
  apply write_bytes_same. by rewrite length_le_bytes.
Qed.

Lemma write_bytes_prefix bs off (buf : list Z) a :
  (a <= off)%nat → (off + length bs <= length buf)%nat →
  take a (write_bytes off bs buf) = take a buf.
Proof.
  intros Ha Hlen.
  exact (write_bytes_frame bs off buf 0 a Hlen (or_introl Ha)).
Qed.

Lemma write_bytes_suffix bs off (buf : list Z) a :
  (off + length bs <= a)%nat → (off + length bs <= length buf)%nat →
  drop a (write_bytes off bs buf) = drop a buf.
Proof.
  intros Ha Hlen.
  replace a with ((off + length bs) + (a - (off + length bs)))%nat by lia.
  rewrite <- (drop_drop (write_bytes off bs buf)), <- (drop_drop buf).
  by rewrite write_bytes_after.
Qed.

Lemma jump_bytes (data fill : list Z) off displacement :
  (5 <= length fill)%nat → (off + length fill <= length data)%nat →
  take 5 (drop off
            (write_bytes (S off) (le_bytes 4 displacement)
               (write_bytes off [protector.kJmpOpcode]
                  (write_bytes off fill data))))
  = protector.kJmpOpcode :: le_bytes 4 displacement.
Proof.
  intros Hfill Hlen.
  change 5%nat with (1 + 4)%nat. rewrite take_drop_split.
  rewrite Nat.add_1_r.
  rewrite write_le_bytes_same by (rewrite !length_write_bytes; lia).
  rewrite write_bytes_frame
    by (rewrite ?length_write_bytes, ?length_le_bytes; lia).
  rewrite (write_bytes_same [protector.kJmpOpcode])
    by (rewrite length_write_bytes; simpl; lia).
  done.
Qed.

(** The stores stay inside the instruction when it has five bytes or more. *)
Lemma jump_bytes_outside (data fill : list Z) off displacement :
  (5 <= length fill)%nat → (off + length fill <= length data)%nat →
  let patched :=
    write_bytes (S off) (le_bytes 4 displacement)
      (write_bytes off [protector.kJmpOpcode] (write_bytes off fill data)) in
  length patched = length data
  ∧ take off patched = take off data
  ∧ drop (off + length fill) patched = drop (off + length fill) data.
Proof.
  intros Hfill Hlen patched. subst patched. split; [|split].
  - by rewrite !length_write_bytes.
  - rewrite !write_bytes_prefix
      by (rewrite ?length_write_bytes, ?length_le_bytes; simpl; lia).
    done.
  - rewrite !write_bytes_suffix
      by (rewrite ?length_write_bytes, ?length_le_bytes; simpl; lia).
    done.
Qed.

Lemma s32_wrap x : - 2 ^ 31 <= x < 2 ^ 31 → s32 (wrap 32 x) = x.
Proof.
  intros Hx. unfold s32, u32. rewrite wrap_idem by lia. unfold wrap.
  destruct (Z.ltb_spec (x mod 2 ^ 32) (2 ^ 31)) as [Hlt|Hge].
  - destruct (Z.le_gt_cases 0 x) as [Hx0|Hx0].
    + apply Z.mod_small. lia.
    + rewrite <- (Z.mod_add x 1) in Hlt by lia.
      rewrite Z.mod_small in Hlt by lia. lia.
  - destruct (Z.le_gt_cases 0 x) as [Hx0|Hx0].
    + rewrite Z.mod_small in Hge by lia. lia.
    + rewrite <- (Z.mod_add x 1) by lia.
      rewrite Z.mod_small by lia. lia.
Qed.

Lemma write_le_frame image off k v image' site n :
  write_le image off k v = Some image' →
  0 <= site →
  off + Z.of_nat k <= site ∨ site + Z.of_nat n <= off →
  take n (drop (Z.to_nat site) image') = take n (drop (Z.to_nat site) image).
Proof.
  unfold write_le. intros Hw Hsite Hmiss.
  destruct (Z.leb_spec 0 off),
    (Z.leb_spec (off + Z.of_nat k) (Z.of_nat (length image)));
    simpl in Hw; try discriminate.
  injection Hw as <-.
  apply write_bytes_frame; rewrite length_le_bytes; lia.
Qed.

Lemma apply_fixup_frame loader_name code_name headers text_header
    image fixup image' site n :
  protector.apply_fixup loader_name code_name headers text_header image fixup
    = Ok image' →
  protector.misses loader_name code_name headers text_header site n fixup →
  0 <= site →
  take n (drop (Z.to_nat site) image') = take n (drop (Z.to_nat site) image).
Proof.
  unfold protector.apply_fixup, protector.misses. intros Happly Hmiss Hsite.
  destruct (protector.fixup_file_offset _ _ _ _ _) as [fo| | |];
    simpl in Happly; try discriminate.
  specialize (Hmiss fo eq_refl).
  destruct (Z.eqb_spec (protector.size (protector.desc fixup)) 4) as [E4|_];
    [|destruct (Z.eqb_spec (protector.size (protector.desc fixup)) 8) as [E8|_]];
    try discriminate.
  - destruct (read_le image fo 4); simpl in Happly; try discriminate.
    destruct (protector.fixup_value _ _ _ _ _ _); simpl in Happly; try discriminate.
    destruct (write_le image fo 4 a) eqn:Hw; simpl in Happly; try discriminate.
    injection Happly as <-. eapply write_le_frame; [exact Hw|done|].
    rewrite E4 in Hmiss. lia.
  - destruct (read_le image fo 8); simpl in Happly; try discriminate.
    destruct (protector.fixup_value _ _ _ _ _ _); simpl in Happly; try discriminate.
    destruct (write_le image fo 8 a) eqn:Hw; simpl in Happly; try discriminate.
    injection Happly as <-. eapply write_le_frame; [exact Hw|done|].
    rewrite E8 in Hmiss. lia.
Qed.

Lemma apply_fixups_frame loader_name code_name headers text_header
    fixups site n : ∀ image image',
  protector.apply_fixups loader_name code_name headers text_header fixups image
    = Ok image' →
  Forall (protector.misses loader_name code_name headers text_header site n) fixups →
  0 <= site →
  take n (drop (Z.to_nat site) image') = take n (drop (Z.to_nat site) image).
Proof.
  unfold protector.apply_fixups.
  induction fixups as [|f fixups IH]; intros image image' Hrun Hall Hsite;
    simpl in Hrun.
  - by injection Hrun as <-.
  - apply Forall_cons in Hall as [Hf Hall].
    destruct (protector.apply_fixup _ _ _ _ image f) as [image1| | |] eqn:Hone;
      simpl in Hrun; try discriminate.
    rewrite (IH image1 image' Hrun Hall Hsite).
    by eapply apply_fixup_frame.
Qed.

Lemma write_le_length image off k v image' :
  write_le image off k v = Some image' → length image' = length image.
Proof.
  unfold write_le. intros Hw.
  destruct ((0 <=? off) && (off + Z.of_nat k <=? Z.of_nat (length image)));
    [|discriminate].
  injection Hw as <-. apply length_write_bytes.
Qed.

Lemma apply_fixup_length loader_name code_name headers text_header
    image fixup image' :
  protector.apply_fixup loader_name code_name headers text_header image fixup
    = Ok image' →
  length image' = length image.
Proof.
  unfold protector.apply_fixup. intros Happly.
  destruct (protector.fixup_file_offset _ _ _ _ _) as [fo| | |];
    simpl in Happly; try discriminate.
  destruct (Z.eqb_spec (protector.size (protector.desc fixup)) 4) as [E4|_];
    [|destruct (Z.eqb_spec (protector.size (protector.desc fixup)) 8) as [E8|_]];
    try discriminate.
  - destruct (read_le image fo 4); simpl in Happly; try discriminate.
    destruct (protector.fixup_value _ _ _ _ _ _); simpl in Happly; try discriminate.
    destruct (write_le image fo 4 a) eqn:Hw; simpl in Happly; try discriminate.
    injection Happly as <-. by eapply write_le_length.
  - destruct (read_le image fo 8); simpl in Happly; try discriminate.
    destruct (protector.fixup_value _ _ _ _ _ _); simpl in Happly; try discriminate.
    destruct (write_le image fo 8 a) eqn:Hw; simpl in Happly; try discriminate.
    injection Happly as <-. by eapply write_le_length.
Qed.

Lemma apply_fixups_length loader_name code_name headers text_header
    fixups : ∀ image image',
  protector.apply_fixups loader_name code_name headers text_header fixups image
    = Ok image' →
  length image' = length image.
Proof.
  unfold protector.apply_fixups.
  induction fixups as [|f fixups IH]; intros image image' Hrun; simpl in Hrun.
  - by injection Hrun as <-.
  - destruct (protector.apply_fixup _ _ _ _ image f) as [image1| | |] eqn:Hone;
      simpl in Hrun; try discriminate.
    rewrite (IH image1 image' Hrun). by eapply apply_fixup_length.
Qed.

Lemma apply_fixups_app loader_name code_name headers text_header
    before after : ∀ image,
  protector.apply_fixups loader_name code_name headers text_header
    (before ++ after) image
  = image1 ← protector.apply_fixups loader_name code_name headers text_header
               before image;
    protector.apply_fixups loader_name code_name headers text_header after image1.
Proof.
  unfold protector.apply_fixups.
  induction before as [|f before IH]; intros image; simpl; [done|].
  destruct (protector.apply_fixup _ _ _ _ image f); simpl; auto.
Qed.

(** The fixup of the patch site adds the virtual address of the loader
    section to the displacement. *)
Lemma apply_fixup_patch_site loader_name code_name headers text_header loader
    image off site displacement :
  pe.FromName headers loader_name = Some loader →
  pe.RvaToFileOffset headers (pe.SectionOffsetToRva text_header (off + 1))
    = site + 1 →
  0 <= site → site + 5 <= Z.of_nat (length image) →
  take 5 (drop (Z.to_nat site) image)
    = protector.kJmpOpcode :: le_bytes 4 displacement →
  ∃ image',
    protector.apply_fixup loader_name code_name headers text_header image
      {| protector.offset := off + 1;
         protector.desc :=
           {| protector.offset_type := protector.TextSection;
              protector.size := 4;
              protector.operation :=
                protector.AddVmLoaderSectionVirtualAddress |} |}
      = Ok image'
    ∧ take 5 (drop (Z.to_nat site) image')
      = protector.kJmpOpcode
        :: le_bytes 4 (u32 (displacement + pe.VirtualAddress loader)).
Proof.
  intros Hloader Hfile Hsite Hlen Hbytes.
  unfold protector.apply_fixup, protector.fixup_file_offset.
  cbn -[write_bytes le_bytes wrap read_le write_le].
  rewrite Hfile. cbn -[write_bytes le_bytes wrap read_le write_le].
  change 5%nat with (1 + 4)%nat in Hbytes. rewrite take_drop_split in Hbytes.
  apply (app_inj_1 _ [protector.kJmpOpcode]) in Hbytes
    as [Hop Hdisp]; [|rewrite length_take, length_drop; simpl length; lia].
  rewrite read_le_in_range by lia.
  replace (Z.to_nat (site + 1)) with (Z.to_nat site + 1)%nat by lia.
  rewrite Hdisp, le_value_le_bytes.
  cbn -[write_bytes le_bytes wrap read_le write_le].
  unfold protector.fixup_value. rewrite Hloader.
  cbn -[write_bytes le_bytes wrap read_le write_le].
  rewrite write_le_in_range by lia.
  cbn -[write_bytes le_bytes wrap read_le write_le].
  eexists. split; [reflexivity|].
  change 5%nat with (1 + 4)%nat. rewrite take_drop_split.
  replace (Z.to_nat (site + 1)) with (Z.to_nat site + 1)%nat by lia.
  rewrite write_le_bytes_same by lia.
  rewrite write_bytes_frame by (rewrite ?length_le_bytes; lia).
  rewrite Hop. cbn -[le_bytes wrap]. do 2 f_equal.
  change (displacement `mod` 2 ^ 32) with (wrap 32 displacement). unfold u32.
  apply wrap_add_l.
Qed.

End TextPatch.

Section EachInstruction.

Context {VmOpcode : Type}.
Variable arch : Arch.
Variable virtualizer : protector.Virtualizer VmOpcode.
Variable nt : pe.IMAGE_NT_HEADERS.
Variable interpreter_function_offset : Z.
Variable text_header : pe.IMAGE_SECTION_HEADER.
Variable relocation_rvas : list Z.

Local Abbreviation callback :=
  (protector.EachInstructionCallback arch virtualizer nt
     interpreter_function_offset text_header relocation_rvas).

(** The context after the callback has virtualized an instruction. *)
Lemma EachInstructionCallback_virtualizes st instruction rnd :
  let ctx := protector.protector_context st in
  let relocs :=
    protector.GetRelocationsWithinInstruction (capstone.address instruction)
      (capstone.size instruction) relocation_rvas in
  let off :=
    pe.RvaToSectionOffset text_header (u32 (capstone.address instruction)) in
  let loader_offset := pe.GetCurrentOffset (protector.vm_loader_section ctx) in
  let data := pe.GetData (protector.new_text_section ctx) in
  let fill :=
    map (λ i, u8 (protector.RandomU8 rnd i))
      (seq 0 (Z.to_nat (capstone.size instruction))) in
  let displacement :=
    u32 (u32 (loader_offset - capstone.address instruction)
         - protector.kJmpInstructionSize) in
  protector.IsVirtualizeable virtualizer instruction
    (protector.GetVmOpcode virtualizer instruction) = true →
  capstone.eflags (capstone.detail instruction) = 0 →
  protector.CreateVirtualizedShellcode virtualizer instruction
    (protector.GetVmOpcode virtualizer instruction) (protector.RandomU32 rnd) relocs
    ≠ [] →
  5 <= capstone.size instruction →
  0 <= off → off + capstone.size instruction <= Z.of_nat (length data) →
  ∃ st',
    callback st instruction rnd = Ok st'
    ∧ pe.GetData (protector.new_text_section (protector.protector_context st'))
      = write_bytes (S (Z.to_nat off)) (le_bytes 4 displacement)
          (write_bytes (Z.to_nat off) [protector.kJmpOpcode]
             (write_bytes (Z.to_nat off) fill data))
    ∧ (∃ jmp_back code_addr,
         protector.fixups (protector.fixup_context (protector.protector_context st'))
         = protector.fixups (protector.fixup_context ctx)
           ++ [ jmp_back; code_addr;
                {| protector.offset := off + 1;
                   protector.desc :=
                     {| protector.offset_type := protector.TextSection;
                        protector.size := 4;
                        protector.operation :=
                          protector.AddVmLoaderSectionVirtualAddress |} |} ])
    ∧ protector.relocation_rvas_to_remove
        (protector.fixup_context (protector.protector_context st'))
      = protector.relocation_rvas_to_remove (protector.fixup_context ctx) ++ relocs.
Proof.
  intros ctx relocs off loader_offset data fill displacement
    Hvirt Hflags Hcode Hsize Hoff Hin.
  assert (Hfill : length fill = Z.to_nat (capstone.size instruction))
    by (subst fill; by rewrite length_map, length_seq).
  unfold protector.EachInstructionCallback.
  rewrite Hvirt, Hflags. cbn [Z.eqb negb].
  fold relocs.
  destruct (protector.CreateVirtualizedShellcode virtualizer instruction _ _ relocs)
    as [|b code] eqn:Hshell; [done|].
  cbn [length Nat.ltb Nat.leb].
  unfold pe.AppendCode at 1 2.
  fold ctx. fold loader_offset. fold off. fold data. fold fill.
  rewrite (store_bytes_in_range data off fill) by lia.
  cbn [mbind Result_bind].
  rewrite (store_bytes_in_range _ off [protector.kJmpOpcode])
    by (rewrite ?length_write_bytes; simpl length; lia).
  cbn [mbind Result_bind].
  rewrite (store_bytes_in_range _ (off + 1) (le_bytes 4 _))
    by (rewrite ?length_write_bytes, ?length_le_bytes; simpl length; lia).
  cbn [mbind Result_bind].
  eexists. split; [reflexivity|].
  cbn [protector.protector_context protector.new_text_section pe.SetData pe.GetData
       protector.fixup_context protector.fixups
       protector.set_relocation_rvas_to_remove protector.push_fixup
       protector.push_vm_section_offsets protector.relocation_rvas_to_remove].
  replace (Z.to_nat (off + 1)) with (S (Z.to_nat off)) by lia.
  split; [reflexivity|]. split; [|reflexivity].
  eexists _, _. rewrite <- !app_assoc. reflexivity.
Qed.

End EachInstruction.

(* --------------------------------------------------------------------- *)
(** ** The rollback callback *)

Section Rollback.

Variable text_header : pe.IMAGE_SECTION_HEADER.
Variable text_copy : pe.Section.
Variable relocation_rvas : list Z.

Local Abbreviation rollback :=
  (protector.InvalidInstructionCallback text_header text_copy relocation_rvas).

(** The callback touches the text section and the to-remove list only:
    the fixups and both lists of offsets to relocate stay as they are. *)
Lemma InvalidInstructionCallback_keeps_fixups st address n st' :
  rollback st address n = Ok st' →
  let fc := protector.fixup_context (protector.protector_context st) in
  let fc' := protector.fixup_context (protector.protector_context st') in
  protector.fixups fc' = protector.fixups fc
  ∧ protector.vm_section_offsets_to_add_to_relocation_table fc'
    = protector.vm_section_offsets_to_add_to_relocation_table fc
  ∧ protector.virtualized_code_section_offsets_to_add_to_relocation_table fc'
    = protector.virtualized_code_section_offsets_to_add_to_relocation_table fc.
Proof.
  unfold protector.InvalidInstructionCallback. intros Hrun.
  destruct ((0 <=? _) && _); simpl in Hrun; [|discriminate].
  destruct (protector.store_bytes _ _ _); simpl in Hrun; try discriminate.
  injection Hrun as <-. done.
Qed.

(** The bytes of the instruction are those of the saved copy again. *)
Lemma InvalidInstructionCallback_restores st address n st' :
  rollback st address n = Ok st' → 0 <= n →
  let off := Z.to_nat (pe.RvaToSectionOffset text_header address) in
  take (Z.to_nat n)
    (drop off (pe.GetData (protector.new_text_section
                             (protector.protector_context st'))))
  = take (Z.to_nat n) (drop off (pe.GetData text_copy)).
Proof.
  unfold protector.InvalidInstructionCallback. intros Hrun Hn.
  destruct (Z.leb_spec 0 (pe.RvaToSectionOffset text_header address)) as [H0|];
    [|discriminate].
  destruct (Z.leb_spec (pe.RvaToSectionOffset text_header address + n)
              (Z.of_nat (length (pe.GetData text_copy)))) as [H1|];
    [|discriminate].
  simpl in Hrun. unfold protector.store_bytes in Hrun.
  destruct ((0 <=? _) && _) eqn:Hrange; simpl in Hrun; [|discriminate].
  injection Hrun as <-. simpl.
  apply andb_true_iff in Hrange as [_ Hhi]. apply Z.leb_le in Hhi.
  rewrite length_take, length_drop in Hhi.
  set (bs := take (Z.to_nat n) (drop _ (pe.GetData text_copy))) in *.
  assert (Hbs : length bs = Z.to_nat n)
    by (subst bs; rewrite length_take, length_drop; lia).
  rewrite <- Hbs at 1. apply write_bytes_same. lia.
Qed.

(** Erasing the RVAs of the instruction undoes their insertion. *)
Lemma erase_first_app (x : Z) (old rest : list Z) :
  x ∉ old → protector.erase_first x (old ++ x :: rest) = old ++ rest.
Proof.
  induction old as [|y old IH]; intros Hx; simpl.
  - by rewrite Z.eqb_refl.
  - apply not_elem_of_cons in Hx as [Hne Hx].
    destruct (Z.eqb_spec x y); [done|]. by rewrite IH.
Qed.

Lemma erase_all_appended (relocs : list Z) : ∀ old,
  (∀ r, r ∈ relocs → r ∉ old) →
  fold_left (λ to_remove reloc_rva, protector.erase_first reloc_rva to_remove)
    relocs (old ++ relocs) = old.
Proof.
  induction relocs as [|r relocs IH]; intros old Hfresh; simpl.
  - by rewrite app_nil_r.
  - rewrite erase_first_app by (apply Hfresh; left).
    apply IH. intros r' Hr'. apply Hfresh. by right.
Qed.

End Rollback.

(** C5 on a concrete run: [mov_insn] is virtualized and then reported as
    invalid.  The rollback restores its bytes and takes its relocation out
    of the to-remove list, but the fixup that refers to the instruction is
    still in the list of fixups, as is the relocation for its loader stub;
    applied to the output image, the fixup changes the restored bytes. *)
Theorem rollback_leaves_the_fixup :
  ∃ st',
    (st ← scenario.each_instruction scenario.initial_state scenario.mov_insn
            scenario.random;
     scenario.invalid_instruction st 0x1000 5) = Ok st'
    ∧ let ctx := protector.protector_context st' in
      pe.GetData (protector.new_text_section ctx) = scenario.text_bytes
      ∧ protector.relocation_rvas_to_remove (protector.fixup_context ctx) = []
      ∧ {| protector.offset := 1;
           protector.desc :=
             {| protector.offset_type := protector.TextSection;
                protector.size := 4;
                protector.operation :=
                  protector.AddVmLoaderSectionVirtualAddress |} |}
        ∈ protector.fixups (protector.fixup_context ctx)
      ∧ protector.vm_section_offsets_to_add_to_relocation_table
          (protector.fixup_context ctx) = [0x55]
      ∧ ∃ image',
          protector.apply_fixups ".vmldr" ".vmcode" scenario.new_pe_sections
            scenario.text_header (protector.fixups (protector.fixup_context ctx))
            (scenario.output_image st') = Ok image'
          ∧ take 5 (drop 0x20 image') = [0xB8; 0x78; 0xA6; 0x34; 0x12]
          ∧ take 5 (drop 0x20 image') ≠ take 5 scenario.text_bytes.
Proof.
  eexists. split; [vm_compute; reflexivity|].
  cbv zeta. split; [reflexivity|]. split; [reflexivity|].
  split; [do 2 right; left|]. split; [reflexivity|].
  eexists. split; [vm_compute; reflexivity|].
  split; [reflexivity|]. vm_compute. discriminate.
Qed.

(* --------------------------------------------------------------------- *)
(** ** Instructions that change the flags *)

Section UnsupportedInstruction.

Lemma foldM_app {A S : Type} (f : S → A → Result S) (l1 l2 : list A) : ∀ s,
  protector.foldM f (l1 ++ l2) s = s' ← protector.foldM f l1 s; protector.foldM f l2 s'.
Proof.
  induction l1 as [|a l1 IH]; intros s; simpl; [done|].
  destruct (f s a); simpl; auto.
Qed.

Context {VmOpcode : Type}.
Variable arch : Arch.
Variable ENABLE_TLS_CALLBACKS : bool.
Variable DEFAULT_PE_BASE_ADDRESS : Z.
Variable VM_FUNCTIONS_SECTION_NAME : string.
Variable VM_LOADER_SECTION_NAME : string.
Variable VM_CODE_SECTION_NAME : string.
Variable virtualizer : protector.Virtualizer VmOpcode.
Variable ReadInterpreterPe : Result pe.PortableExecutable.
Variable IsValid : pe.PortableExecutable → bool.
Variable Relocate : pe.PortableExecutable → Z → pe.PortableExecutable.
Variable CopySectionDeep : pe.PortableExecutable → pe.IMAGE_SECTION_HEADER → pe.Section.
Variable CopySectionsDeep : pe.PortableExecutable → list pe.Section.
Variable Build : pe.IMAGE_NT_HEADERS → list pe.Section → pe.PortableExecutable.
Variable ObfuscateRTTI : pe.PortableExecutable → pe.PortableExecutable.
Variable cs_open_status : Z.
Variable cs_option_status : Z.
Variable nullptr : Z.

(** C2. An instruction that the virtualizer accepts and that touches the
    flags makes the callback throw; the exception ends the run of the
    disassembly engine, whatever the context and whatever follows, and
    [Protect] returns no image. *)
Theorem eflags_instruction_aborts (instruction : capstone.cs_insn) :
  protector.IsVirtualizeable virtualizer instruction
    (protector.GetVmOpcode virtualizer instruction) = true →
  capstone.eflags (capstone.detail instruction) ≠ 0 →
  (* the callback *)
  (∀ nt interpreter_function_offset text_header relocation_rvas st rnd,
     protector.EachInstructionCallback arch virtualizer nt
       interpreter_function_offset text_header relocation_rvas st instruction rnd
     = Throw protector.eflags_not_supported)
  (* the run of the engine: partial progress is dropped *)
  ∧ (∀ nt interpreter_function_offset text_header text_copy relocation_rvas
       before after rnd st st1,
       protector.DisassembleFromEntrypoint arch virtualizer nt
         interpreter_function_offset text_header text_copy relocation_rvas
         before st = Ok st1 →
       protector.DisassembleFromEntrypoint arch virtualizer nt
         interpreter_function_offset text_header text_copy relocation_rvas
         (before ++ protector.EachInstruction instruction rnd :: after) st
       = Throw protector.eflags_not_supported)
  (* no output image *)
  ∧ (∀ fuel before after rnd original_pe new_pe,
       protector.Protect arch ENABLE_TLS_CALLBACKS DEFAULT_PE_BASE_ADDRESS
         VM_FUNCTIONS_SECTION_NAME VM_LOADER_SECTION_NAME VM_CODE_SECTION_NAME
         virtualizer ReadInterpreterPe IsValid Relocate CopySectionDeep
         CopySectionsDeep Build ObfuscateRTTI cs_open_status cs_option_status
         nullptr fuel
         (before ++ protector.EachInstruction instruction rnd :: after) original_pe
       ≠ Ok new_pe).
Proof.
  intros Hvirt Hflags.
  assert (Hcallback :
    ∀ nt interpreter_function_offset text_header relocation_rvas st rnd,
      protector.EachInstructionCallback arch virtualizer nt
        interpreter_function_offset text_header relocation_rvas st instruction rnd
      = Throw protector.eflags_not_supported).
  { intros. unfold protector.EachInstructionCallback.
    rewrite Hvirt, (proj2 (Z.eqb_neq _ _) Hflags). reflexivity. }
  assert (Hrun :
    ∀ nt interpreter_function_offset text_header text_copy relocation_rvas
      before after rnd st,
      match protector.DisassembleFromEntrypoint arch virtualizer nt
              interpreter_function_offset text_header text_copy relocation_rvas
              (before ++ protector.EachInstruction instruction rnd :: after) st with
      | Ok _ => False
      | _ => True
      end).
  { intros. unfold protector.DisassembleFromEntrypoint. rewrite foldM_app.
    destruct (protector.foldM _ before st) as [st1| | |]; simpl; try done.
    by rewrite Hcallback. }
  split; [exact Hcallback|]. split.
  - intros nt ifo th tc rr before after rnd st st1 Hbefore.
    unfold protector.DisassembleFromEntrypoint in *.
    rewrite foldM_app, Hbefore. simpl. by rewrite Hcallback.
  - intros fuel before after rnd original_pe new_pe Hprotect.
    unfold protector.Protect in Hprotect.
    repeat match type of Hprotect with
           | (if ?c then _ else _) = _ => destruct c
           | mbind _ ?r = _ =>
               let E := fresh "E" in
               destruct r eqn:E; cbn [mbind Result_bind] in Hprotect
           | (let '(_, _) := ?p in _) = _ => destruct p
           | Throw _ = Ok _ => discriminate Hprotect
           | Undefined = Ok _ => discriminate Hprotect
           | OutOfFuel = Ok _ => discriminate Hprotect
           end.
    match goal with
    | E : protector.DisassembleFromEntrypoint _ _ ?nt ?ifo ?th ?tc ?rr _ ?st = Ok _
      |- _ =>
        pose proof (Hrun nt ifo th tc rr before after rnd st) as H;
        rewrite E in H; exact H
    end.
Qed.

End UnsupportedInstruction.

Lemma eflags_instruction_aborts_witness :
  scenario.each_instruction scenario.initial_state scenario.add_insn scenario.random
  = Throw protector.eflags_not_supported.
Proof.
  exact (proj1 (eflags_instruction_aborts X86 true 0x400000 ".vmfun" ".vmldr"
                  ".vmcode" scenario.virtualizer (Ok scenario.interpreter_pe)
                  (λ _, true) (λ p _, p) (λ _ _, pe.CreateEmptySection "")
                  (λ _, []) (λ _ _, scenario.interpreter_pe) (λ p, p) 0 0 0
                  scenario.add_insn eq_refl ltac:(discriminate))
           scenario.nt_headers 0 scenario.text_header scenario.relocation_rvas
           scenario.initial_state scenario.random).
Defined.

(* --------------------------------------------------------------------- *)
(** ** The jumps to the loader section after a run *)

Section RunOfTheCallbacks.

Context {VmOpcode : Type}.
Variable arch : Arch.
Variable loader_name : string.
Variable code_name : string.
Variable virtualizer : protector.Virtualizer VmOpcode.
Variable nt : pe.IMAGE_NT_HEADERS.
Variable interpreter_function_offset : Z.
Variable text_header : pe.IMAGE_SECTION_HEADER.
Variable text_copy : pe.Section.
Variable relocation_rvas : list Z.

Local Abbreviation callback :=
  (protector.EachInstructionCallback arch virtualizer nt
     interpreter_function_offset text_header relocation_rvas).
Local Abbreviation rollback :=
  (protector.InvalidInstructionCallback text_header text_copy relocation_rvas).
Local Abbreviation run :=
  (protector.DisassembleFromEntrypoint arch virtualizer nt
     interpreter_function_offset text_header text_copy relocation_rvas).
Local Abbreviation written :=
  (protector.written virtualizer text_header relocation_rvas).
Local Abbreviation leaves_alone :=
  (protector.leaves_alone virtualizer text_header relocation_rvas).
Local Abbreviation text st :=
  (pe.GetData (protector.new_text_section (protector.protector_context st))).
Local Abbreviation fixups_of st :=
  (protector.fixups (protector.fixup_context (protector.protector_context st))).
Local Abbreviation patch_fixup o :=
  {| protector.offset := o;
     protector.desc :=
       {| protector.offset_type := protector.TextSection;
          protector.size := 4;
          protector.operation := protector.AddVmLoaderSectionVirtualAddress |} |}.

(** What a call of the callback that returns has done. *)
Lemma EachInstructionCallback_step st instruction rnd st' :
  callback st instruction rnd = Ok st' →
  let off := pe.RvaToSectionOffset text_header (u32 (capstone.address instruction)) in
  let loader_offset :=
    pe.GetCurrentOffset (protector.vm_loader_section (protector.protector_context st)) in
  let fill :=
    map (λ i, u8 (protector.RandomU8 rnd i))
      (seq 0 (Z.to_nat (capstone.size instruction))) in
  let displacement :=
    u32 (u32 (loader_offset - capstone.address instruction)
         - protector.kJmpInstructionSize) in
  if protector.virtualizes virtualizer relocation_rvas instruction rnd then
    0 <= off ∧ off + 5 <= Z.of_nat (length (text st))
    ∧ off + Z.of_nat (length fill) <= Z.of_nat (length (text st))
    ∧ text st'
      = write_bytes (S (Z.to_nat off)) (le_bytes 4 displacement)
          (write_bytes (Z.to_nat off) [protector.kJmpOpcode]
             (write_bytes (Z.to_nat off) fill (text st)))
    ∧ ∃ jmp_back code_addr,
        fixups_of st' = fixups_of st ++ [jmp_back; code_addr; patch_fixup (off + 1)]
        ∧ protector.offset_type (protector.desc jmp_back) = protector.VmLoaderSection
        ∧ protector.offset_type (protector.desc code_addr) = protector.VmLoaderSection
  else protector.protector_context st' = protector.protector_context st.
Proof.
  intros Hrun off loader_offset fill displacement.
  unfold protector.EachInstructionCallback in Hrun. unfold protector.virtualizes.
  destruct (protector.IsVirtualizeable _ _ _); cbn [andb];
    [|by injection Hrun as <-].
  destruct (negb _); [done|].
  destruct (0 <? length _)%nat; [|by injection Hrun as <-].
  unfold pe.AppendCode in Hrun.
  fold off loader_offset fill in Hrun.
  unfold protector.store_bytes in Hrun.
  destruct ((0 <=? off) && _) eqn:H1; cbn [mbind Result_bind] in Hrun; [|done].
  destruct ((0 <=? off) && _) eqn:H2 in Hrun; cbn [mbind Result_bind] in Hrun; [|done].
  destruct ((0 <=? off + 1) && _) eqn:H3 in Hrun; cbn [mbind Result_bind] in Hrun;
    [|done].
  injection Hrun as <-.
  apply andb_true_iff in H1 as [H1a H1b]. apply andb_true_iff in H3 as [_ H3].
  apply Z.leb_le in H1a, H1b, H3.
  rewrite !length_write_bytes, length_le_bytes in H3.
  cbn [protector.protector_context protector.new_text_section pe.SetData pe.GetData
       protector.fixup_context protector.fixups
       protector.set_relocation_rvas_to_remove protector.push_fixup
       protector.push_vm_section_offsets].
  split; [done|]. split; [simpl in H3; lia|]. split; [done|]. split.
  - by replace (Z.to_nat (off + 1)) with (S (Z.to_nat off)) by lia.
  - eexists _, _. rewrite <- !app_assoc. split; [reflexivity|]. done.
Qed.

(** What a call of the rollback that returns has done. *)
Lemma InvalidInstructionCallback_step st address n st' :
  rollback st address n = Ok st' →
  let off := pe.RvaToSectionOffset text_header address in
  fixups_of st' = fixups_of st
  ∧ ∃ restored,
      text st' = write_bytes (Z.to_nat off) restored (text st)
      ∧ 0 <= off ∧ off + Z.of_nat (length restored) <= Z.of_nat (length (text st))
      ∧ (restored = [] ∨ Z.of_nat (length restored) <= n).
Proof.
  intros Hrun off. unfold protector.InvalidInstructionCallback in Hrun.
  fold off in Hrun.
  destruct ((0 <=? off) && _) eqn:Hcopy; cbn [mbind Result_bind] in Hrun; [|done].
  unfold protector.store_bytes in Hrun.
  destruct ((0 <=? off) && _) eqn:Hrange in Hrun; cbn [mbind Result_bind] in Hrun;
    [|done].
  injection Hrun as <-. split; [done|].
  apply andb_true_iff in Hrange as [H0 H1]. apply Z.leb_le in H0, H1.
  eexists. split; [reflexivity|]. split; [done|]. split; [done|].
  rewrite length_take.
  destruct (Z.le_gt_cases 0 n); [right; lia|left].
  replace (Z.to_nat n) with 0%nat by lia. done.
Qed.

(** An event changes no byte of a window that it leaves alone. *)
Lemma event_frame event st st' s (m : nat) :
  match event with
  | protector.EachInstruction instruction rnd => callback st instruction rnd
  | protector.InvalidInstruction address n => rollback st address n
  end = Ok st' →
  0 <= s → leaves_alone s (Z.of_nat m) event →
  take m (drop (Z.to_nat s) (text st')) = take m (drop (Z.to_nat s) (text st))
  ∧ length (text st') = length (text st).
Proof.
  intros Hrun Hs Halone. unfold protector.leaves_alone in Halone.
  destruct event as [instruction rnd|address n]; cbn [protector.written] in Halone.
  - pose proof (EachInstructionCallback_step _ _ _ _ Hrun) as Hstep.
    cbv zeta in Hstep.
    destruct (protector.virtualizes _ _ _ _); [|by rewrite Hstep].
    destruct Hstep as (H0 & H5 & Hfill & -> & _).
    rewrite !length_write_bytes. split; [|done].
    unfold protector.kJmpInstructionSize in Halone.
    set (fill := map _ _) in *.
    assert (Z.of_nat (length fill) <= Z.max (capstone.size instruction) 5).
    { subst fill. rewrite length_map, length_seq. lia. }
    rewrite !write_bytes_frame;
      rewrite ?length_write_bytes, ?length_le_bytes; simpl length; (done || lia).
  - destruct (InvalidInstructionCallback_step _ _ _ _ Hrun)
      as (_ & restored & -> & H0 & Hlen & Hcount).
    rewrite length_write_bytes. split; [|done].
    destruct Hcount as [->|Hcount]; [done|].
    apply write_bytes_frame; lia.
Qed.

(** So does a run. *)
Lemma run_frame s (m : nat) : ∀ events st st',
  run events st = Ok st' →
  0 <= s → Forall (leaves_alone s (Z.of_nat m)) events →
  take m (drop (Z.to_nat s) (text st')) = take m (drop (Z.to_nat s) (text st))
  ∧ length (text st') = length (text st).
Proof.
  unfold protector.DisassembleFromEntrypoint.
  induction events as [|event events IH]; intros st st' Hrun Hs Hall;
    cbn [protector.foldM] in Hrun.
  - by injection Hrun as <-.
  - apply Forall_cons in Hall as [Hevent Hall].
    destruct (match event with
              | protector.EachInstruction instruction rnd => _
              | protector.InvalidInstruction address n => _
              end) as [st1| | |] eqn:Hstep in Hrun; try done.
    destruct (event_frame _ _ _ _ _ Hstep Hs Hevent) as [Hwindow Hlength].
    destruct (IH _ _ Hrun Hs Hall) as [-> ->]. done.
Qed.

(** The text section keeps its length. *)
Lemma run_length : ∀ events st st',
  run events st = Ok st' → length (text st') = length (text st).
Proof.
  unfold protector.DisassembleFromEntrypoint.
  induction events as [|event events IH]; intros st st' Hrun;
    cbn [protector.foldM] in Hrun.
  - by injection Hrun as <-.
  - destruct (match event with
              | protector.EachInstruction instruction rnd => _
              | protector.InvalidInstruction address n => _
              end) as [st1| | |] eqn:Hstep in Hrun; try done.
    rewrite (IH _ _ Hrun).
    destruct event as [instruction rnd|address n].
    + pose proof (EachInstructionCallback_step _ _ _ _ Hstep) as H.
      cbv zeta in H.
      destruct (protector.virtualizes _ _ _ _); [|by rewrite H].
      destruct H as (_ & _ & _ & -> & _). by rewrite !length_write_bytes.
    + destruct (InvalidInstructionCallback_step _ _ _ _ Hstep)
        as (_ & restored & -> & _).
      by rewrite length_write_bytes.
Qed.

(** The fixups that a run records, in order: the ones that are relative
    to the text section are the fixups of the jumps of its events. *)
Local Abbreviation fixup_of_the_run events n :=
  (λ fixup : protector.Fixup,
     protector.offset_type (protector.desc fixup) = protector.TextSection →
     ∃ event off count,
       event ∈ events ∧ written event = Some (off, count) ∧ 5 <= count
       ∧ fixup = patch_fixup (off + 1) ∧ 0 <= off ∧ off + 5 <= Z.of_nat n).

Lemma run_fixups : ∀ events st st',
  run events st = Ok st' →
  ∃ recorded,
    fixups_of st' = fixups_of st ++ recorded
    ∧ Forall (fixup_of_the_run events (length (text st))) recorded.
Proof.
  unfold protector.DisassembleFromEntrypoint.
  induction events as [|event events IH]; intros st st' Hrun;
    cbn [protector.foldM] in Hrun.
  - injection Hrun as <-. exists []. by rewrite app_nil_r.
  - destruct (match event with
              | protector.EachInstruction instruction rnd => _
              | protector.InvalidInstruction address n => _
              end) as [st1| | |] eqn:Hstep in Hrun; try done.
    destruct (IH _ _ Hrun) as (later & -> & Hlater).
    assert (Hfirst : ∃ first,
      fixups_of st1 = fixups_of st ++ first
      ∧ Forall (fixup_of_the_run [event] (length (text st))) first
      ∧ length (text st1) = length (text st)).
    { destruct event as [instruction rnd|address n].
      - pose proof (EachInstructionCallback_step _ _ _ _ Hstep) as H.
        cbv zeta in H.
        destruct (protector.virtualizes _ _ _ _) eqn:Hvirt.
        + destruct H as (H0 & H5 & _ & Htext & jb & ca & -> & Hjb & Hca).
          eexists. split; [reflexivity|]. split.
          * repeat constructor.
            -- intros Htype. congruence.
            -- intros Htype. congruence.
            -- intros _. eexists _, _, _. split; [apply list_elem_of_here|].
               cbn [protector.written]. rewrite Hvirt.
               split; [reflexivity|]. unfold protector.kJmpInstructionSize.
               split; [lia|]. done.
          * rewrite Htext. by rewrite !length_write_bytes.
        + exists []. rewrite H, app_nil_r. done.
      - destruct (InvalidInstructionCallback_step _ _ _ _ Hstep)
          as (-> & restored & -> & _).
        exists []. rewrite app_nil_r, length_write_bytes. done. }
    destruct Hfirst as (first & -> & Hfirst & Hlength).
    exists (first ++ later). rewrite app_assoc. split; [done|].
    apply Forall_app. split.
    + eapply Forall_impl; [exact Hfirst|]. intros f Hf Htype.
      destruct (Hf Htype) as (ev & off & count & Hin & Hrest).
      exists ev, off, count. split; [|done].
      apply list_elem_of_singleton in Hin as ->. apply list_elem_of_here.
    + rewrite Hlength in Hlater.
      eapply Forall_impl; [exact Hlater|]. intros f Hf Htype.
      destruct (Hf Htype) as (ev & off & count & Hin & Hrest).
      exists ev, off, count. split; [|done]. by apply list_elem_of_further.
Qed.

(** A fixup that resolves is applied. *)
Lemma apply_fixup_resolves headers loader code (image : list Z) fixup :
  pe.FromName headers loader_name = Some loader →
  pe.FromName headers code_name = Some code →
  protector.resolves loader_name code_name headers text_header (length image) fixup →
  ∃ image',
    protector.apply_fixup loader_name code_name headers text_header image fixup
    = Ok image'.
Proof.
  intros Hloader Hcode (file_offset & Hoffset & H0 & H1 & Hsize).
  unfold protector.apply_fixup. rewrite Hoffset. cbn [mbind Result_bind].
  assert (∀ bits value, ∃ updated,
            protector.fixup_value loader_name code_name headers bits
              (protector.operation (protector.desc fixup)) value = Ok updated)
    as Hvalue.
  { intros bits value. unfold protector.fixup_value.
    destruct (protector.operation _); rewrite ?Hloader, ?Hcode; by eexists. }
  destruct Hsize as [Hsize|Hsize]; rewrite Hsize in *; cbn [Z.eqb Pos.eqb].
  - rewrite read_le_in_range by (simpl; lia). cbn [deref mbind Result_bind].
    destruct (Hvalue 32 (le_value (take 4 (drop (Z.to_nat file_offset) image))))
      as [updated ->].
    cbn [mbind Result_bind]. rewrite write_le_in_range by (simpl; lia).
    by eexists.
  - rewrite read_le_in_range by (simpl; lia). cbn [deref mbind Result_bind].
    destruct (Hvalue 64 (le_value (take 8 (drop (Z.to_nat file_offset) image))))
      as [updated ->].
    cbn [mbind Result_bind]. rewrite write_le_in_range by (simpl; lia).
    by eexists.
Qed.

Lemma apply_fixups_resolve headers loader code (n : nat) fixups :
  pe.FromName headers loader_name = Some loader →
  pe.FromName headers code_name = Some code →
  Forall (protector.resolves loader_name code_name headers text_header n) fixups →
  ∀ image, length image = n →
  ∃ image',
    protector.apply_fixups loader_name code_name headers text_header fixups image
    = Ok image'.
Proof.
  intros Hloader Hcode Hall. unfold protector.apply_fixups.
  induction Hall as [|fixup fixups Hfixup Hall IH]; intros image Hlength;
    cbn [protector.foldM]; [by eexists|].
  rewrite <- Hlength in Hfixup.
  destruct (apply_fixup_resolves _ _ _ _ _ Hloader Hcode Hfixup) as [image1 Hone].
  rewrite Hone. apply IH.
  rewrite (apply_fixup_length _ _ _ _ _ _ _ Hone). done.
Qed.

(** A fixup that misses a range misses every window of the range. *)
Lemma misses_window headers lo (n : nat) site (m : nat) fixup :
  protector.misses loader_name code_name headers text_header lo n fixup →
  lo <= site → site + Z.of_nat m <= lo + Z.of_nat n →
  protector.misses loader_name code_name headers text_header site m fixup.
Proof. intros Hmiss Hlo Hhi fo Hfo. specialize (Hmiss fo Hfo). lia. Qed.

(** A window of the section in an image that carries the section. *)
Lemma carried_window (image section : list Z) (first off : Z) (m : nat) :
  0 <= first → 0 <= off → (0 < m)%nat →
  off + Z.of_nat m <= Z.of_nat (length section) →
  take (length section) (drop (Z.to_nat first) image) = section →
  take m (drop (Z.to_nat (first + off)) image) = take m (drop (Z.to_nat off) section)
  ∧ first + Z.of_nat (length section) <= Z.of_nat (length image).
Proof.
  intros Hfirst Hoff Hpos Hm Hcarry. split.
  - rewrite <- Hcarry at 1.
    replace (length section) with (Z.to_nat off + (length section - Z.to_nat off))%nat
      by lia.
    rewrite <- take_drop_commute, take_take, drop_drop.
    replace (m `min` (length section - Z.to_nat off))%nat with m by lia.
    do 2 f_equal. lia.
  - apply (f_equal length) in Hcarry. rewrite length_take, length_drop in Hcarry.
    lia.
Qed.


End RunOfTheCallbacks.



(* --------------------------------------------------------------------- *)
(** ** The disassembly engine *)

Section JumpTable.

Variable arch : Arch.
Variable pe_ : pe.PortableExecutable.
Variable instruction : capstone.cs_insn.
Variable operand : capstone.cs_x86_op.
Variable operand_rva : Z.

Lemma AddDisassemblyPoint_current_instruction_code e point :
  PeDisassemblyEngine.current_instruction_code_
    (PeDisassemblyEngine.AddDisassemblyPoint e point)
  = PeDisassemblyEngine.current_instruction_code_ e.
Proof.
  unfold PeDisassemblyEngine.AddDisassemblyPoint. by case_bool_decide.
Qed.

(** The scan of a table: [entries] are the DWORDs that are enqueued, [stop]
    is the first DWORD that is not.  The loop enqueues the entries in
    order and breaks with [i] at the offset of [stop]; it needs one turn
    per entry and one for [stop]. *)
Lemma ParseJumpTable_loop_scan (entries : list Z) (stop : Z) : ∀ fuel e i,
  let table e :=
    PeDisassemblyEngine.code
      (PeDisassemblyEngine.GetOperandDestinationValueDisassasemblyPoint arch pe_
         instruction (PeDisassemblyEngine.current_instruction_code_ e)
         operand_rva) in
  let enqueue e v :=
    PeDisassemblyEngine.AddDisassemblyPoint e
      {| PeDisassemblyEngine.rva := PeDisassemblyEngine.item_rva arch pe_ v;
         PeDisassemblyEngine.code :=
           uptr arch
             (PeDisassemblyEngine.current_instruction_code_ e
              + u64 (PeDisassemblyEngine.item_rva arch pe_ v
                     - capstone.address instruction)) |} in
  capstone.scale (capstone.mem operand) = 4 →
  (∃ section,
     pe.FromRva (PeDisassemblyEngine.pe_section_headers_ pe_) operand_rva
     = Some section) →
  (∀ (k : nat) v, entries !! k = Some v →
     read_le (pe.GetPeImage pe_) (uptr arch (table e + (i + 4 * Z.of_nat k))) 4
     = Some v
     ∧ v ≠ 0xCCCCCCCC ∧ v ≠ 0
     ∧ PeDisassemblyEngine.IsRvaWithinText pe_
         (PeDisassemblyEngine.item_rva arch pe_ v) = Ok true) →
  read_le (pe.GetPeImage pe_)
    (uptr arch (table e + (i + 4 * Z.of_nat (length entries)))) 4 = Some stop →
  (stop = 0xCCCCCCCC ∨ stop = 0
   ∨ PeDisassemblyEngine.IsRvaWithinText pe_
       (PeDisassemblyEngine.item_rva arch pe_ stop) = Ok false) →
  (length entries < fuel)%nat →
  PeDisassemblyEngine.ParseJumpTable_loop arch pe_ fuel e instruction operand
    operand_rva i
  = Ok (fold_left enqueue entries e, i + 4 * Z.of_nat (length entries)).
Proof.
  induction entries as [|v entries IH];
    intros fuel e i table enqueue Hscale [section Hsection] Hentries Hstop Hlast Hfuel;
    (destruct fuel as [|fuel]; [simpl in Hfuel; lia|]);
    cbn [PeDisassemblyEngine.ParseJumpTable_loop];
    change (PeDisassemblyEngine.rva
              (PeDisassemblyEngine.GetOperandDestinationValueDisassasemblyPoint
                 arch pe_ instruction
                 (PeDisassemblyEngine.current_instruction_code_ e) operand_rva))
      with operand_rva;
    rewrite Hsection; fold (table e).
  - cbn [length Z.of_nat] in Hstop. rewrite Z.mul_0_r, Z.add_0_r in Hstop.
    rewrite Hstop. cbn [deref mbind Result_bind fold_left length Z.of_nat].
    rewrite Z.mul_0_r, Z.add_0_r.
    destruct Hlast as [->|[->|Hout]]; [reflexivity|reflexivity|].
    destruct ((stop =? 0xCCCCCCCC) || (stop =? 0)); [reflexivity|].
    rewrite Hout. reflexivity.
  - destruct (Hentries O v eq_refl) as (Hread & Hcc & Hzero & Hin).
    rewrite Z.mul_0_r, Z.add_0_r in Hread. rewrite Hread.
    cbn [deref mbind Result_bind].
    rewrite (proj2 (Z.eqb_neq _ _) Hcc), (proj2 (Z.eqb_neq _ _) Hzero).
    cbn [orb]. rewrite Hin. cbn [mbind Result_bind negb].
    rewrite Hscale. fold (enqueue e v).
    etransitivity; [apply (IH fuel (enqueue e v) (i + 4))|].
    + exact Hscale.
    + eauto.
    + intros k w Hk. unfold enqueue.
      rewrite AddDisassemblyPoint_current_instruction_code.
      replace (i + 4 + 4 * Z.of_nat k) with (i + 4 * Z.of_nat (S k)) by lia.
      by apply Hentries.
    + unfold enqueue. rewrite AddDisassemblyPoint_current_instruction_code.
      replace (i + 4 + 4 * Z.of_nat (length entries))
        with (i + 4 * Z.of_nat (length (v :: entries)))
        by (cbn [length]; lia).
      exact Hstop.
    + exact Hlast.
    + cbn [length] in Hfuel. lia.
    + cbn [fold_left length]. do 2 f_equal. lia.
Qed.

(** The range that [ParseJumpTable] records spans the entries that were
    enqueued: it ends where the entry that stopped the scan begins. *)
Lemma ParseJumpTable_scan (entries : list Z) (stop : Z) fuel e :
  let table :=
    PeDisassemblyEngine.code
      (PeDisassemblyEngine.GetOperandDestinationValueDisassasemblyPoint arch pe_
         instruction (PeDisassemblyEngine.current_instruction_code_ e)
         operand_rva) in
  let enqueue e v :=
    PeDisassemblyEngine.AddDisassemblyPoint e
      {| PeDisassemblyEngine.rva := PeDisassemblyEngine.item_rva arch pe_ v;
         PeDisassemblyEngine.code :=
           uptr arch
             (PeDisassemblyEngine.current_instruction_code_ e
              + u64 (PeDisassemblyEngine.item_rva arch pe_ v
                     - capstone.address instruction)) |} in
  PeDisassemblyEngine.GetOperandRva arch operand
    (PeDisassemblyEngine.pe_image_base_ pe_) = Ok operand_rva →
  capstone.scale (capstone.mem operand) = 4 →
  (∃ section,
     pe.FromRva (PeDisassemblyEngine.pe_section_headers_ pe_) operand_rva
     = Some section) →
  (∀ (k : nat) v, entries !! k = Some v →
     read_le (pe.GetPeImage pe_) (uptr arch (table + (0 + 4 * Z.of_nat k))) 4
     = Some v
     ∧ v ≠ 0xCCCCCCCC ∧ v ≠ 0
     ∧ PeDisassemblyEngine.IsRvaWithinText pe_
         (PeDisassemblyEngine.item_rva arch pe_ v) = Ok true) →
  read_le (pe.GetPeImage pe_)
    (uptr arch (table + (0 + 4 * Z.of_nat (length entries)))) 4 = Some stop →
  (stop = 0xCCCCCCCC ∨ stop = 0
   ∨ PeDisassemblyEngine.IsRvaWithinText pe_
       (PeDisassemblyEngine.item_rva arch pe_ stop) = Ok false) →
  (length entries < fuel)%nat →
  PeDisassemblyEngine.ParseJumpTable arch pe_ fuel e instruction operand
  = Ok (PeDisassemblyEngine.push_data_range (fold_left enqueue entries e)
          {| PeDisassemblyEngine.begin_address := operand_rva;
             PeDisassemblyEngine.end_address :=
               uptr arch (operand_rva + 4 * Z.of_nat (length entries)) |}).
Proof.
  intros table enqueue Hrva Hscale Hsection Hentries Hstop Hlast Hfuel.
  unfold PeDisassemblyEngine.ParseJumpTable.
  rewrite Hrva. cbn [mbind Result_bind].
  rewrite (ParseJumpTable_loop_scan entries stop fuel e 0
             Hscale Hsection Hentries Hstop Hlast Hfuel).
  reflexivity.
Qed.

End JumpTable.

(** C3, as the code has it.  On S1 the parser enqueues exactly the RVAs
    0x1030 and 0x1040, stops at the zero entry, and records the data range
    [0x1020, 0x1028): the range ends where the entry that stopped the scan
    begins, that is at [table_rva + 4 * (number of entries enqueued)]. *)
Theorem ParseJumpTable_S1 (cs_disasm : Z → Z → Z → nat → list capstone.cs_insn)
    (cs_disasm_iter : Z → Z → Z → option capstone.cs_insn) (n : nat) :
  ∃ e,
    PeDisassemblyEngine.ParseInstruction X86 scenario.S1_pe cs_disasm
      cs_disasm_iter (3 + n) scenario.S1_engine scenario.S1_jmp
    = Ok (PeDisassemblyEngine.NextDisassemblyPoint, e)
    ∧ PeDisassemblyEngine.ParseJumpTable X86 scenario.S1_pe (3 + n)
        scenario.S1_engine scenario.S1_jmp scenario.S1_operand = Ok e
    ∧ map PeDisassemblyEngine.rva (PeDisassemblyEngine.disassembly_points_ e)
      = [0x1030; 0x1040]
    ∧ elements (PeDisassemblyEngine.disassembly_points_cache_ e)
      = [0x1030; 0x1040]
    ∧ read_le (pe.GetPeImage scenario.S1_pe) (0x60 + 8) 4 = Some 0
    ∧ PeDisassemblyEngine.data_ranges_ e
      = [ {| PeDisassemblyEngine.begin_address := 0x1020;
             PeDisassemblyEngine.end_address := 0x1020 + 4 * 2 |} ].
Proof.
  eexists. split; [vm_compute; reflexivity|].
  split; [vm_compute; reflexivity|].
  split; [reflexivity|]. split; [vm_compute; reflexivity|].
  split; reflexivity.
Qed.

(** The range of S1 does not reach 0x102C. *)
Lemma ParseJumpTable_S1_range_excludes_terminator :
  ¬ ∃ e,
      PeDisassemblyEngine.ParseJumpTable X86 scenario.S1_pe 3
        scenario.S1_engine scenario.S1_jmp scenario.S1_operand = Ok e
      ∧ PeDisassemblyEngine.data_ranges_ e
        = [ {| PeDisassemblyEngine.begin_address := 0x1020;
               PeDisassemblyEngine.end_address := 0x102C |} ].
Proof.
  intros (e & Hrun & Hrange).
  vm_compute in Hrun. injection Hrun as <-.
  vm_compute in Hrange. discriminate Hrange.
Qed.

Section FunctionPrologue.

Variable arch : Arch.
Variable pe_ : pe.PortableExecutable.
Variable cs_disasm : Z → Z → Z → nat → list capstone.cs_insn.
Variable cs_disasm_iter : Z → Z → Z → option capstone.cs_insn.

(** Past the bound the x86 test answers [false] at once. *)
Lemma IsFunctionX86_bound_exceeded fuel e code rva recursion_counter :
  10 < recursion_counter →
  PeDisassemblyEngine.IsFunctionX86 arch pe_ cs_disasm (S fuel) e code rva
    recursion_counter = Ok false.
Proof.
  intros Hc. simpl. by destruct (Z.ltb_spec 10 recursion_counter); [|lia].
Qed.

(** The x86 test returns: [12 - recursion_counter] nested calls are enough,
    whatever the decoder answers. *)
Lemma IsFunctionX86_returns e fuel : ∀ code rva recursion_counter,
  11 - recursion_counter <= Z.of_nat fuel →
  PeDisassemblyEngine.IsFunctionX86 arch pe_ cs_disasm (S fuel) e code rva
    recursion_counter ≠ OutOfFuel.
Proof.
  induction fuel as [|fuel IH]; intros code rva c Hfuel.
  - rewrite IsFunctionX86_bound_exceeded by lia. done.
  - remember (S fuel) as fuel' eqn:Hfuel'.
    cbn [PeDisassemblyEngine.IsFunctionX86].
    destruct (Z.ltb_spec 10 c); [done|].
    destruct (negb _); [done|].
    destruct (PeDisassemblyEngine.IsGuaranteedJump _).
    + unfold PeDisassemblyEngine.IsRvaWithinText.
      destruct (PeDisassemblyEngine.pe_text_section_header_ pe_) as [text|];
        cbn [deref mbind Result_bind]; [|done].
      destruct (pe.IsRvaWithinSection text _); cbn [negb]; [|done].
      subst fuel'. apply IH. lia.
    + repeat match goal with
             | |- (if ?c then _ else _) ≠ _ => destruct c
             end; done.
Qed.

End FunctionPrologue.

(** C6 on a jump to itself.  The x64 test has no counter: on [jmp $] it
    calls itself with the same arguments for ever, so that no amount of
    fuel makes it return, while the x86 test gives up on the same bytes. *)
Theorem IsFunctionX64_follows_jumps_without_bound (fuel : nat) :
  PeDisassemblyEngine.IsFunctionX64 X64 scenario.self_jump_pe
    scenario.self_jump_iter fuel scenario.self_jump_engine 0x40 0x1000
  = OutOfFuel
  ∧ PeDisassemblyEngine.IsFunctionX86 X86 scenario.self_jump_pe
      scenario.self_jump_disasm (12 + fuel) scenario.self_jump_engine 0x40 0x1000 0
    = Ok false.
Proof.
  split.
  - induction fuel as [|fuel IH]; [reflexivity|].
    etransitivity; [|exact IH]. reflexivity.
  - reflexivity.
Qed.

Section MovImmediate.

Variable arch : Arch.
Variable pe_ : pe.PortableExecutable.
Variable cs_disasm : Z → Z → Z → nat → list capstone.cs_insn.
Variable cs_disasm_iter : Z → Z → Z → option capstone.cs_insn.

(** A [MOV] whose second operand is an immediate is never a jump table. *)
Lemma IsJumpTable_mov_imm e instruction code rva :
  capstone.op_count (capstone.detail instruction) = 2 →
  capstone.type (capstone.operand instruction 1) = capstone.X86_OP_IMM →
  PeDisassemblyEngine.IsJumpTable arch pe_ cs_disasm_iter e instruction code rva
  = Ok false.
Proof.
  intros Hcount Himm. unfold PeDisassemblyEngine.IsJumpTable.
  rewrite Hcount. destruct arch; [reflexivity|]. cbn [Z.eqb Pos.eqb].
  unfold PeDisassemblyEngine.IsJumpTableX64. rewrite Himm.
  by repeat (case_bool_decide; cbn [andb]).
Qed.

(** An RVA inside [.text] lies inside some section. *)
Lemma IsRvaWithinText_FromRva rva :
  PeDisassemblyEngine.IsRvaWithinText pe_ rva = Ok true →
  ∃ section, pe.FromRva (PeDisassemblyEngine.pe_section_headers_ pe_) rva
             = Some section.
Proof.
  unfold PeDisassemblyEngine.IsRvaWithinText,
    PeDisassemblyEngine.pe_text_section_header_, pe.FromName, pe.FromRva.
  destruct (find _ _) as [text|] eqn:Htext; [|discriminate].
  cbn. intros [= Hin]. apply find_some in Htext as [Hmem _].
  destruct (find (λ h, pe.IsRvaWithinSection h rva) _) as [s|] eqn:Hfind; [eauto|].
  pose proof (find_none _ _ Hfind _ Hmem) as Hnone. cbn in Hnone. congruence.
Qed.

(** C8, as the code has it.  For a decoded [MOV mem, imm] (two operands,
    the first a memory operand; a [MOV] is in none of the groups return,
    call, jump and interrupt, which the engine tests first) whose immediate
    gives an RVA inside [.text] that passes the function-prologue test, the
    engine enqueues the RVA and goes on with the next instruction. *)
Theorem mov_mem_imm_enqueues_function fuel e instruction rva :
  let point :=
    PeDisassemblyEngine.GetOperandDestinationValueDisassasemblyPoint arch pe_
      instruction (PeDisassemblyEngine.current_instruction_code_ e) rva in
  capstone.id instruction = capstone.X86_INS_MOV →
  capstone.cs_insn_group instruction capstone.CS_GRP_RET = false →
  capstone.cs_insn_group instruction capstone.CS_GRP_CALL = false →
  capstone.cs_insn_group instruction capstone.CS_GRP_JUMP = false →
  capstone.cs_insn_group instruction capstone.CS_GRP_INT = false →
  capstone.op_count (capstone.detail instruction) = 2 →
  capstone.type (capstone.operand instruction 0) = capstone.X86_OP_MEM →
  capstone.type (capstone.operand instruction 1) = capstone.X86_OP_IMM →
  PeDisassemblyEngine.GetOperandRva arch (capstone.operand instruction 1)
    (PeDisassemblyEngine.pe_image_base_ pe_) = Ok rva →
  PeDisassemblyEngine.IsRvaWithinText pe_ rva = Ok true →
  PeDisassemblyEngine.IsFunction arch pe_ cs_disasm cs_disasm_iter fuel e
    (PeDisassemblyEngine.code point) rva = Ok true →
  PeDisassemblyEngine.ParseInstruction arch pe_ cs_disasm cs_disasm_iter fuel e
    instruction
  = Ok (PeDisassemblyEngine.NextInstruction,
        PeDisassemblyEngine.AddDisassemblyPoint e point)
  ∧ rva ∈ PeDisassemblyEngine.disassembly_points_cache_
            (PeDisassemblyEngine.AddDisassemblyPoint e point)
  ∧ (rva ∉ PeDisassemblyEngine.disassembly_points_cache_ e →
     PeDisassemblyEngine.disassembly_points_
       (PeDisassemblyEngine.AddDisassemblyPoint e point)
     = PeDisassemblyEngine.disassembly_points_ e ++ [point]).
Proof.
  intros point Hid Hret Hcall Hjump Hint Hcount Hmem Himm Hrva Htext Hfunction.
  destruct (IsRvaWithinText_FromRva rva Htext) as [section Hsection].
  split; [|split].
  - unfold PeDisassemblyEngine.ParseInstruction.
    rewrite Hid, Hret, Hcall, Hjump, Hint, Hcount.
    cbn [orb Z.eqb Pos.eqb].
    rewrite IsJumpTable_mov_imm by done. cbn [mbind Result_bind].
    unfold PeDisassemblyEngine.IsVTableOrFunction.
    rewrite Hmem, Himm, Hrva.
    rewrite !bool_decide_eq_true_2 by done. cbn [andb mbind Result_bind].
    rewrite Hsection. cbn [mbind Result_bind].
    change (PeDisassemblyEngine.rva
              (PeDisassemblyEngine.GetOperandDestinationValueDisassasemblyPoint
                 arch pe_ instruction
                 (PeDisassemblyEngine.current_instruction_code_ e) rva))
      with rva.
    rewrite Htext. cbn [mbind Result_bind].
    fold point. change (PeDisassemblyEngine.rva point) with rva.
    rewrite Hfunction. reflexivity.
  - unfold PeDisassemblyEngine.AddDisassemblyPoint.
    change (PeDisassemblyEngine.rva point) with rva.
    case_bool_decide; [done|]. cbn. set_solver.
  - intros Hfresh. unfold PeDisassemblyEngine.AddDisassemblyPoint.
    change (PeDisassemblyEngine.rva point) with rva.
    by rewrite bool_decide_eq_false_2 by done.
Qed.

(** If [.rdata] is missing, [ParseRDataSection] throws. *)
Lemma ParseRDataSection_throws fuel e :
  pe.FromName (pe.GetSectionHeaders pe_) ".rdata" = None →
  PeDisassemblyEngine.ParseRDataSection arch pe_ cs_disasm cs_disasm_iter fuel e
  = Throw ".rdata was not found".
Proof.
  intros Hnone. unfold PeDisassemblyEngine.ParseRDataSection,
    PeDisassemblyEngine.pe_section_headers_. by rewrite Hnone.
Qed.

End MovImmediate.

Lemma mov_mem_imm_enqueues_function_witness :
  PeDisassemblyEngine.ParseInstruction X86 scenario.S1_pe scenario.prologue_decoder
    scenario.no_iter 5 scenario.S1_engine scenario.mov_mem_imm
  = Ok (PeDisassemblyEngine.NextInstruction,
        PeDisassemblyEngine.AddDisassemblyPoint scenario.S1_engine
          {| PeDisassemblyEngine.rva := 0x1030; PeDisassemblyEngine.code := 0x70 |}).
Proof.
  exact (proj1 (mov_mem_imm_enqueues_function X86 scenario.S1_pe
                  scenario.prologue_decoder scenario.no_iter 5 scenario.S1_engine
                  scenario.mov_mem_imm 0x1030
                  eq_refl eq_refl eq_refl eq_refl eq_refl eq_refl eq_refl eq_refl
                  eq_refl eq_refl eq_refl)).
Defined.

(** The reading of C8 that covers a register destination does not hold:
    [mov eax, 0x401030] enqueues nothing, although 0x1030 lies in [.text]
    and passes the function-prologue test. *)
Lemma mov_reg_imm_enqueues_nothing :
  PeDisassemblyEngine.IsRvaWithinText scenario.S1_pe 0x1030 = Ok true
  ∧ PeDisassemblyEngine.IsFunction X86 scenario.S1_pe scenario.prologue_decoder
      scenario.no_iter 5 scenario.S1_engine 0x70 0x1030 = Ok true
  ∧ ¬ ∃ e point,
        PeDisassemblyEngine.ParseInstruction X86 scenario.S1_pe
          scenario.prologue_decoder scenario.no_iter 5 scenario.S1_engine
          scenario.mov_reg_imm = Ok (PeDisassemblyEngine.NextInstruction, e)
        ∧ point ∈ PeDisassemblyEngine.disassembly_points_ e
        ∧ PeDisassemblyEngine.rva point = 0x1030.
Proof.
  split; [reflexivity|]. split; [reflexivity|].
  intros (e & point & Hrun & Hin & _).
  vm_compute in Hrun. injection Hrun as <-. inversion Hin.
Qed.

(** C10. Without a section named [.rdata] the scan of [.rdata] throws
    the runtime error ".rdata was not found"; it does not skip the scan. *)
Theorem ParseRDataSection_requires_rdata (arch : Arch) (pe_ : pe.PortableExecutable)
    (cs_disasm : Z → Z → Z → nat → list capstone.cs_insn)
    (cs_disasm_iter : Z → Z → Z → option capstone.cs_insn)
    (fuel : nat) (e : PeDisassemblyEngine.Engine) :
  (∀ section, section ∈ pe.GetSectionHeaders pe_ → pe.Name section ≠ ".rdata") →
  PeDisassemblyEngine.ParseRDataSection arch pe_ cs_disasm cs_disasm_iter fuel e
  = Throw ".rdata was not found"
  ∧ ∀ e', PeDisassemblyEngine.ParseRDataSection arch pe_ cs_disasm cs_disasm_iter
            fuel e ≠ Ok e'.
Proof.
  intros Hmissing.
  assert (Hnone : pe.FromName (pe.GetSectionHeaders pe_) ".rdata" = None).
  { unfold pe.FromName.
    destruct (find _ _) as [s|] eqn:Hfind; [|done].
    apply find_some in Hfind as [Hmem Hname].
    apply String.eqb_eq in Hname. apply list_elem_of_In in Hmem.
    by destruct (Hmissing s Hmem). }
  rewrite (ParseRDataSection_throws arch pe_ cs_disasm cs_disasm_iter fuel e Hnone).
  split; [reflexivity|]. intros e'. discriminate.
Qed.

Lemma ParseRDataSection_requires_rdata_witness :
  PeDisassemblyEngine.ParseRDataSection X86 scenario.S1_pe scenario.prologue_decoder
    scenario.no_iter 5 scenario.S1_engine
  = Throw ".rdata was not found".
Proof.
  apply (ParseRDataSection_requires_rdata X86 scenario.S1_pe
           scenario.prologue_decoder scenario.no_iter 5 scenario.S1_engine).
  intros section Hin.
  apply list_elem_of_singleton in Hin as ->. discriminate.
Defined.

(* --------------------------------------------------------------------- *)
(** ** Relocations of an instruction, in any order *)

Section RelocationsAnyOrder.

Import protector.

Lemma find_first_relocation_found (l : list Z) a n : ∀ i it,
  0 <= a → 0 <= i → a + i + Z.of_nat n <= 2 ^ 64 →
  find_first_relocation l a i n = Some it →
  ∃ x, l !! it = Some x ∧ a + i <= x < a + i + Z.of_nat n.
Proof.
  induction n as [|n IH]; intros i it Ha Hi Hfit H; [done|].
  simpl in H.
  assert (u64 (a + i) = a + i) as Hsmall by (apply u64_small; lia).
  rewrite Hsmall in H.
  destruct (l !! lower_bound l (a + i)) as [x|] eqn:Hx.
  - destruct (Z.eqb_spec x (a + i)) as [->|Hne].
    + injection H as <-. exists (a + i). split; [done|lia].
    + destruct (IH (i + 1) it) as (y & Hy & Hrange); [lia..|done|].
      exists y. split; [done|lia].
  - destruct (IH (i + 1) it) as (y & Hy & Hrange); [lia..|done|].
    exists y. split; [done|lia].
Qed.

Lemma collect_following_prefix a s (rest : list Z) :
  0 <= a + s < 2 ^ 64 →
  ∃ tail, rest = collect_following a s rest ++ tail
          ∧ Forall (λ r, a <= r < a + s) (collect_following a s rest).
Proof.
  intros Hfit.
  induction rest as [|r rest IH]; simpl.
  - by exists [].
  - rewrite (u64_small (a + s)) by done.
    destruct ((a <=? r) && (r <? a + s)) eqn:Hin.
    + destruct IH as (tail & Htail & Hall). exists tail. split.
      * simpl. by rewrite <- Htail.
      * constructor; [lia|done].
    + exists (r :: rest). by split.
Qed.

(** X1.  Whatever the order of the vector of relocation RVAs, every RVA that
    [GetRelocationsWithinInstruction] returns lies inside the instruction,
    the result is a run of consecutive elements of the vector, and an
    instruction of size 0 has no relocation.  (On a vector that is not
    sorted the binary search can miss relocations of the instruction; what
    is returned is still inside it.) *)
Theorem GetRelocationsWithinInstruction_sound (a s : Z) (relocs : list Z) :
  0 <= a → 0 <= s → a + s < 2 ^ 64 →
  Forall (λ r, a <= r < a + s) (GetRelocationsWithinInstruction a s relocs)
  ∧ (∃ before after,
       relocs = before ++ GetRelocationsWithinInstruction a s relocs ++ after)
  ∧ (s = 0 → GetRelocationsWithinInstruction a s relocs = []).
Proof.
  intros Ha Hs Hfit. unfold GetRelocationsWithinInstruction.
  destruct (find_first_relocation relocs a 0 (Z.to_nat s)) as [it|] eqn:Hfirst.
  - destruct (find_first_relocation_found relocs a (Z.to_nat s) 0 it)
      as (x & Hx & Hrange); [lia..|done|].
    rewrite Hx.
    destruct (collect_following_prefix a s (drop (S it) relocs))
      as (tail & Htail & Hall); [lia|].
    split; [|split].
    + constructor; [lia|done].
    + exists (take it relocs), tail. simpl. rewrite <- Htail.
      symmetry. by apply take_drop_middle.
    + intros ->. simpl in Hfirst. done.
  - split; [done|]. split; [|done]. by exists [], relocs.
Qed.

End RelocationsAnyOrder.

Lemma GetRelocationsWithinInstruction_sound_witness :
  protector.GetRelocationsWithinInstruction 0x1000 5 [0x2000; 0x1001; 0x1002; 0x3000]
  = [0x1002]
  ∧ protector.GetRelocationsWithinInstruction 0x1000 5 [0x1004; 0x1001; 0x2000] = []
  ∧ Forall (λ r, 0x1000 <= r < 0x1000 + 5)
      (protector.GetRelocationsWithinInstruction 0x1000 5
         [0x2000; 0x1001; 0x1002; 0x3000]).
Proof.
  split; [reflexivity|]. split; [reflexivity|].
  apply (GetRelocationsWithinInstruction_sound 0x1000 5
           [0x2000; 0x1001; 0x1002; 0x3000]); lia.
Defined.

(* --------------------------------------------------------------------- *)
(** ** Exported functions *)

Section Exports.

Import protector.

Lemma find_app_none {A} (f : A → bool) (l1 l2 : list A) :
  (∀ x, x ∈ l1 → f x = false) → find f (l1 ++ l2) = find f l2.
Proof.
  induction l1 as [|x l1 IH]; intros H; simpl; [done|].
  rewrite (H x) by apply list_elem_of_here.
  apply IH. intros y Hy. apply H. by apply list_elem_of_further.
Qed.

Lemma GetExportedFunctionOffsetRelativeToSection_missing
    (p : pe.PortableExecutable) (function_name : string) :
  (∀ exprt, exprt ∈ pe.GetExports p → pe.function_name exprt ≠ function_name) →
  GetExportedFunctionOffsetRelativeToSection p function_name
  = Throw ("Unable to find the" +:+ function_name).
Proof.
  intros Hnone. unfold GetExportedFunctionOffsetRelativeToSection.
  destruct (find _ _) as [exprt|] eqn:Hfind; [|done].
  apply find_some in Hfind as [Hin Hname].
  apply String.eqb_eq in Hname. apply list_elem_of_In in Hin.
  by destruct (Hnone exprt Hin).
Qed.

(** X2.  [GetExportedFunctionOffsetRelativeToSection] answers for the first
    export of that name: the RVA of the function minus the virtual address
    of the section that holds it, as a 32 bit value.  With no export of that
    name it throws [Unable to find the] followed by the name, with no space
    between the two.  When the RVA of the export lies in no section, the
    null section header is dereferenced. *)
Theorem GetExportedFunctionOffsetRelativeToSection_first_match
    (p : pe.PortableExecutable) (function_name : string) :
  ((∀ exprt, exprt ∈ pe.GetExports p → pe.function_name exprt ≠ function_name) →
   GetExportedFunctionOffsetRelativeToSection p function_name
   = Throw ("Unable to find the" +:+ function_name))
  ∧ (∀ before exprt after section,
       pe.GetExports p = before ++ exprt :: after →
       (∀ other, other ∈ before → pe.function_name other ≠ function_name) →
       pe.function_name exprt = function_name →
       pe.FromRva (pe.GetSectionHeaders p) (pe.function_addr_rva exprt)
         = Some section →
       GetExportedFunctionOffsetRelativeToSection p function_name
       = Ok (u32 (pe.function_addr_rva exprt - pe.VirtualAddress section)))
  ∧ (∀ before exprt after,
       pe.GetExports p = before ++ exprt :: after →
       (∀ other, other ∈ before → pe.function_name other ≠ function_name) →
       pe.function_name exprt = function_name →
       pe.FromRva (pe.GetSectionHeaders p) (pe.function_addr_rva exprt) = None →
       GetExportedFunctionOffsetRelativeToSection p function_name = Undefined).
Proof.
  split; [apply GetExportedFunctionOffsetRelativeToSection_missing|].
  unfold GetExportedFunctionOffsetRelativeToSection.
  split.
  - intros before exprt after section -> Hbefore Hname Hsection.
    rewrite find_app_none.
    2: { intros other Hother. apply String.eqb_neq. by apply Hbefore. }
    simpl. rewrite (proj2 (String.eqb_eq _ _) Hname), Hsection. done.
  - intros before exprt after -> Hbefore Hname Hsection.
    rewrite find_app_none.
    2: { intros other Hother. apply String.eqb_neq. by apply Hbefore. }
    simpl. rewrite (proj2 (String.eqb_eq _ _) Hname), Hsection. done.
Qed.

End Exports.

(* --------------------------------------------------------------------- *)
(** ** The callback list of the input *)

Section CallbackList.

Import protector.

Variable arch : Arch.

Lemma length_pointer_list_bytes (l : list Z) :
  length (pointer_list_bytes arch l) = (length l * ptr_bytes arch)%nat.
Proof.
  unfold pointer_list_bytes. induction l as [|x l IH]; simpl; [done|].
  by rewrite length_app, length_le_bytes, IH.
Qed.

Lemma pointer_list_bytes_app (l1 l2 : list Z) :
  pointer_list_bytes arch (l1 ++ l2)
  = pointer_list_bytes arch l1 ++ pointer_list_bytes arch l2.
Proof. unfold pointer_list_bytes. by rewrite map_app, concat_app. Qed.

Lemma pointer_list_bytes_cons v (l : list Z) :
  pointer_list_bytes arch (v :: l)
  = le_bytes (ptr_bytes arch) v ++ pointer_list_bytes arch l.
Proof. done. Qed.

Lemma sizeof_uintptr_ptr_bytes : sizeof_uintptr arch = Z.of_nat (ptr_bytes arch).
Proof. by destruct arch. Qed.

(** Reading slot [k] of a pointer list that lies in a buffer. *)
Lemma read_le_pointer_list (before after l : list Z) (k : nat) v :
  l !! k = Some v →
  read_le (before ++ pointer_list_bytes arch l ++ after)
    (Z.of_nat (length before) + Z.of_nat k * sizeof_uintptr arch) (ptr_bytes arch)
  = Some (uptr arch v).
Proof.
  intros Hk.
  apply list_elem_of_split_length in Hk as (l1 & l2 & -> & ->).
  unfold read_le.
  rewrite !length_app, length_pointer_list_bytes, length_app. simpl length.
  rewrite sizeof_uintptr_ptr_bytes.
  destruct (_ && _) eqn:Hrange.
  2: { exfalso. clear -Hrange.
       apply andb_false_iff in Hrange as [Hrange|Hrange];
         [apply Z.leb_gt in Hrange|apply Z.leb_gt in Hrange];
         destruct arch; simpl in Hrange; lia. }
  f_equal.
  replace (Z.to_nat (Z.of_nat (length before) + Z.of_nat (length l1)
                     * Z.of_nat (ptr_bytes arch)))
    with (length before + length (pointer_list_bytes arch l1))%nat
    by (rewrite length_pointer_list_bytes; destruct arch;
        [change (ptr_bytes X86) with 4%nat|change (ptr_bytes X64) with 8%nat]; lia).
  rewrite pointer_list_bytes_app, pointer_list_bytes_cons.
  rewrite <- drop_drop, drop_app_length.
  rewrite <- !app_assoc, drop_app_length.
  rewrite take_app_length' by (by rewrite length_le_bytes).
  rewrite le_value_le_bytes. unfold uptr, wrap. by rewrite ptr_bits.
Qed.

Lemma CopyTlsCallbackList_loop_reads (before after : list Z) :
  ∀ (callbacks done : list Z) fuel,
  Forall (λ c, 0 < c < 2 ^ (8 * sizeof_uintptr arch)) callbacks →
  (length callbacks < fuel)%nat →
  CopyTlsCallbackList_loop arch fuel
    (before ++ pointer_list_bytes arch (done ++ callbacks ++ [0]) ++ after)
    (Z.of_nat (length before)) (Z.of_nat (length done)) done
  = Ok (done ++ callbacks).
Proof.
  induction callbacks as [|c callbacks IH]; intros done fuel Hall Hfuel.
  - destruct fuel as [|fuel]; [simpl in Hfuel; lia|]. simpl.
    rewrite (read_le_pointer_list _ _ _ (length done) 0).
    2: { rewrite lookup_app_r by lia. by rewrite Nat.sub_diag. }
    simpl. by rewrite app_nil_r.
  - destruct fuel as [|fuel]; [simpl in Hfuel; lia|].
    apply Forall_cons in Hall as [Hc Hall].
    cbn [CopyTlsCallbackList_loop].
    rewrite (read_le_pointer_list _ _ _ (length done) c).
    2: { rewrite lookup_app_r by lia. by rewrite Nat.sub_diag. }
    assert (uptr arch c = c) as ->.
    { unfold uptr, wrap. apply Z.mod_small. lia. }
    cbn [mbind Result_bind deref].
    destruct (Z.eqb_spec c 0) as [->|_]; [lia|]. cbn [negb].
    replace (Z.of_nat (length done) + 1) with (Z.of_nat (length (done ++ [c])))
      by (rewrite length_app; simpl; lia).
    replace (done ++ (c :: callbacks) ++ [0]) with ((done ++ [c]) ++ callbacks ++ [0])
      by (by rewrite <- app_assoc).
    rewrite IH; [by rewrite <- app_assoc|done|simpl in Hfuel; lia].
Qed.

(** X3.  A callback list that lies in the image at the file offset of
    [AddressOfCallBacks], each entry not zero and fitting a pointer, and that
    ends with a null pointer, is read by [CopyTlsCallbackList] in full and in
    order, the null pointer left out. *)
Theorem CopyTlsCallbackList_reads_what_was_written
    (fuel : nat) (image before after callbacks : list Z)
    (AddressOfCallBacks : Z) (sections : pe.SectionHeaders) (image_base : Z) :
  AddressOfCallBacks ≠ 0 →
  pe.RvaToFileOffset sections (uptr arch (AddressOfCallBacks - image_base))
    = Z.of_nat (length before) →
  image = before ++ pointer_list_bytes arch (callbacks ++ [0]) ++ after →
  Forall (λ c, 0 < c < 2 ^ (8 * sizeof_uintptr arch)) callbacks →
  (length callbacks < fuel)%nat →
  CopyTlsCallbackList arch fuel image AddressOfCallBacks sections image_base
  = Ok callbacks.
Proof.
  intros Hnull Hoffset -> Hall Hfuel. unfold CopyTlsCallbackList.
  destruct (Z.eqb_spec AddressOfCallBacks 0); [done|].
  rewrite Hoffset.
  apply (CopyTlsCallbackList_loop_reads before after callbacks [] fuel); done.
Qed.

End CallbackList.

Lemma CopyTlsCallbackList_reads_what_was_written_witness :
  protector.CopyTlsCallbackList X86 2 scenario.tls_image 0x403020
    scenario.tls_sections 0x400000
  = Ok [0x401000].
Proof.
  apply (CopyTlsCallbackList_reads_what_was_written X86 2 scenario.tls_image
           (take 32 scenario.tls_image) (replicate 24 0) [0x401000]).
  - discriminate.
  - reflexivity.
  - reflexivity.
  - constructor; [|constructor]. simpl. lia.
  - simpl. lia.
Defined.

(* --------------------------------------------------------------------- *)
(** ** Relocation blocks *)

Section RelocationBlocks.

Import protector.

Lemma length_concat_Relocation_bytes (relocations : list pe.Relocation) :
  length (concat (map pe.Relocation_bytes relocations))
  = (2 * length relocations)%nat.
Proof.
  induction relocations as [|r l IH]; simpl; [done|]. rewrite IH. lia.
Qed.

Lemma length_CreateRelocationBlockBuffer va (relocations : list pe.Relocation) :
  length (CreateRelocationBlockBuffer va relocations)
  = (8 + 2 * length relocations)%nat.
Proof.
  unfold CreateRelocationBlockBuffer.
  rewrite !length_app, !length_le_bytes, length_concat_Relocation_bytes. lia.
Qed.

Lemma read_le_app_l (l1 l2 : list Z) n :
  length l1 = n → read_le (l1 ++ l2) 0 n = Some (le_value l1).
Proof.
  intros <-. rewrite read_le_in_range by (rewrite ?length_app; lia).
  change (Z.to_nat 0) with 0%nat. by rewrite drop_0, take_app_length.
Qed.

Lemma read_le_app_r (l1 l2 : list Z) off n :
  0 <= off →
  read_le (l1 ++ l2) (Z.of_nat (length l1) + off) n = read_le l2 off n.
Proof.
  intros Hoff. unfold read_le. rewrite length_app.
  replace (Z.to_nat (Z.of_nat (length l1) + off))
    with (length l1 + Z.to_nat off)%nat by lia.
  rewrite <- drop_drop, drop_app_length.
  destruct (Z.leb_spec 0 off); [|lia].
  destruct (Z.leb_spec 0 (Z.of_nat (length l1) + off)); [|lia]. simpl.
  destruct (Z.leb_spec (off + Z.of_nat n) (Z.of_nat (length l2)));
    destruct (Z.leb_spec (Z.of_nat (length l1) + off + Z.of_nat n)
                (Z.of_nat (length l1 + length l2))); try done; lia.
Qed.

Lemma read_le_Relocation_bytes (relocations : list pe.Relocation) (k : nat) r :
  relocations !! k = Some r →
  read_le (concat (map pe.Relocation_bytes relocations)) (2 * Z.of_nat k) 2
  = Some (u16 (pe.offset r + 4096 * pe.type r)).
Proof.
  revert k. induction relocations as [|x l IH]; intros k Hk; [done|].
  change (concat (map pe.Relocation_bytes (x :: l)))
    with (pe.Relocation_bytes x ++ concat (map pe.Relocation_bytes l)).
  destruct k as [|k]; simpl in Hk.
  - injection Hk as ->. change (2 * Z.of_nat 0) with 0.
    rewrite (read_le_app_l (pe.Relocation_bytes r) _ 2) by done.
    unfold pe.Relocation_bytes. by rewrite le_value_le_bytes.
  - replace (2 * Z.of_nat (S k))
      with (Z.of_nat (length (pe.Relocation_bytes x)) + 2 * Z.of_nat k)
      by (unfold pe.Relocation_bytes; rewrite length_le_bytes; lia).
    rewrite read_le_app_r by lia. by apply IH.
Qed.

Lemma CreateRelocationBlockBuffer_SizeOfBlock va (relocations : list pe.Relocation) :
  let block := CreateRelocationBlockBuffer va relocations in
  read_le block 4 4 = Some (u32 (Z.of_nat (length block))).
Proof.
  intros block.
  assert (length block = (8 + 2 * length relocations)%nat) as Hlength
    by apply length_CreateRelocationBlockBuffer.
  unfold block at 1. unfold CreateRelocationBlockBuffer.
  change 4 with (Z.of_nat (length (le_bytes 4 va)) + 0) at 1.
  rewrite read_le_app_r by lia.
  rewrite read_le_app_l by apply length_le_bytes.
  rewrite le_value_le_bytes, Hlength. unfold u32, wrap.
  change (2 ^ (8 * Z.of_nat 4)) with (2 ^ 32).
  rewrite Z.mod_mod by lia. do 2 f_equal. lia.
Qed.

(** X4.  The buffer of [CreateRelocationBlockBuffer] is an
    IMAGE_BASE_RELOCATION header and one WORD for each relocation: its
    length is 8 + 2 * count, its first DWORD is the virtual address, its
    second DWORD is the length of the buffer itself, and the WORD of entry
    [k] holds the offset in its low 12 bits and the type in its high 4
    bits. *)
Theorem CreateRelocationBlockBuffer_layout va (relocations : list pe.Relocation) :
  let block := CreateRelocationBlockBuffer va relocations in
  length block = (8 + 2 * length relocations)%nat
  (* IMAGE_BASE_RELOCATION *)
  ∧ read_le block 0 4 = Some (u32 va)
  ∧ read_le block 4 4 = Some (u32 (Z.of_nat (length block)))
  (* the entries *)
  ∧ ∀ (k : nat) r, relocations !! k = Some r →
      0 <= pe.offset r < 4096 → 0 <= pe.type r < 16 →
      ∃ word,
        read_le block (8 + 2 * Z.of_nat k) 2 = Some word
        ∧ word mod 4096 = pe.offset r ∧ word / 4096 = pe.type r.
Proof.
  intros block.
  assert (length block = (8 + 2 * length relocations)%nat) as Hlength
    by apply length_CreateRelocationBlockBuffer.
  split; [done|]. split; [|split].
  - unfold block, CreateRelocationBlockBuffer.
    rewrite (read_le_app_l (le_bytes 4 va)) by apply length_le_bytes.
    by rewrite le_value_le_bytes.
  - apply CreateRelocationBlockBuffer_SizeOfBlock.
  - intros k r Hk Hoffset Htype.
    exists (pe.offset r + 4096 * pe.type r). split; [|split].
    + unfold block, CreateRelocationBlockBuffer.
      rewrite app_assoc.
      replace (8 + 2 * Z.of_nat k)
        with (Z.of_nat (length (le_bytes 4 va ++ le_bytes 4
                                  (u32 (8 + Z.of_nat (length relocations) * 2))))
              + 2 * Z.of_nat k)
        by (rewrite length_app, !length_le_bytes; lia).
      rewrite read_le_app_r by lia.
      rewrite (read_le_Relocation_bytes _ _ r) by done.
      f_equal. unfold u16, wrap. apply Z.mod_small. lia.
    + rewrite (Z.mul_comm 4096), Z.mod_add by lia. apply Z.mod_small. lia.
    + rewrite (Z.mul_comm 4096), Z.div_add by lia.
      rewrite Z.div_small by lia. lia.
Qed.

End RelocationBlocks.

(* --------------------------------------------------------------------- *)
(** ** Appending a relocation block *)

Section BlockAlignment.

Import protector.

Lemma GetDataDirectory_SetDataDirectory nt i d :
  (i < length (pe.DataDirectory nt))%nat →
  pe.GetDataDirectory (pe.SetDataDirectory nt i d) i = d.
Proof.
  intros Hi. unfold pe.GetDataDirectory, pe.SetDataDirectory. simpl.
  apply nth_lookup_Some. by apply list_lookup_insert_eq.
Qed.

Lemma odd_test (n : nat) : negb (Z.of_nat n mod 2 =? 0) = Nat.odd n.
Proof.
  destruct (Nat.odd n) eqn:E.
  - apply Nat.odd_spec in E as [k ->].
    replace (Z.of_nat (2 * k + 1)) with (1 + Z.of_nat k * 2) by lia.
    by rewrite Z.mod_add.
  - rewrite <- Nat.negb_even in E. apply negb_false_iff in E.
    apply Nat.even_spec in E as [k ->].
    replace (Z.of_nat (2 * k)) with (0 + Z.of_nat k * 2) by lia.
    by rewrite Z.mod_add.
Qed.

(** X5.  [AppendRelocationBlock] adds at most one entry of type 0 after the
    entries it is given, so that the size of the block is a multiple of four
    bytes; it writes that size to [SizeOfBlock], appends the buffer to the
    relocation section and adds its size to the size of the relocation
    directory, whose virtual address it keeps. *)
Theorem AppendRelocationBlock_keeps_alignment va (relocations : list pe.Relocation)
    nt rs :
  let '(dest_offset, padded, nt', rs') := AppendRelocationBlock va relocations nt rs in
  let block := CreateRelocationBlockBuffer va padded in
  let directory nt := pe.GetDataDirectory nt pe.IMAGE_DIRECTORY_ENTRY_BASERELOC in
  (* a block is a whole number of DWORDs *)
  Z.of_nat (length block) mod 4 = 0
  ∧ read_le block 4 4 = Some (u32 (Z.of_nat (length block)))
  (* the entries are kept, in order, with at most the padding entry after them *)
  ∧ (padded = relocations
     ∨ padded = relocations ++ [pe.mkRelocation pe.IMAGE_REL_BASED_ABSOLUTE 0])
  (* the block goes to the section, and the directory grows by its size *)
  ∧ (rs', dest_offset)
    = pe.AppendCode rs block (pe.SectionAlignment nt) (pe.FileAlignment nt)
  ∧ ((pe.IMAGE_DIRECTORY_ENTRY_BASERELOC < length (pe.DataDirectory nt))%nat →
     pe.dir_Size (directory nt')
     = u32 (pe.dir_Size (directory nt) + Z.of_nat (length block))
     ∧ pe.dir_VirtualAddress (directory nt') = pe.dir_VirtualAddress (directory nt)).
Proof.
  unfold AppendRelocationBlock.
  rewrite odd_test. change (pe.mkRelocation 0 0)
    with (pe.mkRelocation pe.IMAGE_REL_BASED_ABSOLUTE 0).
  set (padded := if Nat.odd (length relocations)
                 then relocations ++ [pe.mkRelocation pe.IMAGE_REL_BASED_ABSOLUTE 0]
                 else relocations).
  assert (Nat.even (length padded) = true) as Heven.
  { subst padded. destruct (Nat.odd (length relocations)) eqn:E.
    - rewrite length_app, Nat.add_1_r, Nat.even_succ. done.
    - by rewrite <- Nat.negb_odd, E. }
  destruct (pe.AppendCode rs _ _ _) as [rs' dest_offset] eqn:Happend.
  split; [|split; [|split; [|split]]].
  - rewrite length_CreateRelocationBlockBuffer.
    apply Nat.even_spec in Heven as [half ->].
    replace (Z.of_nat (8 + 2 * (2 * half))) with ((2 + Z.of_nat half) * 4) by lia.
    apply Z.mod_mul. lia.
  - apply CreateRelocationBlockBuffer_SizeOfBlock.
  - subst padded. destruct (Nat.odd _); [by right|by left].
  - done.
  - intros Hdirectory. rewrite GetDataDirectory_SetDataDirectory by done. done.
Qed.

End BlockAlignment.

(* --------------------------------------------------------------------- *)
(** ** A TLS directory for an input that has none *)

Section NewTlsDirectory.

Import protector.

Variable arch : Arch.
Variable DEFAULT_PE_BASE_ADDRESS : Z.

(** X6.  For an input without a TLS directory, [AddTlsCallbacks] appends
    to the virtualized code section a zeroed index slot, a table made of the
    interpreter callback and five null slots, and a new IMAGE_TLS_DIRECTORY
    whose [AddressOfIndex] and [AddressOfCallBacks] are
    [DEFAULT_PE_BASE_ADDRESS] plus the offsets of the slot and of the table.
    It records the slot of the callback and the two fields for relocation,
    adds four fixups, and writes the offset and the size of the directory to
    the TLS entry of the data directories, in the image and in the
    headers. *)
Theorem AddTlsCallbacks_creates_directory
    (fuel : nat) (interpreter_pe original_pe : pe.PortableExecutable)
    (context : ProtectorContext) (function_offset : Z) :
  let nt := pe.GetNtHeaders original_pe in
  let directory := pe.GetDataDirectory nt pe.IMAGE_DIRECTORY_ENTRY_TLS in
  let entry := pe.DataDirectoryOffset arch original_pe pe.IMAGE_DIRECTORY_ENTRY_TLS in
  let append section data :=
    pe.AppendCode section data (pe.SectionAlignment nt) (pe.FileAlignment nt) in
  let table := [uptr arch (DEFAULT_PE_BASE_ADDRESS + function_offset); 0; 0; 0; 0; 0] in
  let '(section1, index_offset) :=
    append (virtualized_code_section context) (replicate (ptr_bytes arch) 0) in
  let '(section2, table_offset) := append section1 (pointer_list_bytes arch table) in
  let tls_directory :=
    pointer_list_bytes arch
      [0; 0; uptr arch (DEFAULT_PE_BASE_ADDRESS + index_offset);
       uptr arch (DEFAULT_PE_BASE_ADDRESS + table_offset)]
    ++ le_bytes 4 0 ++ le_bytes 4 pe.IMAGE_SCN_ALIGN_1BYTES in
  let '(section3, directory_offset) := append section2 tls_directory in
  let in_code_section op off :=
    {| offset := off;
       desc := {| offset_type := VirtualizedCodeSection; size := sizeof_uintptr arch;
                  operation := op |} |} in
  let old := fixup_context context in
  pe.dir_Size directory = 0 →
  GetExportedFunctionOffsetRelativeToSection interpreter_pe "TlsCallback"
    = Ok function_offset →
  0 <= entry → entry + 8 <= Z.of_nat (length (pe.GetPeImage original_pe)) →
  ∃ original_pe' context',
    AddTlsCallbacks arch DEFAULT_PE_BASE_ADDRESS fuel interpreter_pe original_pe
      context = Ok (original_pe', context')
    (* index slot, callback table and directory, in this order *)
    ∧ virtualized_code_section context' = section3
    ∧ Z.of_nat (length tls_directory) = sizeof_IMAGE_TLS_DIRECTORY arch
    (* what is recorded for relocation *)
    ∧ virtualized_code_section_offsets_to_add_to_relocation_table
        (fixup_context context')
      = virtualized_code_section_offsets_to_add_to_relocation_table old
        ++ callback_relocation_offsets arch table_offset table
        ++ [directory_offset + offsetof_AddressOfIndex arch;
            directory_offset + offsetof_AddressOfCallBacks arch]
    (* the four fixups *)
    ∧ fixups (fixup_context context')
      = fixups old
        ++ [ in_code_section AddVmLoaderSectionVirtualAddress table_offset;
             in_code_section AddVirtualizedCodeSectionVirtualAddress
               (directory_offset + offsetof_AddressOfIndex arch);
             in_code_section AddVirtualizedCodeSectionVirtualAddress
               (directory_offset + offsetof_AddressOfCallBacks arch);
             {| offset := entry;
                desc := {| offset_type := Beginning; size := sizeof_uintptr arch;
                           operation := AddVirtualizedCodeSectionVirtualAddress |} |} ]
    (* the data directory entry, in the image ... *)
    ∧ read_le (pe.GetPeImage original_pe') entry 4 = Some (u32 directory_offset)
    ∧ read_le (pe.GetPeImage original_pe') (entry + 4) 4
      = Some (u32 (sizeof_IMAGE_TLS_DIRECTORY arch))
    ∧ length (pe.GetPeImage original_pe') = length (pe.GetPeImage original_pe)
    (* ... and in the headers *)
    ∧ ((pe.IMAGE_DIRECTORY_ENTRY_TLS < length (pe.DataDirectory nt))%nat →
       pe.GetDataDirectory (pe.GetNtHeaders original_pe') pe.IMAGE_DIRECTORY_ENTRY_TLS
       = {| pe.dir_VirtualAddress := u32 directory_offset;
            pe.dir_Size := u32 (sizeof_IMAGE_TLS_DIRECTORY arch) |}).
Proof.
  intros nt directory entry append table.
  destruct (append (virtualized_code_section context) _)
    as [section1 index_offset] eqn:Hindex.
  destruct (append section1 _) as [section2 table_offset] eqn:Htable.
  intros tls_directory.
  destruct (append section2 _) as [section3 directory_offset] eqn:Hdirectory.
  intros in_code_section old Hsize Hexport Hlo Hhi.
  unfold AddTlsCallbacks.
  fold nt. fold directory. rewrite Hsize. cbn [Z.eqb negb].
  fold (append (virtualized_code_section context) (replicate (ptr_bytes arch) 0)).
  rewrite Hindex, Hexport. cbn [mbind Result_bind].
  change ([uptr arch (DEFAULT_PE_BASE_ADDRESS + function_offset)] ++ [0; 0; 0; 0; 0])
    with table.
  fold (append section1 (pointer_list_bytes arch table)). rewrite Htable.
  fold tls_directory. fold (append section2 tls_directory). rewrite Hdirectory.
  fold entry.
  rewrite write_le_in_range by lia. cbn [deref mbind Result_bind].
  rewrite write_le_in_range by (rewrite ?length_write_bytes; lia).
  cbn [deref mbind Result_bind].
  eexists _, _. split; [reflexivity|].
  cbn [pe.SetNtHeaders pe.SetPeImage pe.GetPeImage pe.GetNtHeaders
       set_fixup_context set_virtualized_code_section virtualized_code_section
       fixup_context push_fixup push_virtualized_code_section_offsets fixups
       virtualized_code_section_offsets_to_add_to_relocation_table].
  split; [done|]. split.
  { unfold tls_directory. rewrite !length_app, length_pointer_list_bytes,
      !length_le_bytes. unfold sizeof_IMAGE_TLS_DIRECTORY. by destruct arch. }
  split; [by rewrite <- !app_assoc|].
  split; [rewrite <- !app_assoc, Z.mul_0_l, !Z.add_0_r; done|].
  split; [|split; [|split]].
  - rewrite read_le_write_bytes by (rewrite ?length_write_bytes; lia).
    f_equal. apply (wrap_idem 32). lia.
  - rewrite read_le_in_range by (rewrite ?length_write_bytes; lia).
    rewrite write_bytes_frame
      by (rewrite ?length_write_bytes, ?length_le_bytes; lia).
    rewrite <- read_le_in_range by (rewrite ?length_write_bytes; lia).
    rewrite read_le_write_bytes by lia. f_equal. apply (wrap_idem 32). lia.
  - by rewrite !length_write_bytes.
  - intros Hdir. by apply GetDataDirectory_SetDataDirectory.
Qed.

End NewTlsDirectory.

Lemma AddTlsCallbacks_creates_directory_witness :
  ∃ original_pe' context',
    protector.AddTlsCallbacks X86 0x400000 0 scenario.interpreter_pe
      examples.no_tls_pe scenario.empty_context = Ok (original_pe', context')
    ∧ read_le (pe.GetPeImage original_pe') 192 4 = Some 28
    ∧ read_le (pe.GetPeImage original_pe') 196 4 = Some 24
    ∧ take 52 (pe.GetData (protector.virtualized_code_section context'))
      = le_bytes 4 0
        ++ protector.pointer_list_bytes X86 [0x400010; 0; 0; 0; 0; 0]
        ++ protector.pointer_list_bytes X86 [0; 0; 0x400000; 0x400004]
        ++ le_bytes 4 0 ++ le_bytes 4 pe.IMAGE_SCN_ALIGN_1BYTES.
Proof.
  pose proof (AddTlsCallbacks_creates_directory X86 0x400000 0
                scenario.interpreter_pe examples.no_tls_pe scenario.empty_context
                0x10) as H.
  cbv zeta in H. unfold pe.AppendCode at 1 2 3 in H. cbv iota beta in H.
  destruct H as (p & c & Hrun & Hsection & _ & _ & _ & Hva & Hsize & _).
  - reflexivity.
  - reflexivity.
  - vm_compute. discriminate.
  - vm_compute. discriminate.
  - exists p, c. split; [exact Hrun|]. split; [exact Hva|]. split; [exact Hsize|].
    rewrite Hsection. reflexivity.
Defined.

(* --------------------------------------------------------------------- *)
(** ** The relocation delta of the interpreter *)

Section InterpreterDelta.

Import protector.

Variable VM_FUNCTIONS_SECTION_NAME : string.
Variable Relocate : pe.PortableExecutable → Z → pe.PortableExecutable.

(** X7.  [RelocateInterpreterPe] relocates the interpreter by the new image
    base minus the old one minus the virtual address of the interpreter
    section.  The virtual address is a DWORD and is negated as a DWORD: on
    X86 the delta is that difference as a 32 bit value; on X64 the negated
    DWORD is widened without its sign, so that the delta is
    [new_image_base - image_base + (2^32 - VirtualAddress)]. *)
Theorem RelocateInterpreterPe_delta (arch : Arch)
    (interpreter_pe : pe.PortableExecutable) (new_image_base : Z)
    (section : pe.IMAGE_SECTION_HEADER) :
  let image_base := pe.ImageBase (pe.GetNtHeaders interpreter_pe) in
  let section_va := pe.VirtualAddress section in
  pe.FromName (pe.GetSectionHeaders interpreter_pe) VM_FUNCTIONS_SECTION_NAME
    = Some section →
  0 < section_va < 2 ^ 32 →
  RelocateInterpreterPe arch VM_FUNCTIONS_SECTION_NAME Relocate interpreter_pe
    new_image_base
  = Ok (Relocate interpreter_pe
          match arch with
          | X86 => u32 (new_image_base - image_base - section_va)
          | X64 => u64 (new_image_base - image_base + (2 ^ 32 - section_va))
          end).
Proof.
  intros image_base section_va Hsection Hva.
  unfold RelocateInterpreterPe. rewrite Hsection. cbn [deref mbind Result_bind].
  fold image_base section_va. do 2 f_equal.
  assert (u32 (0 - section_va) = 2 ^ 32 - section_va) as Hdelta.
  { unfold u32, wrap.
    replace (0 - section_va) with (2 ^ 32 - section_va + (-1) * 2 ^ 32) by lia.
    rewrite Z.mod_add by lia. apply Z.mod_small. lia. }
  destruct arch.
  - unfold uptr. change (8 * sizeof_uintptr X86) with 32. fold u32.
    unfold u32 at 1 2. rewrite wrap_add_l. unfold u32, wrap.
    rewrite Zplus_mod_idemp_r. f_equal; lia.
  - unfold uptr. change (8 * sizeof_uintptr X64) with 64.
    rewrite wrap_add_l, Hdelta. done.
Qed.

End InterpreterDelta.

Lemma RelocateInterpreterPe_delta_witness :
  let Relocate := λ p delta, pe.SetPeImage p (le_bytes 8 delta) in
  protector.RelocateInterpreterPe X64 ".vmfun" Relocate scenario.interpreter_pe
    0x140000000
  = Ok (Relocate scenario.interpreter_pe 0x23FBFF000).
Proof.
  intros Relocate.
  refine (RelocateInterpreterPe_delta ".vmfun" Relocate X64 scenario.interpreter_pe
            0x140000000 _ eq_refl _).
  vm_compute. split; reflexivity.
Defined.

(* --------------------------------------------------------------------- *)
(** ** Relocations of one page *)

Section OnePage.

Import protector.

Variable arch : Arch.

Lemma uptr_small x : 0 <= x < 2 ^ 32 → uptr arch x = x.
Proof.
  intros H. unfold uptr, wrap. apply Z.mod_small.
  destruct arch; simpl sizeof_uintptr; lia.
Qed.

(** The offsets of one page only extend the block that is being built. *)
Lemma AddRelocations_step_same_page desc (offsets : list Z) : ∀ run,
  0 <= reloc_block_virtual_address run →
  Forall (λ o, reloc_block_virtual_address run <= o
               < reloc_block_virtual_address run + k4kPage) offsets →
  fold_left (AddRelocations_step arch desc) offsets run
  = {| reloc_block_virtual_address := reloc_block_virtual_address run;
       new_relocations :=
         new_relocations run
         ++ map (λ o, pe.mkRelocation (relocation_type arch)
                        (o - reloc_block_virtual_address run)) offsets;
       run_nt_headers := run_nt_headers run;
       run_reloc_section := run_reloc_section run;
       run_fixups := run_fixups run |}.
Proof.
  induction offsets as [|o offsets IH]; intros run Hva Hall.
  - simpl. rewrite app_nil_r. by destruct run.
  - apply Forall_cons in Hall as [Ho Hall]. simpl.
    unfold AddRelocations_step at 2. unfold k4kPage in *.
    rewrite uptr_small by lia.
    destruct (Z.leb_spec 4096 (o - reloc_block_virtual_address run)); [lia|].
    rewrite IH by done. simpl. by rewrite <- app_assoc.
Qed.

(** X8.  When all offsets lie in the 4 KiB page of the first one,
    [AddRelocations] trims the relocation section and appends one block: its
    virtual address is that page, its entries are the offsets within the
    page, in the order given, and one fixup is recorded at the offset of the
    block in the section. *)
Theorem AddRelocations_one_page desc (first : Z) (others : list Z) nt rs fixups :
  let page := pe.AlignDown first k4kPage in
  let entry o := pe.mkRelocation (relocation_type arch) (o - page) in
  0 <= first < 2 ^ 32 →
  Forall (λ o, page <= o < page + k4kPage) others →
  AddRelocations arch desc (first :: others) nt rs fixups
  = (let '(dest_offset, _, nt', rs') :=
       AppendRelocationBlock page (map entry (first :: others)) nt
         (TrimRelocSectionPadding nt rs) in
     (nt', rs', fixups ++ [ {| offset := dest_offset; desc := desc |} ]))
  ∧ Forall (λ o, pe.offset (entry o) = o - page
                 ∧ page + pe.offset (entry o) = o) (first :: others).
Proof.
  intros page entry Hfirst Hothers.
  assert (0 <= page <= first ∧ first < page + k4kPage) as Hpage.
  { unfold page, pe.AlignDown, k4kPage.
    pose proof (Z.mod_pos_bound first 4096 ltac:(lia)).
    pose proof (Z.mod_le first 4096 ltac:(lia) ltac:(lia)). lia. }
  assert (Forall (λ o, page <= o < page + k4kPage) (first :: others)) as Hall.
  { constructor; [lia|done]. }
  split.
  - unfold AddRelocations, DetermineFirstRelocationBlockVirtualAddress.
    change (nth 0 (first :: others) 0) with first. fold page.
    assert (u32 page = page) as ->.
    { unfold u32, wrap. apply Z.mod_small. lia. }
    rewrite AddRelocations_step_same_page; [|simpl; lia|done].
    cbn [new_relocations reloc_block_virtual_address run_nt_headers
         run_reloc_section run_fixups app].
    destruct (0 <? length _)%nat eqn:Hlength.
    2: { apply Nat.ltb_ge in Hlength. simpl in Hlength. lia. }
    done.
  - eapply Forall_impl; [exact Hall|]. intros o Ho. simpl.
    unfold k4kPage in Ho. rewrite Z.mod_small by lia. lia.
Qed.

End OnePage.

Lemma AddRelocations_one_page_witness :
  protector.AddRelocations X86 scenario.S4_fixup_desc [0x1100; 0x1500; 0x1010]
    scenario.nt_headers (pe.CreateEmptySection ".reloc") []
  = (let '(dest_offset, _, nt', rs') :=
       protector.AppendRelocationBlock 0x1000
         [pe.mkRelocation pe.IMAGE_REL_BASED_HIGHLOW 0x100;
          pe.mkRelocation pe.IMAGE_REL_BASED_HIGHLOW 0x500;
          pe.mkRelocation pe.IMAGE_REL_BASED_HIGHLOW 0x10]
         scenario.nt_headers
         (protector.TrimRelocSectionPadding scenario.nt_headers
            (pe.CreateEmptySection ".reloc")) in
     (nt', rs', [ {| protector.offset := dest_offset;
                     protector.desc := scenario.S4_fixup_desc |} ])).
Proof.
  refine (proj1 (AddRelocations_one_page X86 scenario.S4_fixup_desc 0x1100
                   [0x1500; 0x1010] scenario.nt_headers
                   (pe.CreateEmptySection ".reloc") [] _ _)).
  - lia.
  - constructor; [vm_compute; split; [discriminate|reflexivity]|].
    constructor; [vm_compute; split; [discriminate|reflexivity]|constructor].
Defined.

(* --------------------------------------------------------------------- *)
(** ** Removed relocations *)

Section RemovedRelocations.

Import protector.

(** The entries after [RemoveRelocations], one by one. *)
Lemma GetRelocations_RemoveRelocations (relocation_rvas_to_remove : list Z) :
  ∀ p : pe.PortableExecutable,
  pe.GetRelocations (RemoveRelocations relocation_rvas_to_remove p)
  = map (λ '(rva, reloc),
           if bool_decide (rva ∈ relocation_rvas_to_remove)
           then (rva, pe.mkRelocation pe.IMAGE_REL_BASED_ABSOLUTE 0)
           else (rva, reloc))
        (pe.GetRelocations p).
Proof.
  unfold RemoveRelocations.
  induction relocation_rvas_to_remove as [|r rs IH]; intros p.
  - simpl. transitivity (map id (pe.GetRelocations p)); [by rewrite map_id|].
    apply map_ext. by intros [rva reloc].
  - simpl. rewrite IH. simpl. rewrite map_map. apply map_ext.
    intros [rva reloc].
    destruct (Z.eqb_spec r rva) as [->|Hne].
    + rewrite (bool_decide_eq_true_2 (rva ∈ rva :: rs)) by apply list_elem_of_here.
      by case_bool_decide.
    + case_bool_decide as Hin.
      * rewrite bool_decide_eq_true_2; [done|]. by apply list_elem_of_further.
      * rewrite bool_decide_eq_false_2; [done|].
        intros Hin'. apply elem_of_cons in Hin' as [->|Hin']; done.
Qed.

(** X9.  [RemoveRelocations] deletes no entry: a relocation whose RVA is
    among the RVAs to remove becomes an entry of type
    IMAGE_REL_BASED_ABSOLUTE with offset 0, and every other entry is kept as
    it is.  [GetRelocationRvas], which leaves out the entries of that type,
    then gives the RVAs of before without the ones to remove. *)
Theorem RemoveRelocations_turns_into_padding
    (relocation_rvas_to_remove : list Z) (p : pe.PortableExecutable) :
  let p' := RemoveRelocations relocation_rvas_to_remove p in
  let padding := pe.mkRelocation pe.IMAGE_REL_BASED_ABSOLUTE 0 in
  GetRelocationRvas p'
    = filter (λ rva, rva ∉ relocation_rvas_to_remove) (GetRelocationRvas p)
  ∧ length (pe.GetRelocations p') = length (pe.GetRelocations p)
  ∧ map snd (pe.GetRelocations p')
    = map (λ '(rva, reloc),
             if bool_decide (rva ∈ relocation_rvas_to_remove) then padding else reloc)
          (pe.GetRelocations p).
Proof.
  intros p' padding. unfold GetRelocationRvas. unfold p'.
  rewrite GetRelocations_RemoveRelocations. split; [|split].
  - induction (pe.GetRelocations p) as [|[rva reloc] l IH]; [done|].
    simpl. rewrite IH, filter_app. f_equal.
    case_bool_decide as Hin; simpl.
    + destruct (negb _); simpl; [|done]. by rewrite filter_cons_False by auto.
    + destruct (negb _); simpl; [|done]. by rewrite filter_cons_True.
  - by rewrite length_map.
  - rewrite map_map. apply map_ext. intros [rva reloc]. by case_bool_decide.
Qed.

End RemovedRelocations.

(* --------------------------------------------------------------------- *)
(** ** Relocations of the interpreter section *)

Section InterpreterRelocations.

Import protector.

Variable VM_FUNCTIONS_SECTION_NAME : string.

Lemma push_relocation_fixups desc (offsets : list Z) : ∀ fc,
  let fc' :=
    fold_left (λ fc relocation_section_offset,
                 push_fixup (push_vm_section_offsets fc [relocation_section_offset])
                   {| offset := relocation_section_offset; desc := desc |})
      offsets fc in
  vm_section_offsets_to_add_to_relocation_table fc'
    = vm_section_offsets_to_add_to_relocation_table fc ++ offsets
  ∧ fixups fc' = fixups fc ++ map (λ o, {| offset := o; desc := desc |}) offsets
  ∧ relocation_rvas_to_remove fc' = relocation_rvas_to_remove fc
  ∧ virtualized_code_section_offsets_to_add_to_relocation_table fc'
    = virtualized_code_section_offsets_to_add_to_relocation_table fc.
Proof.
  induction offsets as [|o offsets IH]; intros fc; simpl.
  - by rewrite !app_nil_r.
  - destruct (IH (push_fixup (push_vm_section_offsets fc [o])
                    {| offset := o; desc := desc |})) as (-> & -> & -> & ->).
    simpl. by rewrite <- !app_assoc.
Qed.

Lemma GetRelocationsWithinSectionAsSectionOffsets_range p section o :
  pe.VirtualSize section <= 2 ^ 32 →
  o ∈ GetRelocationsWithinSectionAsSectionOffsets p section →
  0 <= o < pe.VirtualSize section
  ∧ ∃ reloc, (pe.VirtualAddress section + o, reloc) ∈ pe.GetRelocations p
             ∧ pe.type reloc ≠ pe.IMAGE_REL_BASED_ABSOLUTE.
Proof.
  intros Hsize. unfold GetRelocationsWithinSectionAsSectionOffsets.
  induction (pe.GetRelocations p) as [|[rva reloc] l IH]; simpl.
  { intros H. by apply elem_of_nil in H. }
  intros H. apply elem_of_app in H as [H|H].
  - destruct (Z.eqb_spec (pe.type reloc) pe.IMAGE_REL_BASED_ABSOLUTE) as [|Htype];
      [by apply elem_of_nil in H|].
    destruct (pe.IsRvaWithinSection section rva) eqn:Hin;
      [|by apply elem_of_nil in H].
    apply list_elem_of_singleton in H. subst o.
    unfold pe.IsRvaWithinSection in Hin. unfold pe.RvaToSectionOffset.
    assert (u32 (rva - pe.VirtualAddress section) = rva - pe.VirtualAddress section)
      as ->.
    { unfold u32, wrap. apply Z.mod_small. lia. }
    split; [lia|]. exists reloc. split; [|done].
    replace (pe.VirtualAddress section + (rva - pe.VirtualAddress section))
      with rva by lia.
    apply list_elem_of_here.
  - destruct (IH H) as (Hrange & reloc' & Hin & Htype). split; [done|].
    exists reloc'. split; [|done]. by apply list_elem_of_further.
Qed.

Lemma GetRelocationsWithinSectionAsSectionOffsets_all p section rva reloc :
  (rva, reloc) ∈ pe.GetRelocations p →
  pe.type reloc ≠ pe.IMAGE_REL_BASED_ABSOLUTE →
  pe.IsRvaWithinSection section rva = true →
  u32 (pe.RvaToSectionOffset section rva)
    ∈ GetRelocationsWithinSectionAsSectionOffsets p section.
Proof.
  intros Hin Htype Hwithin. unfold GetRelocationsWithinSectionAsSectionOffsets.
  induction (pe.GetRelocations p) as [|[rva' reloc'] l IH]; simpl.
  { by apply elem_of_nil in Hin. }
  apply elem_of_app. apply elem_of_cons in Hin as [Heq|Hin]; [left|right; auto].
  injection Heq as <- <-.
  rewrite (proj2 (Z.eqb_neq _ _) Htype), Hwithin. apply list_elem_of_here.
Qed.

(** X10.  [AddInterpreterRelocationsToFixup] takes every relocation of the
    interpreter section that is not of type ABSOLUTE and records its offset
    in the section twice, in the same order: as an offset of the loader
    section to relocate and as a fixup of 4 bytes that adds the virtual
    address of the loader section.  Everything else in the context is kept:
    its three sections, the RVAs to remove and the offsets of the
    virtualized code section to relocate.  Without the interpreter section
    in the interpreter image the null header is dereferenced. *)
Theorem AddInterpreterRelocationsToFixup_pairs_fixups_with_relocations
    (interpreter_pe : pe.PortableExecutable) (context : ProtectorContext) :
  let old := fixup_context context in
  match pe.FromName (pe.GetSectionHeaders interpreter_pe) VM_FUNCTIONS_SECTION_NAME with
  | None =>
      AddInterpreterRelocationsToFixup VM_FUNCTIONS_SECTION_NAME interpreter_pe context
      = Undefined
  | Some section =>
      let offsets := GetRelocationsWithinSectionAsSectionOffsets interpreter_pe section in
      ∃ context',
        AddInterpreterRelocationsToFixup VM_FUNCTIONS_SECTION_NAME interpreter_pe
          context = Ok context'
        ∧ vm_section_offsets_to_add_to_relocation_table (fixup_context context')
          = vm_section_offsets_to_add_to_relocation_table old ++ offsets
        ∧ fixups (fixup_context context')
          = fixups old
            ++ map (λ o, {| offset := o;
                            desc := {| offset_type := VmLoaderSection; size := 4;
                                       operation :=
                                         AddVmLoaderSectionVirtualAddress |} |})
                   offsets
        ∧ relocation_rvas_to_remove (fixup_context context')
          = relocation_rvas_to_remove old
        ∧ virtualized_code_section_offsets_to_add_to_relocation_table
            (fixup_context context')
          = virtualized_code_section_offsets_to_add_to_relocation_table old
        ∧ vm_loader_section context' = vm_loader_section context
        ∧ virtualized_code_section context' = virtualized_code_section context
        ∧ new_text_section context' = new_text_section context
        (* the offsets are the relocations of the section, all of them *)
        ∧ (pe.VirtualSize section <= 2 ^ 32 →
           ∀ o, o ∈ offsets →
             0 <= o < pe.VirtualSize section
             ∧ ∃ reloc,
                 (pe.VirtualAddress section + o, reloc) ∈ pe.GetRelocations interpreter_pe
                 ∧ pe.type reloc ≠ pe.IMAGE_REL_BASED_ABSOLUTE)
        ∧ (∀ rva reloc,
             (rva, reloc) ∈ pe.GetRelocations interpreter_pe →
             pe.type reloc ≠ pe.IMAGE_REL_BASED_ABSOLUTE →
             pe.IsRvaWithinSection section rva = true →
             u32 (pe.RvaToSectionOffset section rva) ∈ offsets)
  end.
Proof.
  intros old. unfold AddInterpreterRelocationsToFixup.
  destruct (pe.FromName _ _) as [section|]; [|done]. simpl.
  eexists. split; [done|]. simpl.
  destruct (push_relocation_fixups
              {| offset_type := VmLoaderSection; size := 4;
                 operation := AddVmLoaderSectionVirtualAddress |}
              (GetRelocationsWithinSectionAsSectionOffsets interpreter_pe section)
              (fixup_context context)) as (-> & -> & -> & ->).
  do 7 (split; [done|]). split.
  - intros Hsize o Ho. by apply GetRelocationsWithinSectionAsSectionOffsets_range.
  - intros rva reloc. apply GetRelocationsWithinSectionAsSectionOffsets_all.
Qed.

End InterpreterRelocations.

(* --------------------------------------------------------------------- *)
(** ** Fixups that cancel *)

Section FixupsCancel.

Import protector.

Lemma le_value_bound (bs : list Z) :
  Forall (λ b, 0 <= b < 256) bs → 0 <= le_value bs < 2 ^ (8 * Z.of_nat (length bs)).
Proof.
  induction bs as [|b bs IH]; intros Hall; simpl le_value.
  - simpl. lia.
  - apply Forall_cons in Hall as [Hb Hall]. specialize (IH Hall).
    replace (8 * Z.of_nat (length (b :: bs))) with (8 + 8 * Z.of_nat (length bs))
      by (simpl length; lia).
    rewrite Z.pow_add_r by lia. change (2 ^ 8) with 256. nia.
Qed.

Lemma le_bytes_le_value (bs : list Z) :
  Forall (λ b, 0 <= b < 256) bs → le_bytes (length bs) (le_value bs) = bs.
Proof.
  induction bs as [|b bs IH]; intros Hall; [done|].
  apply Forall_cons in Hall as [Hb Hall]. cbn [length le_bytes le_value].
  rewrite (Z.mul_comm 256), Z.mod_add, Z.div_add by lia.
  rewrite Z.mod_small, Z.div_small by lia. rewrite Z.add_0_l. by rewrite IH.
Qed.

(** A second store at the same place wins. *)
Lemma write_bytes_twice (bs1 bs2 : list Z) off (buf : list Z) :
  length bs1 = length bs2 → (off + length bs1 <= length buf)%nat →
  write_bytes off bs2 (write_bytes off bs1 buf) = write_bytes off bs2 buf.
Proof.
  intros Hlength Hfit.
  rewrite (write_bytes_eq bs2 off (write_bytes off bs1 buf))
    by (rewrite length_write_bytes; lia).
  rewrite write_bytes_before by done.
  rewrite <- Hlength, write_bytes_after, Hlength by done.
  symmetry. apply write_bytes_eq. lia.
Qed.

(** Storing the bytes that are there changes nothing. *)
Lemma write_bytes_same_bytes off n (buf : list Z) :
  (off + n <= length buf)%nat →
  write_bytes off (take n (drop off buf)) buf = buf.
Proof.
  intros Hfit.
  assert (length (take n (drop off buf)) = n) as Hlength
    by (rewrite length_take, length_drop; lia).
  rewrite write_bytes_eq by lia. rewrite Hlength.
  rewrite <- drop_drop. by rewrite !take_drop.
Qed.

Lemma add_then_subtract bits value section_va :
  0 <= value < 2 ^ bits →
  wrap bits (wrap bits (value + section_va) - section_va) = value.
Proof.
  intros Hvalue. rewrite wrap_sub_l. unfold wrap.
  replace (value + section_va - section_va) with value by lia.
  by apply Z.mod_small.
Qed.

(** One width of [apply_fixup]: the value is read, changed and written
    back. *)
Lemma read_modify_write (image : list Z) file_offset (n : nat) v w image1 :
  Forall (λ b, 0 <= b < 256) image →
  read_le image file_offset n = Some v →
  write_le image file_offset n (wrap (8 * Z.of_nat n) w) = Some image1 →
  read_le image1 file_offset n = Some (wrap (8 * Z.of_nat n) w)
  ∧ write_le image1 file_offset n v = Some image
  ∧ 0 <= v < 2 ^ (8 * Z.of_nat n).
Proof.
  intros Hbytes Hread Hwrite.
  destruct (read_le_range _ _ _ _ Hread) as [Hoff Hfit].
  rewrite write_le_in_range in Hwrite by done. injection Hwrite as <-.
  rewrite read_le_in_range in Hread by done. injection Hread as <-.
  set (bs := take n (drop (Z.to_nat file_offset) image)).
  assert (length bs = n) as Hlength
    by (unfold bs; rewrite length_take, length_drop; lia).
  assert (Forall (λ b, 0 <= b < 256) bs) as Hbs
    by (unfold bs; by apply Forall_take, Forall_drop).
  split; [|split].
  - rewrite read_le_write_bytes by done. f_equal. apply wrap_idem. lia.
  - rewrite write_le_in_range by (rewrite ?length_write_bytes; done).
    f_equal. rewrite write_bytes_twice by (rewrite !length_le_bytes; lia).
    rewrite <- Hlength at 1. rewrite le_bytes_le_value by done.
    apply write_bytes_same_bytes. lia.
  - rewrite <- Hlength. by apply le_value_bound.
Qed.

(** X11.  On an image of bytes, the fixup that subtracts the virtual address
    of the loader section undoes the fixup of the same offset, base and size
    that added it: the image is again the one before the addition. *)
Theorem apply_fixup_subtract_undoes_add loader_name code_name headers text_header
    (image image1 : list Z) (off : Z) (relative_to : OffsetRelativeTo) (width : Z) :
  let fixup op :=
    {| offset := off;
       desc := {| offset_type := relative_to; size := width; operation := op |} |} in
  Forall (λ b, 0 <= b < 256) image →
  apply_fixup loader_name code_name headers text_header image
    (fixup AddVmLoaderSectionVirtualAddress) = Ok image1 →
  apply_fixup loader_name code_name headers text_header image1
    (fixup SubtractVmLoaderSectionVirtualAddress) = Ok image
  ∧ length image1 = length image.
Proof.
  intros fixup Hbytes Hadd.
  split; [|by eapply apply_fixup_length].
  unfold apply_fixup in *.
  change (fixup_file_offset loader_name code_name headers text_header
            (fixup SubtractVmLoaderSectionVirtualAddress))
    with (fixup_file_offset loader_name code_name headers text_header
            (fixup AddVmLoaderSectionVirtualAddress)).
  destruct (fixup_file_offset _ _ _ _ _) as [file_offset| | |]; try done.
  cbn [mbind Result_bind] in *. cbn [size desc fixup operation] in *.
  unfold fixup_value in *.
  destruct (width =? 4); [|destruct (width =? 8); [|done]].
  - destruct (read_le image file_offset 4) as [v|] eqn:Hread; [|done].
    cbn [deref mbind Result_bind] in Hadd.
    destruct (pe.FromName headers loader_name) as [section|]; [|done].
    cbn [deref mbind Result_bind] in *.
    destruct (write_le image file_offset 4 _) as [image1'|] eqn:Hwrite; [|done].
    injection Hadd as ->.
    destruct (read_modify_write image file_offset 4 v _ image1 Hbytes Hread Hwrite)
      as (-> & Hback & Hv).
    cbn [deref mbind Result_bind].
    change (8 * Z.of_nat 4) with 32 in *.
    rewrite add_then_subtract by done. by rewrite Hback.
  - destruct (read_le image file_offset 8) as [v|] eqn:Hread; [|done].
    cbn [deref mbind Result_bind] in Hadd.
    destruct (pe.FromName headers loader_name) as [section|]; [|done].
    cbn [deref mbind Result_bind] in *.
    destruct (write_le image file_offset 8 _) as [image1'|] eqn:Hwrite; [|done].
    injection Hadd as ->.
    destruct (read_modify_write image file_offset 8 v _ image1 Hbytes Hread Hwrite)
      as (-> & Hback & Hv).
    cbn [deref mbind Result_bind].
    change (8 * Z.of_nat 8) with 64 in *.
    rewrite add_then_subtract by done. by rewrite Hback.
Qed.

End FixupsCancel.

Lemma apply_fixup_subtract_undoes_add_witness :
  protector.apply_fixup ".vmldr" ".vmcode" scenario.new_pe_sections
    scenario.text_header (le_bytes 4 0x6234 ++ [0xAA; 0xBB])
    {| protector.offset := 0;
       protector.desc :=
         {| protector.offset_type := protector.Beginning;
            protector.size := 4;
            protector.operation := protector.SubtractVmLoaderSectionVirtualAddress |} |}
  = Ok (le_bytes 4 0x1234 ++ [0xAA; 0xBB])
  ∧ length (le_bytes 4 0x6234 ++ [0xAA; 0xBB])
    = length (le_bytes 4 0x1234 ++ [0xAA; 0xBB]).
Proof.
  apply (apply_fixup_subtract_undoes_add ".vmldr" ".vmcode" scenario.new_pe_sections
           scenario.text_header (le_bytes 4 0x1234 ++ [0xAA; 0xBB])
           (le_bytes 4 0x6234 ++ [0xAA; 0xBB]) 0 protector.Beginning 4).
  - apply Forall_forall. intros b Hb. vm_compute in Hb.
    repeat (apply elem_of_cons in Hb as [->|Hb]; [lia|]).
    by apply elem_of_nil in Hb.
  - reflexivity.
Defined.

(* --------------------------------------------------------------------- *)
(** ** Fixups of an unsupported size *)

Section FixupErrors.

Import protector.

Variable arch : Arch.
Variable VM_LOADER_SECTION_NAME : string.
Variable VM_CODE_SECTION_NAME : string.
Variable ObfuscateRTTI : pe.PortableExecutable → pe.PortableExecutable.

Local Abbreviation fixup_offset :=
  (fixup_file_offset VM_LOADER_SECTION_NAME VM_CODE_SECTION_NAME).
Local Abbreviation run_fixups :=
  (apply_fixups VM_LOADER_SECTION_NAME VM_CODE_SECTION_NAME).
Local Abbreviation finish :=
  (FixFinishedPe arch VM_LOADER_SECTION_NAME VM_CODE_SECTION_NAME ObfuscateRTTI).

Lemma fixup_file_offset_no_throw headers text fixup what :
  fixup_offset headers text fixup ≠ Throw what.
Proof.
  unfold fixup_file_offset.
  destruct (offset_type (desc fixup)); try done;
    by destruct (pe.FromName headers _).
Qed.

Lemma fixup_value_no_throw headers bits op value what :
  fixup_value VM_LOADER_SECTION_NAME VM_CODE_SECTION_NAME headers bits op value
  ≠ Throw what.
Proof. unfold fixup_value. destruct op; by destruct (pe.FromName headers _). Qed.

Lemma apply_fixup_throws headers text image fixup what :
  apply_fixup VM_LOADER_SECTION_NAME VM_CODE_SECTION_NAME headers text image fixup
    = Throw what →
  what = "unsupported fixup size" ∧ size (desc fixup) ≠ 4 ∧ size (desc fixup) ≠ 8.
Proof.
  unfold apply_fixup. intros H.
  destruct (fixup_offset headers text fixup) as [file_offset|what1| |] eqn:Hoffset;
    try done; simpl in H.
  2: { by apply fixup_file_offset_no_throw in Hoffset. }
  destruct (Z.eqb_spec (size (desc fixup)) 4) as [|H4].
  { destruct (read_le image file_offset 4) as [value|]; [|done]. simpl in H.
    destruct (fixup_value _ _ _ _ _ _) as [updated|what1| |] eqn:Hvalue; try done;
      simpl in H.
    - by destruct (write_le _ _ _ _).
    - by apply fixup_value_no_throw in Hvalue. }
  destruct (Z.eqb_spec (size (desc fixup)) 8) as [|H8].
  { destruct (read_le image file_offset 8) as [value|]; [|done]. simpl in H.
    destruct (fixup_value _ _ _ _ _ _) as [updated|what1| |] eqn:Hvalue; try done;
      simpl in H.
    - by destruct (write_le _ _ _ _).
    - by apply fixup_value_no_throw in Hvalue. }
  by injection H as <-.
Qed.

Lemma apply_fixups_throws headers text fixups : ∀ image what,
  run_fixups headers text fixups image = Throw what →
  what = "unsupported fixup size"
  ∧ ∃ fixup, fixup ∈ fixups ∧ size (desc fixup) ≠ 4 ∧ size (desc fixup) ≠ 8.
Proof.
  induction fixups as [|fixup fixups IH]; intros image what H; [done|].
  unfold apply_fixups in H. simpl in H.
  destruct (apply_fixup _ _ _ _ _ _) as [image1|what1| |] eqn:Hone; try done;
    simpl in H.
  - destruct (IH image1 what H) as (-> & fixup' & Hin & Hsize).
    split; [done|]. exists fixup'. split; [by apply list_elem_of_further|done].
  - injection H as <-. destruct (apply_fixup_throws _ _ _ _ _ Hone) as (-> & Hsize).
    split; [done|]. exists fixup. split; [apply list_elem_of_here|done].
Qed.

Lemma nullify_pe_directory_no_throw p i what :
  nullify_pe_directory arch p i ≠ Throw what.
Proof.
  unfold nullify_pe_directory. destruct (_ && _); [|done].
  by destruct (write_le _ _ _ _).
Qed.

(** X12.  [FixFinishedPe] throws [unsupported fixup size] at the first fixup
    whose size is neither 4 nor 8, once the fixups before it are applied and
    the file offset of the fixup is found.  It throws nothing else: every
    enumerator of [FixupOperation] is handled, so [unsupported fixup
    operation] is never thrown, and when the function throws, some fixup has
    such a size. *)
Theorem FixFinishedPe_unsupported_fixup_size
    (p : pe.PortableExecutable) (text_section : pe.IMAGE_SECTION_HEADER) :
  (∀ before fixup after image file_offset,
     run_fixups (pe.GetSectionHeaders p) text_section before (pe.GetPeImage p)
       = Ok image →
     fixup_offset (pe.GetSectionHeaders p) text_section fixup = Ok file_offset →
     size (desc fixup) ≠ 4 → size (desc fixup) ≠ 8 →
     finish p text_section (before ++ fixup :: after)
     = Throw "unsupported fixup size")
  ∧ (∀ fixups what,
       finish p text_section fixups = Throw what →
       what = "unsupported fixup size"
       ∧ ∃ fixup, fixup ∈ fixups ∧ size (desc fixup) ≠ 4 ∧ size (desc fixup) ≠ 8).
Proof.
  split.
  - intros before fixup after image file_offset Hbefore Hoffset H4 H8.
    unfold FixFinishedPe.
    rewrite apply_fixups_app, Hbefore. cbn [mbind Result_bind].
    unfold apply_fixups. cbn [foldM]. unfold apply_fixup. rewrite Hoffset.
    cbn [mbind Result_bind].
    destruct (Z.eqb_spec (size (desc fixup)) 4); [done|].
    destruct (Z.eqb_spec (size (desc fixup)) 8); [done|]. done.
  - intros fixups what H. unfold FixFinishedPe in H.
    destruct (run_fixups _ _ _ _) as [image|what1| |] eqn:Hrun; try done;
      simpl in H.
    + destruct (nullify_pe_directory _ _ _) as [p1| | |] eqn:Hfirst; try done;
        simpl in H.
      * by apply nullify_pe_directory_no_throw in H.
      * by apply nullify_pe_directory_no_throw in Hfirst.
    + injection H as <-. by eapply apply_fixups_throws.
Qed.

End FixupErrors.

(* --------------------------------------------------------------------- *)
(** ** Nullified directories *)

Section NullifiedDirectory.

Import protector.

Variable arch : Arch.

Lemma write_bytes_lookup_out (bs : list Z) : ∀ off (buf : list Z) k,
  (k < off ∨ off + length bs <= k)%nat →
  write_bytes off bs buf !! k = buf !! k.
Proof.
  induction bs as [|b bs IH]; intros off buf k Hk; [done|].
  simpl in *. rewrite IH by lia. apply list_lookup_insert_ne. lia.
Qed.

Lemma write_bytes_lookup_in (bs : list Z) : ∀ off (buf : list Z) k,
  (off + length bs <= length buf)%nat → (off <= k < off + length bs)%nat →
  write_bytes off bs buf !! k = bs !! (k - off)%nat.
Proof.
  induction bs as [|b bs IH]; intros off buf k Hfit Hk; simpl in *; [lia|].
  destruct (decide (k = off)) as [->|Hne].
  - rewrite write_bytes_lookup_out by lia. rewrite Nat.sub_diag. simpl.
    apply list_lookup_insert_eq. lia.
  - rewrite IH by (rewrite ?length_insert; lia).
    replace (k - off)%nat with (S (k - S off)) by lia. done.
Qed.

(** X13.  The lambda [nullify_pe_directory] of [FixFinishedPe] overwrites the
    content of a data directory with zero bytes and zeroes the entry of the
    directory in the headers.  Every other byte of the image, the length of
    the image and the section headers are kept. *)
Theorem nullify_pe_directory_zeroes (p p' : pe.PortableExecutable) (i : nat) :
  let nt := pe.GetNtHeaders p in
  let directory := pe.GetDataDirectory nt i in
  let first := pe.RvaToFileOffset (pe.GetSectionHeaders p) (pe.dir_VirtualAddress directory) in
  let size := pe.dir_Size directory in
  let entry := pe.DataDirectoryOffset arch p i in
  let image := pe.GetPeImage p in
  let image' := pe.GetPeImage p' in
  nullify_pe_directory arch p i = Ok p' →
  length image' = length image
  (* the content of the directory and its entry in the headers are zero *)
  ∧ (∀ k, first <= k < first + size → image' !! Z.to_nat k = Some 0)
  ∧ read_le image' entry 8 = Some 0
  ∧ ((i < length (pe.DataDirectory nt))%nat →
     pe.GetDataDirectory (pe.GetNtHeaders p') i
     = {| pe.dir_VirtualAddress := 0; pe.dir_Size := 0 |})
  (* every other byte is kept *)
  ∧ (∀ k, 0 <= k → ¬ first <= k < first + size → ¬ entry <= k < entry + 8 →
       image' !! Z.to_nat k = image !! Z.to_nat k)
  ∧ pe.GetSectionHeaders p' = pe.GetSectionHeaders p.
Proof.
  intros nt directory first size entry image image'.
  unfold nullify_pe_directory. fold nt directory first size entry image.
  destruct (Z.leb_spec 0 first) as [Hfirst|]; [|done].
  destruct (Z.leb_spec (first + size) (Z.of_nat (length image))) as [Hfit|]; [|done].
  cbn [andb].
  destruct (write_le _ entry 8 0) as [written|] eqn:Hwrite; [|done].
  cbn [deref mbind Result_bind]. intros [= <-]. unfold image'.
  cbn [pe.GetPeImage pe.SetNtHeaders pe.SetPeImage pe.GetNtHeaders
       pe.GetSectionHeaders].
  unfold write_le in Hwrite.
  destruct ((0 <=? entry) && _) eqn:Hrange; [|done].
  apply andb_true_iff in Hrange as [Hentry Hentry_fit].
  apply Z.leb_le in Hentry, Hentry_fit.
  rewrite length_write_bytes in Hentry_fit.
  assert (written
          = write_bytes (Z.to_nat entry) (le_bytes 8 0)
              (write_bytes (Z.to_nat first) (replicate (Z.to_nat size) 0) image))
    as -> by congruence.
  clear Hwrite.
  split; [by rewrite !length_write_bytes|].
  split; [|split; [|split; [|split; [|done]]]].
  - intros k Hk.
    destruct (decide (entry <= k < entry + 8)) as [Hin|Hout].
    + rewrite write_bytes_lookup_in
        by (rewrite ?length_write_bytes, ?length_le_bytes; lia).
      destruct (Z.to_nat k - Z.to_nat entry)%nat as [|[|[|[|[|[|[|[|j]]]]]]]] eqn:Hj;
        try done.
      lia.
    + rewrite write_bytes_lookup_out by (rewrite length_le_bytes; lia).
      rewrite write_bytes_lookup_in by (rewrite ?length_replicate; lia).
      apply lookup_replicate_2. lia.
  - rewrite read_le_write_bytes by (rewrite ?length_write_bytes; lia). done.
  - intros Hi. by apply GetDataDirectory_SetDataDirectory.
  - intros k Hk Hdirectory Hentry'.
    rewrite write_bytes_lookup_out by (rewrite length_le_bytes; lia).
    rewrite write_bytes_lookup_out by (rewrite length_replicate; lia). done.
Qed.

End NullifiedDirectory.

Lemma nullify_pe_directory_zeroes_witness :
  ∃ p',
    protector.nullify_pe_directory X86 examples.debug_pe
      pe.IMAGE_DIRECTORY_ENTRY_DEBUG = Ok p'
    ∧ take 13 (pe.GetPeImage p')
      = replicate 8 0xAA ++ replicate 4 0 ++ [0xAA]
    ∧ read_le (pe.GetPeImage p') 168 8 = Some 0.
Proof.
  eexists. split; [reflexivity|]. split; [reflexivity|].
  refine (proj1 (proj2 (proj2
    (nullify_pe_directory_zeroes X86 examples.debug_pe _
       pe.IMAGE_DIRECTORY_ENTRY_DEBUG _)))).
  reflexivity.
Defined.

(* --------------------------------------------------------------------- *)
(** ** The checks at the start of Protect *)

Section ProtectRejects.

Import protector.

Context {VmOpcode : Type}.
Variable arch : Arch.
Variable ENABLE_TLS_CALLBACKS : bool.
Variable DEFAULT_PE_BASE_ADDRESS : Z.
Variable VM_FUNCTIONS_SECTION_NAME : string.
Variable VM_LOADER_SECTION_NAME : string.
Variable VM_CODE_SECTION_NAME : string.
Variable virtualizer : Virtualizer VmOpcode.
Variable ReadInterpreterPe : Result pe.PortableExecutable.
Variable IsValid : pe.PortableExecutable → bool.
Variable Relocate : pe.PortableExecutable → Z → pe.PortableExecutable.
Variable CopySectionDeep : pe.PortableExecutable → pe.IMAGE_SECTION_HEADER → pe.Section.
Variable CopySectionsDeep : pe.PortableExecutable → list pe.Section.
Variable Build : pe.IMAGE_NT_HEADERS → list pe.Section → pe.PortableExecutable.
Variable ObfuscateRTTI : pe.PortableExecutable → pe.PortableExecutable.
Variable cs_open_status : Z.
Variable cs_option_status : Z.
Variable nullptr : Z.

Local Abbreviation protect :=
  (Protect arch ENABLE_TLS_CALLBACKS DEFAULT_PE_BASE_ADDRESS
     VM_FUNCTIONS_SECTION_NAME VM_LOADER_SECTION_NAME VM_CODE_SECTION_NAME
     virtualizer ReadInterpreterPe IsValid Relocate CopySectionDeep
     CopySectionsDeep Build ObfuscateRTTI cs_open_status cs_option_status nullptr).

(** X14.  [Protect] checks its inputs in this order.  An image whose optional
    header magic is the one of the other width is refused with a message
    that names the other build, before anything else is done.  Then the
    disassembly engine is constructed, and a failure of [cs_open] or of
    [cs_option] is thrown by its constructor before the interpreter is
    read.  Then an exception of reading the interpreter is passed on, an
    invalid interpreter is refused, and an interpreter that does not export
    [VmInterpreter] is refused with [Unable to find theVmInterpreter]. *)
Theorem Protect_checks_its_inputs_in_order
    (fuel : nat) (events : list DisassemblyEvent) (original_pe : pe.PortableExecutable) :
  let magic := pe.Magic (pe.GetNtHeaders original_pe) in
  let expected :=
    match arch with
    | X86 => pe.IMAGE_NT_OPTIONAL_HDR32_MAGIC
    | X64 => pe.IMAGE_NT_OPTIONAL_HDR64_MAGIC
    end in
  let engine_constructed :=
    magic = expected
    ∧ cs_open_status = PeDisassemblyEngine.CS_ERR_OK
    ∧ cs_option_status = PeDisassemblyEngine.CS_ERR_OK in
  (* an image of the other width is refused before anything is read *)
  (magic ≠ expected →
   protect fuel events original_pe
   = Throw match arch with
           | X86 => "Please use the x64 version of GreyM to protect this executable."
           | X64 => "Please use the x86 version of GreyM to protect this executable."
           end)
  (* then the engine is constructed ... *)
  ∧ (magic = expected → cs_open_status ≠ PeDisassemblyEngine.CS_ERR_OK →
     protect fuel events original_pe
     = Throw ("cs_open failed with error code " +:+ pretty cs_open_status))
  ∧ (magic = expected → cs_open_status = PeDisassemblyEngine.CS_ERR_OK →
     cs_option_status ≠ PeDisassemblyEngine.CS_ERR_OK →
     protect fuel events original_pe = Throw "cs_option failed with error code 0")
  (* ... the interpreter is read ... *)
  ∧ (engine_constructed → ∀ what,
       ReadInterpreterPe = Throw what → protect fuel events original_pe = Throw what)
  (* ... validated ... *)
  ∧ (engine_constructed → ∀ interpreter_pe,
       ReadInterpreterPe = Ok interpreter_pe → IsValid interpreter_pe = false →
       protect fuel events original_pe
       = Throw "Interpreter is not valid portable executable")
  (* ... and searched for the entry point of the interpreter *)
  ∧ (engine_constructed → ∀ interpreter_pe,
       ReadInterpreterPe = Ok interpreter_pe → IsValid interpreter_pe = true →
       (∀ exprt, exprt ∈ pe.GetExports interpreter_pe →
                 pe.function_name exprt ≠ "VmInterpreter") →
       protect fuel events original_pe = Throw "Unable to find theVmInterpreter").
Proof.
  intros magic expected engine_constructed.
  unfold Protect, PeDisassemblyEngine.new_PeDisassemblyEngine.
  fold magic. fold expected.
  split; [|split; [|split; [|split; [|split]]]].
  - intros Hmagic. by rewrite (proj2 (Z.eqb_neq _ _) Hmagic).
  - intros -> Hopen. rewrite Z.eqb_refl.
    by rewrite (proj2 (Z.eqb_neq _ _) Hopen).
  - intros -> -> Hoption. rewrite Z.eqb_refl.
    by rewrite (proj2 (Z.eqb_neq _ _) Hoption).
  - intros (-> & -> & ->) what ->. by rewrite Z.eqb_refl.
  - intros (-> & -> & ->) interpreter_pe -> Hvalid. rewrite Z.eqb_refl. simpl.
    by rewrite Hvalid.
  - intros (-> & -> & ->) interpreter_pe -> Hvalid Hexports.
    rewrite Z.eqb_refl. simpl. rewrite Hvalid. simpl.
    rewrite (GetExportedFunctionOffsetRelativeToSection_missing
               interpreter_pe "VmInterpreter") by done.
    done.
Qed.

End ProtectRejects.

(* --------------------------------------------------------------------- *)
(** ** What a call of the instruction callback changes *)

Section CallbackOutcomes.

Import protector.

Context {VmOpcode : Type}.
Variable arch : Arch.
Variable virtualizer : Virtualizer VmOpcode.
Variable nt : pe.IMAGE_NT_HEADERS.
Variable interpreter_function_offset : Z.
Variable text_header : pe.IMAGE_SECTION_HEADER.
Variable relocation_rvas : list Z.

Local Abbreviation callback :=
  (EachInstructionCallback arch virtualizer nt interpreter_function_offset
     text_header relocation_rvas).

Lemma store_bytes_length buf off bs buf' :
  store_bytes buf off bs = Ok buf' → length buf' = length buf.
Proof.
  unfold store_bytes. destruct (_ && _); [|done]. intros [= <-].
  apply length_write_bytes.
Qed.

(** X15.  A call of the instruction callback that returns counts the
    instruction, and either leaves the context and the count of virtualized
    instructions alone, or virtualizes the instruction: then the text section
    keeps its name and its length, exactly three fixups of 4 bytes are added
    (two in the loader section, one in the text section), one offset of the
    loader section is recorded for relocation, and the relocations inside
    the instruction are added to the RVAs to remove.  The callback returns
    only for an instruction that leaves the flags alone or that the
    virtualizer refuses. *)
Theorem EachInstructionCallback_outcomes st instruction rnd st' :
  callback st instruction rnd = Ok st' →
  let ctx := protector_context st in
  let ctx' := protector_context st' in
  let fc := fixup_context ctx in
  let fc' := fixup_context ctx' in
  let relocs :=
    GetRelocationsWithinInstruction (capstone.address instruction)
      (capstone.size instruction) relocation_rvas in
  total_disassembled_instructions st' = u32 (total_disassembled_instructions st + 1)
  ∧ (capstone.eflags (capstone.detail instruction) = 0
     ∨ IsVirtualizeable virtualizer instruction (GetVmOpcode virtualizer instruction)
       = false)
  ∧ ((* the instruction is left alone *)
     (ctx' = ctx
      ∧ total_virtualized_instructions st' = total_virtualized_instructions st)
     ∨ (* the instruction is virtualized *)
     (total_virtualized_instructions st'
      = u32 (total_virtualized_instructions st + 1)
      ∧ length (pe.GetData (new_text_section ctx'))
        = length (pe.GetData (new_text_section ctx))
      ∧ pe.GetName (new_text_section ctx') = pe.GetName (new_text_section ctx)
      ∧ (∃ jmp_back code_addr jmp_to_loader,
           fixups fc' = fixups fc ++ [jmp_back; code_addr; jmp_to_loader]
           ∧ offset_type (desc jmp_back) = VmLoaderSection
           ∧ operation (desc jmp_back) = SubtractVmLoaderSectionVirtualAddress
           ∧ offset_type (desc code_addr) = VmLoaderSection
           ∧ operation (desc code_addr) = AddVirtualizedCodeSectionVirtualAddress
           ∧ offset_type (desc jmp_to_loader) = TextSection
           ∧ operation (desc jmp_to_loader) = AddVmLoaderSectionVirtualAddress
           ∧ size (desc jmp_back) = 4 ∧ size (desc code_addr) = 4
           ∧ size (desc jmp_to_loader) = 4)
      ∧ (∃ image_base_offset,
           vm_section_offsets_to_add_to_relocation_table fc'
           = vm_section_offsets_to_add_to_relocation_table fc ++ [image_base_offset])
      ∧ relocation_rvas_to_remove fc' = relocation_rvas_to_remove fc ++ relocs
      ∧ virtualized_code_section_offsets_to_add_to_relocation_table fc'
        = virtualized_code_section_offsets_to_add_to_relocation_table fc)).
Proof.
  unfold EachInstructionCallback. intros H.
  destruct (IsVirtualizeable virtualizer instruction _) eqn:Hvirt.
  2: { injection H as <-. simpl. split; [done|]. split; [by right|]. by left. }
  destruct (Z.eqb_spec (capstone.eflags (capstone.detail instruction)) 0)
    as [Hflags|]; [|done].
  cbn [negb] in H.
  destruct (0 <? length _)%nat.
  2: { injection H as <-. simpl. split; [done|]. split; [by left|]. by left. }
  destruct (pe.AppendCode (virtualized_code_section _) _ _ _) as [vcs code_offset].
  destruct (pe.AppendCode (vm_loader_section _) _ _ _) as [vls loader_offset].
  destruct (store_bytes _ _ _) as [data1| | |] eqn:Hfill; try done.
  cbn [mbind Result_bind] in H.
  destruct (store_bytes data1 _ _) as [data2| | |] eqn:Hopcode; try done.
  cbn [mbind Result_bind] in H.
  destruct (store_bytes data2 _ _) as [data3| | |] eqn:Hdisp; try done.
  cbn [mbind Result_bind] in H.
  injection H as <-. simpl.
  split; [done|]. split; [by left|]. right.
  split; [done|]. split.
  { rewrite (store_bytes_length _ _ _ _ Hdisp), (store_bytes_length _ _ _ _ Hopcode).
    apply (store_bytes_length _ _ _ _ Hfill). }
  split; [done|]. split.
  { eexists _, _, _. rewrite <- !app_assoc. simpl. by repeat split. }
  split; [by eexists|]. done.
Qed.

End CallbackOutcomes.

Lemma EachInstructionCallback_outcomes_witness :
  protector.total_disassembled_instructions scenario.virtualized_state = 1
  ∧ capstone.eflags (capstone.detail scenario.mov_insn) = 0.
Proof.
  destruct (EachInstructionCallback_outcomes X86 scenario.virtualizer
              scenario.nt_headers 0 scenario.text_header scenario.relocation_rvas
              scenario.initial_state scenario.mov_insn scenario.random
              scenario.virtualized_state eq_refl) as (Hcount & _ & _).
  split; [exact Hcount|reflexivity].
Defined.

(* --------------------------------------------------------------------- *)
(** ** Instructions shorter than the jump *)

Section ShortInstruction.

Import protector.

Context {VmOpcode : Type}.
Variable arch : Arch.
Variable virtualizer : Virtualizer VmOpcode.
Variable nt : pe.IMAGE_NT_HEADERS.
Variable interpreter_function_offset : Z.
Variable text_header : pe.IMAGE_SECTION_HEADER.
Variable relocation_rvas : list Z.

Local Abbreviation callback :=
  (EachInstructionCallback arch virtualizer nt interpreter_function_offset
     text_header relocation_rvas).

(** The opcode and the displacement take five bytes, whatever was there. *)
Lemma jump_store (buf : list Z) off displacement :
  (off + 5 <= length buf)%nat →
  let patched :=
    write_bytes (S off) (le_bytes 4 displacement) (write_bytes off [kJmpOpcode] buf) in
  take 5 (drop off patched) = kJmpOpcode :: le_bytes 4 displacement
  ∧ take off patched = take off buf
  ∧ drop (off + 5) patched = drop (off + 5) buf
  ∧ length patched = length buf.
Proof.
  intros Hfit patched. subst patched. split; [|split; [|split]].
  - change 5%nat with (1 + 4)%nat. rewrite take_drop_split.
    rewrite Nat.add_1_r.
    rewrite write_le_bytes_same by (rewrite !length_write_bytes; lia).
    rewrite write_bytes_frame
      by (rewrite ?length_write_bytes, ?length_le_bytes; lia).
    rewrite (write_bytes_same [kJmpOpcode]) by (simpl; lia).
    done.
  - rewrite !write_bytes_prefix
      by (rewrite ?length_write_bytes, ?length_le_bytes; simpl; lia).
    done.
  - rewrite !write_bytes_suffix
      by (rewrite ?length_write_bytes, ?length_le_bytes; simpl; lia).
    done.
  - by rewrite !length_write_bytes.
Qed.

(** X16.  The callback does not look at the size of the instruction: an
    instruction of fewer than five bytes that the virtualizer accepts gets
    the five byte jump at its address all the same, so that bytes after the
    instruction are overwritten.  The bytes before the instruction and from
    the fifth byte on are kept. *)
Theorem EachInstructionCallback_patch_spills_over st instruction rnd :
  let ctx := protector_context st in
  let relocs :=
    GetRelocationsWithinInstruction (capstone.address instruction)
      (capstone.size instruction) relocation_rvas in
  let off := pe.RvaToSectionOffset text_header (u32 (capstone.address instruction)) in
  let loader_offset := pe.GetCurrentOffset (vm_loader_section ctx) in
  let data := pe.GetData (new_text_section ctx) in
  IsVirtualizeable virtualizer instruction (GetVmOpcode virtualizer instruction)
    = true →
  capstone.eflags (capstone.detail instruction) = 0 →
  CreateVirtualizedShellcode virtualizer instruction
    (GetVmOpcode virtualizer instruction) (RandomU32 rnd) relocs ≠ [] →
  0 <= capstone.size instruction < 5 →
  0 <= off → off + 5 <= Z.of_nat (length data) →
  ∃ st',
    callback st instruction rnd = Ok st'
    ∧ let text := pe.GetData (new_text_section (protector_context st')) in
      take 5 (drop (Z.to_nat off) text)
      = 0xE9 :: le_bytes 4 (u32 (loader_offset - capstone.address instruction - 5))
      ∧ length text = length data
      ∧ take (Z.to_nat off) text = take (Z.to_nat off) data
      ∧ drop (Z.to_nat off + 5) text = drop (Z.to_nat off + 5) data.
Proof.
  intros ctx relocs off loader_offset data Hvirt Hflags Hcode Hsize Hoff Hin.
  set (fill := map (λ i, u8 (RandomU8 rnd i))
                 (seq 0 (Z.to_nat (capstone.size instruction)))).
  assert (Hfill : length fill = Z.to_nat (capstone.size instruction))
    by (subst fill; by rewrite length_map, length_seq).
  unfold EachInstructionCallback.
  rewrite Hvirt, Hflags. cbn [Z.eqb negb].
  fold relocs.
  destruct (CreateVirtualizedShellcode virtualizer instruction _ _ relocs)
    as [|b code] eqn:Hshell; [done|].
  cbn [length Nat.ltb Nat.leb].
  unfold pe.AppendCode at 1 2.
  fold ctx. fold loader_offset. fold off. fold data. fold fill.
  rewrite (store_bytes_in_range data off fill) by lia.
  cbn [mbind Result_bind].
  rewrite (store_bytes_in_range _ off [kJmpOpcode])
    by (rewrite ?length_write_bytes; simpl length; lia).
  cbn [mbind Result_bind].
  rewrite (store_bytes_in_range _ (off + 1) (le_bytes 4 _))
    by (rewrite ?length_write_bytes, ?length_le_bytes; simpl length; lia).
  cbn [mbind Result_bind].
  eexists. split; [reflexivity|].
  cbn [protector_context new_text_section pe.SetData pe.GetData].
  replace (Z.to_nat (off + 1)) with (S (Z.to_nat off)) by lia.
  destruct (jump_store (write_bytes (Z.to_nat off) fill data) (Z.to_nat off)
              (u32 (u32 (loader_offset - capstone.address instruction)
                    - kJmpInstructionSize)))
    as (Hpatch & Hbefore & Hafter & Hlength).
  { rewrite length_write_bytes. lia. }
  rewrite Hpatch, Hlength, Hbefore, Hafter, length_write_bytes.
  split; [|split; [done|split]].
  - unfold kJmpOpcode, kJmpInstructionSize, u32. by rewrite wrap_sub_l.
  - apply write_bytes_before. lia.
  - apply write_bytes_suffix; lia.
Qed.

End ShortInstruction.

Lemma EachInstructionCallback_patch_spills_over_witness :
  ∃ st',
    scenario.each_instruction scenario.initial_state (scenario.mov_ebp_esp 0x1000)
      scenario.random = Ok st'
    ∧ take 5 (pe.GetData (protector.new_text_section (protector.protector_context st')))
      = [0xE9; 0x3B; 0xF0; 0xFF; 0xFF]
    ∧ take 5 scenario.text_bytes = [0xB8; 0x78; 0x56; 0x34; 0x12].
Proof.
  destruct (EachInstructionCallback_patch_spills_over X86 scenario.virtualizer
              scenario.nt_headers 0 scenario.text_header scenario.relocation_rvas
              scenario.initial_state (scenario.mov_ebp_esp 0x1000) scenario.random)
    as (st' & Hrun & Hpatch & _).
  - reflexivity.
  - reflexivity.
  - discriminate.
  - vm_compute. split; [discriminate|reflexivity].
  - vm_compute. discriminate.
  - vm_compute. discriminate.
  - exists st'. split; [exact Hrun|]. split; [exact Hpatch|reflexivity].
Defined.

(* --------------------------------------------------------------------- *)
(** ** Virtualize, then roll back *)

Section VirtualizeAndRollBack.

Import protector.

Context {VmOpcode : Type}.
Variable arch : Arch.
Variable virtualizer : Virtualizer VmOpcode.
Variable nt : pe.IMAGE_NT_HEADERS.
Variable interpreter_function_offset : Z.
Variable text_header : pe.IMAGE_SECTION_HEADER.
Variable text_copy : pe.Section.
Variable relocation_rvas : list Z.

Local Abbreviation callback :=
  (EachInstructionCallback arch virtualizer nt interpreter_function_offset
     text_header relocation_rvas).
Local Abbreviation rollback :=
  (InvalidInstructionCallback text_header text_copy relocation_rvas).

Lemma EachInstructionCallback_counts st instruction rnd st' :
  callback st instruction rnd = Ok st' →
  IsVirtualizeable virtualizer instruction (GetVmOpcode virtualizer instruction)
    = true →
  CreateVirtualizedShellcode virtualizer instruction
    (GetVmOpcode virtualizer instruction) (RandomU32 rnd)
    (GetRelocationsWithinInstruction (capstone.address instruction)
       (capstone.size instruction) relocation_rvas) ≠ [] →
  total_virtualized_instructions st' = u32 (total_virtualized_instructions st + 1).
Proof.
  unfold EachInstructionCallback. intros H Hvirt Hcode. rewrite Hvirt in H.
  destruct (negb _); [done|].
  destruct (CreateVirtualizedShellcode virtualizer instruction _ _ _)
    as [|b code]; [done|].
  cbn [length Nat.ltb Nat.leb] in H.
  destruct (pe.AppendCode (virtualized_code_section _) _ _ _) as [vcs code_offset].
  destruct (pe.AppendCode (vm_loader_section _) _ _ _) as [vls loader_offset].
  destruct (store_bytes _ _ _) as [data1| | |]; try done.
  cbn [mbind Result_bind] in H.
  destruct (store_bytes data1 _ _) as [data2| | |]; try done.
  cbn [mbind Result_bind] in H.
  destruct (store_bytes data2 _ _) as [data3| | |]; try done.
  cbn [mbind Result_bind] in H.
  by injection H as <-.
Qed.

(** X17.  Virtualizing an instruction of five bytes or more and then
    reporting it as invalid gives back the bytes of the text section of
    before, when the saved copy of the section holds the bytes of the
    instruction, and the RVAs to remove of before, when no relocation of the
    instruction was among them.  The three fixups of the instruction and the
    count of virtualized instructions are not taken back. *)
Theorem InvalidInstructionCallback_undoes_the_patch st instruction rnd :
  let ctx := protector_context st in
  let address := capstone.address instruction in
  let n := capstone.size instruction in
  let relocs := GetRelocationsWithinInstruction address n relocation_rvas in
  let off := pe.RvaToSectionOffset text_header address in
  let data := pe.GetData (new_text_section ctx) in
  IsVirtualizeable virtualizer instruction (GetVmOpcode virtualizer instruction)
    = true →
  capstone.eflags (capstone.detail instruction) = 0 →
  CreateVirtualizedShellcode virtualizer instruction
    (GetVmOpcode virtualizer instruction) (RandomU32 rnd) relocs ≠ [] →
  5 <= n → 0 <= address < 2 ^ 32 →
  0 <= off → off + n <= Z.of_nat (length data) →
  (* the saved copy holds the bytes of the instruction *)
  take (Z.to_nat n) (drop (Z.to_nat off) (pe.GetData text_copy))
    = take (Z.to_nat n) (drop (Z.to_nat off) data) →
  (∀ r, r ∈ relocs → r ∉ relocation_rvas_to_remove (fixup_context ctx)) →
  ∃ st1 st2,
    callback st instruction rnd = Ok st1
    ∧ rollback st1 address n = Ok st2
    ∧ pe.GetData (new_text_section (protector_context st2)) = data
    ∧ relocation_rvas_to_remove (fixup_context (protector_context st2))
      = relocation_rvas_to_remove (fixup_context ctx)
    (* what the rollback leaves in place *)
    ∧ fixups (fixup_context (protector_context st2))
      = fixups (fixup_context (protector_context st1))
    ∧ length (fixups (fixup_context (protector_context st2)))
      = (length (fixups (fixup_context ctx)) + 3)%nat
    ∧ total_virtualized_instructions st2
      = u32 (total_virtualized_instructions st + 1).
Proof.
  intros ctx address n relocs off data Hvirt Hflags Hcode Hsize Haddress Hoff Hin
    Hcopy Hfresh.
  assert (u32 (capstone.address instruction) = address) as Hu32.
  { unfold u32, wrap. by apply Z.mod_small. }
  destruct (EachInstructionCallback_virtualizes arch virtualizer nt
              interpreter_function_offset text_header relocation_rvas st
              instruction rnd) as (st1 & Hrun1 & Htext1 & Hfixups1 & Hremove1);
    rewrite ?Hu32; try done.
  rewrite Hu32 in Htext1. fold off data in Htext1.
  assert (length (pe.GetData (new_text_section (protector_context st1)))
          = length data
          ∧ take (Z.to_nat off) (pe.GetData (new_text_section (protector_context st1)))
            = take (Z.to_nat off) data
          ∧ drop (Z.to_nat off + Z.to_nat n)
                 (pe.GetData (new_text_section (protector_context st1)))
            = drop (Z.to_nat off + Z.to_nat n) data)
    as (Hlength & Hbefore & Hafter).
  { rewrite Htext1.
    match goal with
    | |- context [write_bytes _ (le_bytes 4 ?d) (write_bytes ?o _ (write_bytes _ ?f _))] =>
        assert (length f = Z.to_nat n) as Hfill
          by (by rewrite length_map, length_seq);
        rewrite <- Hfill; apply (jump_bytes_outside data f o d); lia
    end. }
  clear Htext1.
  set (text1 := pe.GetData (new_text_section (protector_context st1))) in *.
  assert (length (take (Z.to_nat n) (drop (Z.to_nat off) (pe.GetData text_copy)))
          = Z.to_nat n) as Hcopy_length.
  { rewrite Hcopy, length_take, length_drop. lia. }
  assert (off + n <= Z.of_nat (length (pe.GetData text_copy))) as Hcopy_fit.
  { rewrite length_take, length_drop in Hcopy_length. lia. }
  assert (rollback st1 address n
          = Ok {| protector_context :=
                    set_fixup_context
                      (set_new_text_section (protector_context st1)
                         (pe.SetData (new_text_section (protector_context st1))
                            (write_bytes (Z.to_nat off)
                               (take (Z.to_nat n)
                                  (drop (Z.to_nat off) (pe.GetData text_copy)))
                               text1)))
                      (set_relocation_rvas_to_remove
                         (fixup_context (protector_context st1))
                         (fold_left (λ to_remove reloc_rva,
                                       erase_first reloc_rva to_remove)
                            relocs
                            (relocation_rvas_to_remove
                               (fixup_context (protector_context st1)))));
                  total_virtualized_instructions :=
                    total_virtualized_instructions st1;
                  total_disassembled_instructions :=
                    total_disassembled_instructions st1 |}) as Hrun2.
  { unfold InvalidInstructionCallback. fold off. fold text1.
    destruct (Z.leb_spec 0 off); [|lia].
    destruct (Z.leb_spec (off + n) (Z.of_nat (length (pe.GetData text_copy))));
      [|lia].
    cbn [andb mbind Result_bind].
    rewrite store_bytes_in_range by (rewrite ?Hcopy_length; lia).
    done. }
  eexists st1, _. split; [exact Hrun1|]. split; [exact Hrun2|].
  cbn [protector_context set_fixup_context set_new_text_section new_text_section
       pe.SetData pe.GetData fixup_context set_relocation_rvas_to_remove
       relocation_rvas_to_remove fixups total_virtualized_instructions].
  split; [|split; [|split; [done|split]]].
  - rewrite write_bytes_eq by (rewrite Hcopy_length; lia).
    rewrite Hcopy_length, Hbefore, Hcopy, Hafter.
    rewrite <- drop_drop. by rewrite !take_drop.
  - rewrite Hremove1. by apply erase_all_appended.
  - destruct Hfixups1 as (f1 & f2 & ->). rewrite length_app. done.
  - by apply (EachInstructionCallback_counts st instruction rnd st1).
Qed.

End VirtualizeAndRollBack.

Lemma InvalidInstructionCallback_undoes_the_patch_witness :
  ∃ st1 st2,
    scenario.each_instruction scenario.initial_state scenario.mov_insn
      scenario.random = Ok st1
    ∧ scenario.invalid_instruction st1 0x1000 5 = Ok st2
    ∧ pe.GetData (protector.new_text_section (protector.protector_context st2))
      = scenario.text_bytes
    ∧ protector.relocation_rvas_to_remove
        (protector.fixup_context (protector.protector_context st2)) = [].
Proof.
  destruct (InvalidInstructionCallback_undoes_the_patch X86 scenario.virtualizer
              scenario.nt_headers 0 scenario.text_header scenario.text_section
              scenario.relocation_rvas scenario.initial_state scenario.mov_insn
              scenario.random)
    as (st1 & st2 & Hrun1 & Hrun2 & Htext & Hremove & _).
  - reflexivity.
  - reflexivity.
  - discriminate.
  - vm_compute. discriminate.
  - vm_compute. split; [discriminate|reflexivity].
  - vm_compute. discriminate.
  - vm_compute. discriminate.
  - reflexivity.
  - intros r _ Hr. simpl in Hr. exact (not_elem_of_nil r Hr).
  - exists st1, st2. split; [exact Hrun1|]. split; [exact Hrun2|].
    split; [exact Htext|exact Hremove].
Defined.

(* --------------------------------------------------------------------- *)
(** ** The constructor *)

Section Constructor.

Import PeDisassemblyEngine.

(** X18.  The constructor throws when [cs_open] or [cs_option] fails.  The
    message for [cs_option] is built from the status of [cs_open], which is
    CS_ERR_OK at that point, so the message always ends in 0.  An engine that
    is constructed has no disassembly point to continue from, and no address
    is data of the code section. *)
Theorem new_PeDisassemblyEngine_outcomes (cs_open_status cs_option_status nullptr : Z) :
  (cs_open_status ≠ CS_ERR_OK →
   new_PeDisassemblyEngine cs_open_status cs_option_status nullptr
   = Throw ("cs_open failed with error code " +:+ pretty cs_open_status))
  (* the message for [cs_option] carries the status of [cs_open] *)
  ∧ (cs_open_status = CS_ERR_OK → cs_option_status ≠ CS_ERR_OK →
     new_PeDisassemblyEngine cs_open_status cs_option_status nullptr
     = Throw "cs_option failed with error code 0")
  (* a fresh engine has nothing to disassemble and knows no data *)
  ∧ (cs_open_status = CS_ERR_OK → cs_option_status = CS_ERR_OK →
     ∃ e,
       new_PeDisassemblyEngine cs_open_status cs_option_status nullptr = Ok e
       ∧ ContinueFromRedirectionInstructions e = (false, e)
       ∧ invariants.points_known e
       ∧ ∀ address, IsAddressWithinDataSectionOfCode e address = false).
Proof.
  unfold new_PeDisassemblyEngine. split; [|split].
  - intros Hopen. by rewrite (proj2 (Z.eqb_neq _ _) Hopen).
  - intros -> Hoption. by rewrite (proj2 (Z.eqb_neq _ _) Hoption).
  - intros -> ->. eexists. split; [done|]. split; [done|]. split; [|done].
    split; [constructor|]. intros p Hp. by apply elem_of_nil in Hp.
Qed.

End Constructor.

(* --------------------------------------------------------------------- *)
(** ** The queue of disassembly points *)

Section DisassemblyPoints.

Import PeDisassemblyEngine.

Lemma AddDisassemblyPoint_known e point :
  rva point ∈ disassembly_points_cache_ e → AddDisassemblyPoint e point = e.
Proof.
  intros H. unfold AddDisassemblyPoint. by rewrite bool_decide_eq_true_2.
Qed.

Lemma AddDisassemblyPoint_fresh e point :
  rva point ∉ disassembly_points_cache_ e →
  AddDisassemblyPoint e point
  = set_points e (disassembly_points_ e ++ [point])
      ({[ rva point ]} ∪ disassembly_points_cache_ e).
Proof.
  intros H. unfold AddDisassemblyPoint. by rewrite bool_decide_eq_false_2.
Qed.

Lemma AddDisassemblyPoint_cached e point :
  rva point ∈ disassembly_points_cache_ (AddDisassemblyPoint e point).
Proof.
  destruct (decide (rva point ∈ disassembly_points_cache_ e)) as [H|H].
  - by rewrite AddDisassemblyPoint_known.
  - rewrite AddDisassemblyPoint_fresh by done. simpl. set_solver.
Qed.

Lemma extends_refl e : invariants.extends e e.
Proof. by repeat split. Qed.

Lemma extends_trans e1 e2 e3 :
  invariants.extends e1 e2 → invariants.extends e2 e3 → invariants.extends e1 e3.
Proof.
  intros (?&?&?&?&?&?&?&?) (?&?&?&?&?&?&?&?).
  repeat split; try (etransitivity; eassumption); congruence.
Qed.

Lemma AddDisassemblyPoint_extends e point :
  invariants.extends e (AddDisassemblyPoint e point).
Proof.
  destruct (decide (rva point ∈ disassembly_points_cache_ e)) as [H|H].
  - rewrite AddDisassemblyPoint_known by done. apply extends_refl.
  - rewrite AddDisassemblyPoint_fresh by done.
    repeat split; simpl; try done; [by apply prefix_app_r|set_solver].
Qed.

Lemma AddDisassemblyPoint_points_known e point :
  invariants.points_known e → invariants.points_known (AddDisassemblyPoint e point).
Proof.
  intros [Hnodup Hcache].
  destruct (decide (rva point ∈ disassembly_points_cache_ e)) as [H|H].
  - by rewrite AddDisassemblyPoint_known.
  - rewrite AddDisassemblyPoint_fresh by done. split; simpl.
    + rewrite map_app. apply NoDup_app. split; [done|]. split.
      * intros x Hx Hx'. simpl in Hx'. apply list_elem_of_singleton in Hx'. subst x.
        apply list_elem_of_fmap in Hx as (p & Hp & Hin).
        apply H. rewrite Hp. by apply Hcache.
      * simpl. apply NoDup_singleton.
    + intros p Hp. apply elem_of_app in Hp as [Hp|Hp].
      * apply Hcache in Hp. set_solver.
      * apply list_elem_of_singleton in Hp. subst p. set_solver.
Qed.

(** X19.  [AddDisassemblyPoint] queues a point only when its RVA was never
    queued before: a new RVA is appended to the queue and cached; a known
    RVA changes nothing, so that a second point with the same RVA is dropped
    even when its code pointer differs.  The queue stays free of duplicate
    RVAs and all its RVAs stay cached. *)
Theorem AddDisassemblyPoint_first_wins e point :
  invariants.points_known e →
  let e' := AddDisassemblyPoint e point in
  invariants.points_known e'
  ∧ rva point ∈ disassembly_points_cache_ e'
  ∧ (∀ again, rva again = rva point → AddDisassemblyPoint e' again = e')
  ∧ (rva point ∉ disassembly_points_cache_ e →
     disassembly_points_ e' = disassembly_points_ e ++ [point])
  ∧ (rva point ∈ disassembly_points_cache_ e → e' = e).
Proof.
  intros Hknown e'. split; [by apply AddDisassemblyPoint_points_known|].
  split; [apply AddDisassemblyPoint_cached|]. split; [|split].
  - intros again Hrva. apply AddDisassemblyPoint_known. rewrite Hrva.
    apply AddDisassemblyPoint_cached.
  - intros H. unfold e'. by rewrite AddDisassemblyPoint_fresh.
  - intros H. by apply AddDisassemblyPoint_known.
Qed.

End DisassemblyPoints.

Lemma AddDisassemblyPoint_first_wins_witness :
  let point :=
    {| PeDisassemblyEngine.rva := 0x1030; PeDisassemblyEngine.code := 0x70 |} in
  let e' := PeDisassemblyEngine.AddDisassemblyPoint scenario.S1_engine point in
  PeDisassemblyEngine.disassembly_points_ e' = [point]
  ∧ PeDisassemblyEngine.AddDisassemblyPoint e'
      {| PeDisassemblyEngine.rva := 0x1030; PeDisassemblyEngine.code := 0x80 |}
    = e'.
Proof.
  destruct (AddDisassemblyPoint_first_wins scenario.S1_engine
              {| PeDisassemblyEngine.rva := 0x1030; PeDisassemblyEngine.code := 0x70 |})
    as (_ & _ & Hagain & Hfresh & _).
  - split; [constructor|]. intros p Hp. destruct (not_elem_of_nil p Hp).
  - split.
    + exact (Hfresh (not_elem_of_empty (C:=gset Z) 0x1030)).
    + exact (Hagain {| PeDisassemblyEngine.rva := 0x1030;
                       PeDisassemblyEngine.code := 0x80 |} eq_refl).
Defined.

(* --------------------------------------------------------------------- *)
(** ** Taking a point from the queue *)

Section Redirection.

Import PeDisassemblyEngine.

(** X20.  [ContinueFromRedirectionInstructions] answers false on an empty
    queue and leaves the engine as it is.  After a point with a new RVA is
    queued, it answers true, takes that point, the last of the queue, as the
    position of the engine and removes it from the queue.  The RVA stays in
    the cache, so the point is not queued a second time. *)
Theorem ContinueFromRedirectionInstructions_takes_last e point :
  rva point ∉ disassembly_points_cache_ e →
  (disassembly_points_ e = [] → ContinueFromRedirectionInstructions e = (false, e))
  ∧ let '(more, e') :=
      ContinueFromRedirectionInstructions (AddDisassemblyPoint e point) in
    more = true
    ∧ code_ e' = code point ∧ address_ e' = rva point
    ∧ disassembly_points_ e' = disassembly_points_ e
    ∧ data_ranges_ e' = data_ranges_ e
    ∧ rva point ∈ disassembly_points_cache_ e'
    ∧ AddDisassemblyPoint e' point = e'.
Proof.
  intros Hfresh. split.
  - intros Hempty. unfold ContinueFromRedirectionInstructions. by rewrite Hempty.
  - rewrite AddDisassemblyPoint_fresh by done.
    unfold ContinueFromRedirectionInstructions. simpl.
    rewrite last_snoc, removelast_last. simpl.
    repeat split; try done; [set_solver|].
    apply AddDisassemblyPoint_known. simpl. set_solver.
Qed.

End Redirection.

Lemma ContinueFromRedirectionInstructions_takes_last_witness :
  let point :=
    {| PeDisassemblyEngine.rva := 0x1030; PeDisassemblyEngine.code := 0x70 |} in
  let '(more, e') :=
    PeDisassemblyEngine.ContinueFromRedirectionInstructions
      (PeDisassemblyEngine.AddDisassemblyPoint scenario.S1_engine point) in
  more = true
  ∧ PeDisassemblyEngine.code_ e' = 0x70 ∧ PeDisassemblyEngine.address_ e' = 0x1030
  ∧ PeDisassemblyEngine.disassembly_points_ e' = []
  ∧ PeDisassemblyEngine.data_ranges_ e' = []
  ∧ 0x1030 ∈ PeDisassemblyEngine.disassembly_points_cache_ e'
  ∧ PeDisassemblyEngine.AddDisassemblyPoint e' point = e'.
Proof.
  exact (proj2 (ContinueFromRedirectionInstructions_takes_last scenario.S1_engine
                  {| PeDisassemblyEngine.rva := 0x1030;
                     PeDisassemblyEngine.code := 0x70 |}
                  (not_elem_of_empty (C:=gset Z) 0x1030))).
Defined.

(* --------------------------------------------------------------------- *)
(** ** Direct calls and jumps *)

Section Branches.

Import PeDisassemblyEngine.

Variable arch : Arch.
Variable pe_ : pe.PortableExecutable.
Variable cs_disasm : Z → Z → Z → nat → list capstone.cs_insn.
Variable cs_disasm_iter : Z → Z → Z → option capstone.cs_insn.

Lemma uptr_u64 x : uptr arch (u64 x) = uptr arch x.
Proof.
  unfold uptr, u64, wrap. apply Z.mod_mod_divide.
  destruct arch; simpl sizeof_uintptr; [by exists (2 ^ 32)|by exists 1].
Qed.

Lemma uptr_add_l x y : uptr arch (uptr arch x + y) = uptr arch (x + y).
Proof. apply wrap_add_l. Qed.

Lemma uptr_add_r x y : uptr arch (x + uptr arch y) = uptr arch (x + y).
Proof. rewrite (Z.add_comm x), uptr_add_l. f_equal. lia. Qed.

(** X21.  A call or a jump with one immediate operand queues the target of
    the branch, with the code pointer of the engine moved from the
    instruction to the target.  The engine goes on with the next queued
    point after [jmp] and [ljmp], and with the next instruction after every
    other branch. *)
Theorem ParseInstruction_direct_branch fuel e instruction :
  let target := capstone.imm (capstone.operand instruction 0) in
  capstone.cs_insn_group instruction capstone.CS_GRP_RET = false →
  capstone.cs_insn_group instruction capstone.CS_GRP_CALL
  || capstone.cs_insn_group instruction capstone.CS_GRP_JUMP = true →
  capstone.op_count (capstone.detail instruction) = 1 →
  capstone.type (capstone.operand instruction 0) = capstone.X86_OP_IMM →
  ParseInstruction arch pe_ cs_disasm cs_disasm_iter fuel e instruction
  = Ok (if IsGuaranteedJump instruction then NextDisassemblyPoint
        else NextInstruction,
        AddDisassemblyPoint e
          {| rva := uptr arch target;
             code := uptr arch (code_ e - capstone.size instruction
                                + (target - capstone.address instruction)) |}).
Proof.
  intros target Hret Hbranch Hcount Htype.
  unfold ParseInstruction. rewrite Hret, Hbranch, Hcount, Htype. simpl.
  rewrite uptr_u64, <- (uptr_add_r (capstone.address instruction) (u64 _)),
    uptr_u64, uptr_add_r.
  rewrite uptr_add_l, <- (uptr_add_r (code_ e - _) (u64 _)), uptr_u64, uptr_add_r.
  replace (capstone.address instruction
           + (capstone.imm (capstone.operand instruction 0)
              - capstone.address instruction))
    with (capstone.imm (capstone.operand instruction 0)) by lia.
  done.
Qed.

End Branches.

Lemma ParseInstruction_direct_branch_witness :
  PeDisassemblyEngine.ParseInstruction X64 scenario.self_jump_pe
    scenario.self_jump_disasm scenario.self_jump_iter 0 scenario.self_jump_engine
    (scenario.jmp_to 0x1000 0x1008)
  = Ok (PeDisassemblyEngine.NextDisassemblyPoint,
        PeDisassemblyEngine.AddDisassemblyPoint scenario.self_jump_engine
          {| PeDisassemblyEngine.rva := 0x1008; PeDisassemblyEngine.code := 0x46 |}).
Proof.
  exact (ParseInstruction_direct_branch X64 scenario.self_jump_pe
           scenario.self_jump_disasm scenario.self_jump_iter 0
           scenario.self_jump_engine (scenario.jmp_to 0x1000 0x1008)
           eq_refl eq_refl eq_refl eq_refl).
Defined.

(* --------------------------------------------------------------------- *)
(** ** What an instruction can change in the engine *)

Section EngineInvariants.

Import PeDisassemblyEngine.

Variable arch : Arch.
Variable pe_ : pe.PortableExecutable.
Variable cs_disasm : Z → Z → Z → nat → list capstone.cs_insn.
Variable cs_disasm_iter : Z → Z → Z → option capstone.cs_insn.

Lemma kept_refl e : invariants.kept e e.
Proof. split; [apply extends_refl|done]. Qed.

Lemma kept_trans e1 e2 e3 : invariants.kept e1 e2 → invariants.kept e2 e3 → invariants.kept e1 e3.
Proof. intros [? ?] [? ?]. split; [by eapply extends_trans|auto]. Qed.

Lemma kept_AddDisassemblyPoint e point : invariants.kept e (AddDisassemblyPoint e point).
Proof.
  split; [apply AddDisassemblyPoint_extends|apply AddDisassemblyPoint_points_known].
Qed.

Lemma kept_push_data_range e r : invariants.kept e (push_data_range e r).
Proof.
  split; [|done]. repeat split; simpl; try done. by apply prefix_app_r.
Qed.

Lemma ParseJumpTable_loop_kept fuel : ∀ e instruction operand operand_rva i e' i',
  ParseJumpTable_loop arch pe_ fuel e instruction operand operand_rva i = Ok (e', i') →
  invariants.kept e e'.
Proof.
  induction fuel as [|fuel IH]; intros e instruction operand operand_rva i e' i' H;
    [done|].
  simpl in H.
  destruct (pe.FromRva _ _); [|injection H as <- <-; apply kept_refl].
  destruct (read_le _ _ _) as [v|]; [|done]. simpl in H.
  destruct ((v =? 0xCCCCCCCC) || (v =? 0)); [injection H as <- <-; apply kept_refl|].
  destruct (IsRvaWithinText pe_ _) as [[]| | |]; try done; simpl in H.
  - eapply kept_trans; [apply kept_AddDisassemblyPoint|]. eapply IH, H.
  - injection H as <- <-; apply kept_refl.
Qed.

Lemma ParseJumpTable_kept fuel e instruction operand e' :
  ParseJumpTable arch pe_ fuel e instruction operand = Ok e' → invariants.kept e e'.
Proof.
  unfold ParseJumpTable. intros H.
  destruct (GetOperandRva _ _ _) as [operand_rva| | |]; try done. simpl in H.
  destruct (ParseJumpTable_loop _ _ _ _ _ _ _ _) as [[e1 i]| | |] eqn:Hloop;
    try done.
  simpl in H. injection H as <-.
  eapply kept_trans; [eapply ParseJumpTable_loop_kept, Hloop|].
  apply kept_push_data_range.
Qed.

Lemma ParseInstruction_kept fuel e instruction action e' :
  ParseInstruction arch pe_ cs_disasm cs_disasm_iter fuel e instruction
    = Ok (action, e') →
  invariants.kept e e'.
Proof.
  unfold ParseInstruction. intros H.
  repeat match type of H with
  | Ok _ = Ok _ => injection H as <- <-
  | (if ?b then _ else _) = _ => destruct b eqn:?
  | (match ?x with _ => _ end) = _ => destruct x eqn:?; try done; simpl in H
  | mbind _ ?x = _ => destruct x eqn:?; try done; simpl in H
  end;
  try apply kept_refl; try apply kept_AddDisassemblyPoint;
  try (eapply ParseJumpTable_kept; eassumption).
Qed.

(** X22.  [ParseInstruction] only adds: the queue and the data ranges of
    before are prefixes of the ones after, the cache grows, the position of
    the engine is kept, and a queue that is free of duplicate RVAs with all
    its RVAs cached stays so. *)
Theorem ParseInstruction_only_adds fuel e instruction action e' :
  ParseInstruction arch pe_ cs_disasm cs_disasm_iter fuel e instruction
    = Ok (action, e') →
  disassembly_points_ e `prefix_of` disassembly_points_ e'
  ∧ disassembly_points_cache_ e ⊆ disassembly_points_cache_ e'
  ∧ data_ranges_ e `prefix_of` data_ranges_ e'
  ∧ code_ e' = code_ e ∧ address_ e' = address_ e
  ∧ (invariants.points_known e → invariants.points_known e').
Proof.
  intros H. destruct (ParseInstruction_kept _ _ _ _ _ H) as [Hext Hknown].
  destruct Hext as (?&?&?&?&?&_). do 5 (split; [done|]). done.
Qed.

End EngineInvariants.

Lemma ParseInstruction_only_adds_witness :
  let e' :=
    PeDisassemblyEngine.AddDisassemblyPoint scenario.S1_engine
      {| PeDisassemblyEngine.rva := 0x1030; PeDisassemblyEngine.code := 0x70 |} in
  PeDisassemblyEngine.ParseInstruction X86 scenario.S1_pe scenario.prologue_decoder
    scenario.no_iter 5 scenario.S1_engine scenario.mov_mem_imm
  = Ok (PeDisassemblyEngine.NextInstruction, e')
  ∧ PeDisassemblyEngine.disassembly_points_ scenario.S1_engine
      `prefix_of` PeDisassemblyEngine.disassembly_points_ e'.
Proof.
  split; [reflexivity|].
  exact (proj1 (ParseInstruction_only_adds X86 scenario.S1_pe
                  scenario.prologue_decoder scenario.no_iter 5 scenario.S1_engine
                  scenario.mov_mem_imm PeDisassemblyEngine.NextInstruction _ eq_refl)).
Defined.

(* --------------------------------------------------------------------- *)
(** ** Jump tables on X86 need a single operand *)

Section MovOnX86.

Import PeDisassemblyEngine.

Variable pe_ : pe.PortableExecutable.
Variable cs_disasm : Z → Z → Z → nat → list capstone.cs_insn.
Variable cs_disasm_iter : Z → Z → Z → option capstone.cs_insn.

Lemma AddDisassemblyPoint_data_ranges e point :
  data_ranges_ (AddDisassemblyPoint e point) = data_ranges_ e.
Proof. unfold AddDisassemblyPoint. by case_bool_decide. Qed.

Lemma IsJumpTable_x86_two_operands e instruction code rva :
  capstone.op_count (capstone.detail instruction) = 2 →
  IsJumpTable X86 pe_ cs_disasm_iter e instruction code rva = Ok false.
Proof. intros H. unfold IsJumpTable. by rewrite H. Qed.

(** X23.  On X86 a [mov] is never taken for a jump table: the engine goes on
    with the next instruction and records no data range.  The test for a
    jump table fails for every instruction of two operands. *)
Theorem ParseInstruction_x86_mov_is_no_jump_table fuel e instruction action e' :
  capstone.id instruction = capstone.X86_INS_MOV →
  capstone.cs_insn_group instruction capstone.CS_GRP_RET = false →
  capstone.cs_insn_group instruction capstone.CS_GRP_CALL = false →
  capstone.cs_insn_group instruction capstone.CS_GRP_JUMP = false →
  capstone.cs_insn_group instruction capstone.CS_GRP_INT = false →
  ParseInstruction X86 pe_ cs_disasm cs_disasm_iter fuel e instruction
    = Ok (action, e') →
  action = NextInstruction
  ∧ data_ranges_ e' = data_ranges_ e
  ∧ (capstone.op_count (capstone.detail instruction) = 2 →
     IsJumpTable X86 pe_ cs_disasm_iter e instruction (current_instruction_code_ e)
       (capstone.address instruction) = Ok false).
Proof.
  intros Hid Hret Hcall Hjump Hint H.
  split; [|split]; [| |apply IsJumpTable_x86_two_operands].
  all: unfold ParseInstruction in H; rewrite Hid, Hret, Hcall, Hjump, Hint in H;
    cbn -[IsJumpTable IsVTableOrFunction GetOperandRva IsRvaWithinText IsFunction
          AddDisassemblyPoint ParseJumpTable
          GetOperandDestinationValueDisassasemblyPoint] in H.
  all: destruct (capstone.op_count _ =? 2) eqn:Hcount; [|by injection H as <- <-].
  all: apply Z.eqb_eq in Hcount.
  all: rewrite IsJumpTable_x86_two_operands in H by done; simpl in H.
  all: repeat match type of H with
  | Ok _ = Ok _ => injection H as <- <-
  | (if ?b then _ else _) = _ => destruct b eqn:?
  | (match ?x with _ => _ end) = _ => destruct x eqn:?; try done; simpl in H
  | mbind _ ?x = _ => destruct x eqn:?; try done; simpl in H
  end; try done; by rewrite AddDisassemblyPoint_data_ranges.
Qed.

End MovOnX86.

Lemma ParseInstruction_x86_mov_is_no_jump_table_witness :
  PeDisassemblyEngine.data_ranges_
    (PeDisassemblyEngine.AddDisassemblyPoint scenario.S1_engine
       {| PeDisassemblyEngine.rva := 0x1030; PeDisassemblyEngine.code := 0x70 |})
  = PeDisassemblyEngine.data_ranges_ scenario.S1_engine.
Proof.
  exact (proj1 (proj2
    (ParseInstruction_x86_mov_is_no_jump_table scenario.S1_pe
       scenario.prologue_decoder scenario.no_iter 5 scenario.S1_engine
       scenario.mov_mem_imm PeDisassemblyEngine.NextInstruction _
       eq_refl eq_refl eq_refl eq_refl eq_refl eq_refl))).
Defined.

(* --------------------------------------------------------------------- *)
(** ** The engine throws nothing *)

Section NoThrow.

Import PeDisassemblyEngine.

Variable arch : Arch.
Variable pe_ : pe.PortableExecutable.
Variable cs_disasm : Z → Z → Z → nat → list capstone.cs_insn.
Variable cs_disasm_iter : Z → Z → Z → option capstone.cs_insn.

Lemma quiet_bind {A B} (r : Result A) (k : A → Result B) :
  invariants.quiet r → (∀ a, r = Ok a → invariants.quiet (k a)) → invariants.quiet (a ← r; k a).
Proof.
  intros Hr Hk what. destruct r as [a|what1| |]; simpl; try done.
  - by apply Hk.
  - by destruct (Hr what1).
Qed.

Lemma quiet_deref {A} (o : option A) : invariants.quiet (deref o).
Proof. intros what. by destruct o. Qed.

Lemma quiet_Ok {A} (a : A) : invariants.quiet (Ok a).
Proof. done. Qed.

Lemma IsRvaWithinText_quiet rva : invariants.quiet (IsRvaWithinText pe_ rva).
Proof. apply quiet_bind; [apply quiet_deref|done]. Qed.

Lemma GetOperandRva_quiet operand image_base :
  capstone.type operand = capstone.X86_OP_IMM
  ∨ capstone.type operand = capstone.X86_OP_MEM →
  invariants.quiet (GetOperandRva arch operand image_base).
Proof.
  unfold GetOperandRva. intros [-> | ->] what; by destruct arch.
Qed.

Lemma IsFunctionX86_quiet e fuel : ∀ code rva recursion_counter,
  invariants.quiet (IsFunctionX86 arch pe_ cs_disasm fuel e code rva recursion_counter).
Proof.
  induction fuel as [|fuel IH]; intros code rva recursion_counter; [done|].
  simpl.
  destruct (10 <? recursion_counter); [done|].
  destruct (negb _); [done|].
  destruct (IsGuaranteedJump _).
  - apply quiet_bind; [apply IsRvaWithinText_quiet|].
    intros in_text _. destruct (negb in_text); [done|apply IH].
  - repeat match goal with
           | |- invariants.quiet (if ?c then _ else _) => destruct c
           end; done.
Qed.

Lemma IsFunctionX64_quiet e fuel : ∀ code rva,
  invariants.quiet (IsFunctionX64 arch pe_ cs_disasm_iter fuel e code rva).
Proof.
  induction fuel as [|fuel IH]; intros code rva; [done|].
  cbn [IsFunctionX64].
  destruct (disasm_iter arch cs_disasm_iter _ _)
    as [[disasm_status cursor] instruction].
  destruct (negb disasm_status); [done|].
  destruct (IsGuaranteedJump _).
  - apply quiet_bind; [apply IsRvaWithinText_quiet|].
    intros in_text _. destruct (negb in_text); [done|apply IH].
  - destruct (negb _); [done|]. destruct (_ =? 0); [|done].
    by destruct (following_movs arch cs_disasm_iter _ _ _) as [[]|].
Qed.

Lemma IsFunction_quiet e fuel code rva :
  invariants.quiet (IsFunction arch pe_ cs_disasm cs_disasm_iter fuel e code rva).
Proof.
  generalize (IsFunctionX86_quiet e fuel code rva 0)
    (IsFunctionX64_quiet e fuel code rva).
  unfold IsFunction. by destruct arch.
Qed.

Lemma IsJumpTableX86_memory instruction operand :
  invariants.quiet (IsJumpTableX86 arch pe_ instruction operand)
  ∧ (IsJumpTableX86 arch pe_ instruction operand = Ok true →
     capstone.type operand = capstone.X86_OP_MEM).
Proof.
  unfold IsJumpTableX86.
  destruct (_ || _); [|done].
  case_bool_decide as Htype; simpl; [|done].
  destruct (_ =? 4); [|done]. split; [|done].
  apply quiet_bind; [apply GetOperandRva_quiet; by right|].
  intros rva _. apply quiet_bind; [apply IsRvaWithinText_quiet|].
  by intros [] _.
Qed.

Lemma IsJumpTableX64_memory e instruction operand1 operand2 code rva :
  IsJumpTableX64 arch cs_disasm_iter e instruction operand1 operand2 code rva = true →
  capstone.type operand2 = capstone.X86_OP_MEM.
Proof.
  unfold IsJumpTableX64.
  destruct (bool_decide (capstone.id instruction = _)); [|done].
  destruct (bool_decide (capstone.type operand1 = _)); [|done].
  case_bool_decide; simpl; done.
Qed.

(** What [IsJumpTable] says about the operand that [ParseInstruction] hands
    to [ParseJumpTable]. *)
Lemma IsJumpTable_memory e instruction code rva :
  invariants.quiet (IsJumpTable arch pe_ cs_disasm_iter e instruction code rva)
  ∧ (IsJumpTable arch pe_ cs_disasm_iter e instruction code rva = Ok true →
     capstone.type
       (capstone.operand instruction
          (Z.to_nat (capstone.op_count (capstone.detail instruction)) - 1))
     = capstone.X86_OP_MEM).
Proof.
  generalize (IsJumpTableX86_memory instruction (capstone.operand instruction 0))
    (IsJumpTableX64_memory e instruction (capstone.operand instruction 0)
       (capstone.operand instruction 1) code rva).
  unfold IsJumpTable. destruct arch; intros Hx86 Hx64.
  - destruct (Z.eqb_spec (capstone.op_count (capstone.detail instruction)) 1)
      as [->|]; [|done].
    exact Hx86.
  - destruct (Z.eqb_spec (capstone.op_count (capstone.detail instruction)) 2)
      as [->|]; [|done].
    split; [done|]. intros [= H]. by apply Hx64.
Qed.

Lemma ParseJumpTable_loop_quiet fuel : ∀ e instruction operand operand_rva i,
  invariants.quiet (ParseJumpTable_loop arch pe_ fuel e instruction operand operand_rva i).
Proof.
  induction fuel as [|fuel IH]; intros e instruction operand operand_rva i; [done|].
  simpl. destruct (pe.FromRva _ _); [|done].
  apply quiet_bind; [apply quiet_deref|]. intros v _.
  destruct (_ || _); [done|].
  apply quiet_bind; [apply IsRvaWithinText_quiet|]. intros in_text _.
  destruct (negb in_text); [done|apply IH].
Qed.

Lemma ParseJumpTable_quiet fuel e instruction operand :
  capstone.type operand = capstone.X86_OP_MEM →
  invariants.quiet (ParseJumpTable arch pe_ fuel e instruction operand).
Proof.
  intros Htype. unfold ParseJumpTable.
  apply quiet_bind; [apply GetOperandRva_quiet; by right|]. intros rva _.
  apply quiet_bind; [apply ParseJumpTable_loop_quiet|]. by intros [e' i] _.
Qed.

Lemma IsVTableOrFunction_immediate operand1 operand2 :
  invariants.quiet (IsVTableOrFunction arch pe_ operand1 operand2)
  ∧ (IsVTableOrFunction arch pe_ operand1 operand2 = Ok true →
     capstone.type operand2 = capstone.X86_OP_IMM).
Proof.
  unfold IsVTableOrFunction.
  destruct (bool_decide (capstone.type operand1 = _)); [|done].
  case_bool_decide as Htype; simpl; [|done]. split; [|done].
  apply quiet_bind; [apply GetOperandRva_quiet; by left|]. intros rva _.
  by destruct (pe.FromRva _ _).
Qed.

(** X25.  [ParseInstruction] throws no exception, whatever the instruction
    and the state of the engine: it asks [GetOperandRva] for the RVA of
    immediate and memory operands only, so that [should never occur] is
    never thrown.  What is left is to return, to read through a null pointer
    or outside the image, or not to stop. *)
Theorem ParseInstruction_never_throws fuel e instruction what :
  ParseInstruction arch pe_ cs_disasm cs_disasm_iter fuel e instruction ≠ Throw what.
Proof.
  revert what. change (invariants.quiet (ParseInstruction arch pe_ cs_disasm cs_disasm_iter
                                fuel e instruction)).
  unfold ParseInstruction.
  destruct (capstone.cs_insn_group instruction capstone.CS_GRP_RET); [done|].
  destruct (_ || _).
  { destruct (Z.eqb_spec (capstone.op_count (capstone.detail instruction)) 1)
      as [Hcount|]; [|done].
    destruct (bool_decide (capstone.type _ = capstone.X86_OP_IMM)); [done|].
    destruct (IsJumpTable_memory e instruction (current_instruction_code_ e)
                (capstone.address instruction)) as [Hquiet Hmemory].
    apply quiet_bind; [done|]. intros [] Htable; [|done].
    apply quiet_bind; [|done]. apply ParseJumpTable_quiet.
    specialize (Hmemory Htable). by rewrite Hcount in Hmemory. }
  destruct (capstone.cs_insn_group instruction capstone.CS_GRP_INT); [done|].
  destruct (capstone.id instruction); try done.
  - destruct (Z.eqb_spec (capstone.op_count (capstone.detail instruction)) 2)
      as [Hcount|]; [|done].
    destruct (IsJumpTable_memory e instruction (current_instruction_code_ e)
                (capstone.address instruction)) as [Hquiet Hmemory].
    apply quiet_bind; [done|]. intros [] Htable.
    { apply quiet_bind; [|done]. apply ParseJumpTable_quiet.
      specialize (Hmemory Htable). by rewrite Hcount in Hmemory. }
    destruct (IsVTableOrFunction_immediate (capstone.operand instruction 0)
                (capstone.operand instruction 1)) as [Hquiet' Himmediate].
    apply quiet_bind; [done|]. intros [] Hvtable; [|done].
    apply quiet_bind; [apply GetOperandRva_quiet; left; by apply Himmediate|].
    intros rva _. apply quiet_bind; [apply IsRvaWithinText_quiet|].
    intros in_text _. apply quiet_bind.
    + destruct in_text; [apply IsFunction_quiet|done].
    + by intros [] _.
  - case_bool_decide as Htype; [|done].
    apply quiet_bind; [apply GetOperandRva_quiet; by left|].
    intros rva _. apply quiet_bind; [apply IsRvaWithinText_quiet|].
    intros [] _; [|done].
    apply quiet_bind; [apply IsFunction_quiet|]. by intros [] _.
Qed.

End NoThrow.

(* --------------------------------------------------------------------- *)
(** ** Jump tables on X64 *)

Section JumpTableX64.

Import PeDisassemblyEngine.

Variable arch : Arch.
Variable cs_disasm_iter : Z → Z → Z → option capstone.cs_insn.

(** X26.  The X64 test for a jump table accepts nothing but a [mov] of a
    memory operand of scale 4 to a register.  It accepts such a [mov] when an
    [add] of two registers and then a [jmp] through the first register of
    the [add] follow; it refuses when the next instruction is no [add] of two
    operands. *)
Theorem IsJumpTableX64_pattern e instruction operand1 operand2 code rva :
  let code1 := uptr arch (code + capstone.size instruction) in
  let size1 := uptr arch (code_buf_size_ e - current_code_index_ e) in
  let rva1 := u64 (rva + capstone.size instruction) in
  (* the instruction itself *)
  (IsJumpTableX64 arch cs_disasm_iter e instruction operand1 operand2 code rva = true →
   capstone.id instruction = capstone.X86_INS_MOV
   ∧ capstone.type operand1 = capstone.X86_OP_REG
   ∧ capstone.type operand2 = capstone.X86_OP_MEM
   ∧ capstone.scale (capstone.mem operand2) = 4)
  (* followed by [add reg, reg] and a jump through the first register of the add *)
  ∧ (∀ add jmp,
       capstone.id instruction = capstone.X86_INS_MOV →
       capstone.type operand1 = capstone.X86_OP_REG →
       capstone.type operand2 = capstone.X86_OP_MEM →
       capstone.scale (capstone.mem operand2) = 4 →
       cs_disasm_iter code1 size1 rva1 = Some add →
       capstone.id add = capstone.X86_INS_ADD →
       capstone.op_count (capstone.detail add) = 2 →
       capstone.type (capstone.operand add 0) = capstone.X86_OP_REG →
       capstone.type (capstone.operand add 1) = capstone.X86_OP_REG →
       cs_disasm_iter (uptr arch (code1 + capstone.size add))
         (uptr arch (size1 - capstone.size add)) (u64 (rva1 + capstone.size add))
         = Some jmp →
       IsGuaranteedJump jmp = true →
       capstone.type (capstone.operand jmp 0) = capstone.X86_OP_REG →
       capstone.reg (capstone.operand jmp 0) = capstone.reg (capstone.operand add 0) →
       IsJumpTableX64 arch cs_disasm_iter e instruction operand1 operand2 code rva
       = true)
  (* a next instruction that is no [add] of two operands *)
  ∧ (∀ next,
       cs_disasm_iter code1 size1 rva1 = Some next →
       capstone.id next ≠ capstone.X86_INS_ADD
       ∨ capstone.op_count (capstone.detail next) ≠ 2 →
       IsJumpTableX64 arch cs_disasm_iter e instruction operand1 operand2 code rva
       = false).
Proof.
  intros code1 size1 rva1. unfold IsJumpTableX64. fold code1 size1 rva1.
  split; [|split].
  - repeat case_bool_decide; try done.
    destruct (Z.eqb_spec (capstone.scale (capstone.mem operand2)) 4); done.
  - intros add jmp Hid Hop1 Hop2 Hscale Hadd Hadd_id Hadd_count Hadd0 Hadd1
      Hjmp Hjump Hjmp0 Hreg.
    rewrite !bool_decide_eq_true_2 by done. rewrite Hscale. cbn [Z.eqb Pos.eqb andb].
    unfold disasm_iter at 1. rewrite Hadd.
    rewrite !bool_decide_eq_true_2 by done. rewrite Hadd_count.
    cbn [Z.eqb Pos.eqb andb negb orb].
    unfold disasm_iter. rewrite Hjmp, Hjump.
    by rewrite !bool_decide_eq_true_2 by done.
  - intros next Hnext Hwhy.
    repeat (case_bool_decide; [|done]).
    destruct (_ && _); [|done].
    unfold disasm_iter at 1. rewrite Hnext.
    destruct Hwhy as [Hid|Hcount].
    + by rewrite bool_decide_eq_false_2.
    + destruct (negb _); [done|].
      by destruct (Z.eqb_spec (capstone.op_count (capstone.detail next)) 2).
Qed.

End JumpTableX64.

(* --------------------------------------------------------------------- *)
(** ** The range of a jump table *)

Section JumpTableRange.

Import PeDisassemblyEngine.

Variable arch : Arch.
Variable pe_ : pe.PortableExecutable.
Variable instruction : capstone.cs_insn.
Variable operand : capstone.cs_x86_op.
Variable operand_rva : Z.

Lemma IsAddressWithinDataSectionOfCode_push e r address :
  IsAddressWithinDataSectionOfCode (push_data_range e r) address
  = IsAddressWithinDataSectionOfCode e address
    || ((begin_address r <=? address) && (address <? end_address r)).
Proof.
  unfold IsAddressWithinDataSectionOfCode. simpl.
  rewrite existsb_app. simpl. by rewrite orb_false_r.
Qed.

Lemma fold_AddDisassemblyPoint_data_ranges {A} (f : Engine → A → DisassemblyPoint)
    (l : list A) : ∀ e,
  data_ranges_ (fold_left (λ e v, AddDisassemblyPoint e (f e v)) l e) = data_ranges_ e.
Proof.
  induction l as [|v l IH]; intros e; simpl; [done|].
  by rewrite IH, AddDisassemblyPoint_data_ranges.
Qed.

Lemma fold_AddDisassemblyPoint_cached (f : Z → Z) (g : Engine → Z → Z) (l : list Z) :
  ∀ e v,
  v ∈ l ∨ f v ∈ disassembly_points_cache_ e →
  f v ∈ disassembly_points_cache_
          (fold_left (λ e v, AddDisassemblyPoint e {| rva := f v; code := g e v |}) l e).
Proof.
  induction l as [|x l IH]; intros e v H; simpl.
  - destruct H as [H|H]; [by apply elem_of_nil in H|done].
  - apply IH. destruct H as [H|H].
    + apply elem_of_cons in H as [->|H]; [right|by left].
      apply (AddDisassemblyPoint_cached e {| rva := f x; code := g e x |}).
    + right. by apply AddDisassemblyPoint_extends.
Qed.

(** X27.  [ParseJumpTable] reads the DWORDs of the table up to the first one
    that is 0xCCCCCCCC, zero or no address of the text section.  Afterwards
    every entry before that one is known to the engine, the addresses of
    these entries are data of the code section, and every other address is
    classified as before. *)
Theorem ParseJumpTable_marks_table_as_data (entries : list Z) (stop : Z) fuel e :
  let table :=
    code (GetOperandDestinationValueDisassasemblyPoint arch pe_ instruction
            (current_instruction_code_ e) operand_rva) in
  let size := 4 * Z.of_nat (length entries) in
  GetOperandRva arch operand (pe_image_base_ pe_) = Ok operand_rva →
  capstone.scale (capstone.mem operand) = 4 →
  (∃ section, pe.FromRva (pe_section_headers_ pe_) operand_rva = Some section) →
  (∀ (k : nat) v, entries !! k = Some v →
     read_le (pe.GetPeImage pe_) (uptr arch (table + (0 + 4 * Z.of_nat k))) 4 = Some v
     ∧ v ≠ 0xCCCCCCCC ∧ v ≠ 0
     ∧ IsRvaWithinText pe_ (item_rva arch pe_ v) = Ok true) →
  read_le (pe.GetPeImage pe_) (uptr arch (table + (0 + size))) 4 = Some stop →
  (stop = 0xCCCCCCCC ∨ stop = 0
   ∨ IsRvaWithinText pe_ (item_rva arch pe_ stop) = Ok false) →
  (length entries < fuel)%nat →
  operand_rva + size < 2 ^ (8 * sizeof_uintptr arch) →
  ∃ e',
    ParseJumpTable arch pe_ fuel e instruction operand = Ok e'
    (* every entry is known to the engine *)
    ∧ (∀ v, v ∈ entries → item_rva arch pe_ v ∈ disassembly_points_cache_ e')
    (* the entries are data, the DWORD that stopped the scan is not *)
    ∧ (∀ address, operand_rva <= address < operand_rva + size →
         IsAddressWithinDataSectionOfCode e' address = true)
    ∧ (∀ address, address < operand_rva ∨ operand_rva + size <= address →
         IsAddressWithinDataSectionOfCode e' address
         = IsAddressWithinDataSectionOfCode e address).
Proof.
  intros table size Hrva Hscale Hsection Hentries Hstop Hwhy Hfuel Hfit.
  eexists. split.
  { apply (ParseJumpTable_scan arch pe_ instruction operand operand_rva
             entries stop fuel e); done. }
  assert (uptr arch (operand_rva + size) = operand_rva + size) as Hend.
  { unfold uptr, wrap. apply Z.mod_small. split; [|done].
    assert (0 <= operand_rva); [|lia].
    unfold GetOperandRva in Hrva.
    destruct (capstone.type operand), arch; try done; injection Hrva as <-;
      unfold uptr, wrap; apply Z.mod_pos_bound; done. }
  fold size. rewrite Hend.
  split; [|split].
  - intros v Hv. simpl.
    apply (fold_AddDisassemblyPoint_cached (item_rva arch pe_)
             (λ e v, uptr arch (current_instruction_code_ e
                                + u64 (item_rva arch pe_ v
                                       - capstone.address instruction)))).
    by left.
  - intros address Haddress.
    rewrite IsAddressWithinDataSectionOfCode_push. simpl.
    apply orb_true_iff. right. apply andb_true_iff. split; [lia|].
    apply Z.ltb_lt. lia.
  - intros address Haddress.
    rewrite IsAddressWithinDataSectionOfCode_push. simpl.
    unfold IsAddressWithinDataSectionOfCode at 1.
    rewrite (fold_AddDisassemblyPoint_data_ranges
               (λ e v, {| rva := item_rva arch pe_ v;
                          code := uptr arch (current_instruction_code_ e
                                             + u64 (item_rva arch pe_ v
                                                    - capstone.address instruction)) |})).
    fold (IsAddressWithinDataSectionOfCode e address).
    destruct (IsAddressWithinDataSectionOfCode e address); [done|]. simpl.
    apply andb_false_iff. destruct Haddress; [left; lia|right; lia].
Qed.

End JumpTableRange.

Lemma ParseJumpTable_marks_table_as_data_witness :
  ∃ e',
    PeDisassemblyEngine.ParseJumpTable X86 scenario.S1_pe 3 scenario.S1_engine
      scenario.S1_jmp scenario.S1_operand = Ok e'
    ∧ PeDisassemblyEngine.IsAddressWithinDataSectionOfCode e' 0x1024 = true
    ∧ PeDisassemblyEngine.IsAddressWithinDataSectionOfCode e' 0x1028 = false.
Proof.
  destruct (ParseJumpTable_marks_table_as_data X86 scenario.S1_pe scenario.S1_jmp
              scenario.S1_operand 0x1020 [0x401030; 0x401040] 0 3 scenario.S1_engine)
    as (e' & Hrun & _ & Hin & Hout).
  - reflexivity.
  - reflexivity.
  - eexists. reflexivity.
  - intros [|[|k]] v H; [| |discriminate H]; injection H as <-;
      (split; [reflexivity|split; [discriminate|split; [discriminate|reflexivity]]]).
  - reflexivity.
  - right. left. reflexivity.
  - simpl. lia.
  - reflexivity.
  - exists e'. split; [exact Hrun|]. split; [apply Hin; simpl; lia|].
    rewrite Hout by (simpl; lia). reflexivity.
Defined.

(* --------------------------------------------------------------------- *)
(** ** The function test on X86 stops *)

Section PrologueTestReturns.

Import PeDisassemblyEngine.

Variable arch : Arch.
Variable pe_ : pe.PortableExecutable.
Variable cs_disasm : Z → Z → Z → nat → list capstone.cs_insn.
Variable cs_disasm_iter : Z → Z → Z → option capstone.cs_insn.

(** More fuel does not change an answer. *)
Lemma IsFunctionX86_more_fuel e fuel : ∀ code rva recursion_counter,
  IsFunctionX86 arch pe_ cs_disasm fuel e code rva recursion_counter ≠ OutOfFuel →
  IsFunctionX86 arch pe_ cs_disasm (S fuel) e code rva recursion_counter
  = IsFunctionX86 arch pe_ cs_disasm fuel e code rva recursion_counter.
Proof.
  induction fuel as [|fuel IH]; intros code rva recursion_counter H; [done|].
  remember (S fuel) as fuel1 eqn:Hfuel1.
  rewrite Hfuel1 at 2. rewrite Hfuel1 in H.
  simpl in H |- *.
  destruct (10 <? recursion_counter); [done|].
  destruct (negb _); [done|].
  destruct (IsGuaranteedJump _); [|done].
  destruct (IsRvaWithinText pe_ _) as [[]| | |]; try done. simpl in H |- *.
  subst fuel1. apply IH, H.
Qed.

Lemma IsFunctionX86_any_fuel e (n : nat) : ∀ fuel code rva recursion_counter,
  IsFunctionX86 arch pe_ cs_disasm fuel e code rva recursion_counter ≠ OutOfFuel →
  IsFunctionX86 arch pe_ cs_disasm (n + fuel) e code rva recursion_counter
  = IsFunctionX86 arch pe_ cs_disasm fuel e code rva recursion_counter.
Proof.
  induction n as [|n IH]; intros fuel code rva recursion_counter H; [done|].
  change (S n + fuel)%nat with (S (n + fuel)).
  rewrite IsFunctionX86_more_fuel; rewrite IH; done.
Qed.

Lemma IsFunctionX86_answers e fuel : ∀ code rva recursion_counter,
  pe_text_section_header_ pe_ ≠ None →
  match IsFunctionX86 arch pe_ cs_disasm fuel e code rva recursion_counter with
  | Ok _ | OutOfFuel => True
  | _ => False
  end.
Proof.
  induction fuel as [|fuel IH]; intros code rva recursion_counter Htext; [done|].
  simpl.
  destruct (10 <? recursion_counter); [done|].
  destruct (negb _); [done|].
  destruct (IsGuaranteedJump _).
  - unfold IsRvaWithinText.
    destruct (pe_text_section_header_ pe_) as [text|]; [|done]. simpl.
    destruct (negb _); [done|]. by apply IH.
  - repeat match goal with
           | |- match (if ?c then _ else _) with _ => _ end => destruct c
           end; done.
Qed.

Lemma IsFunctionX86_enough_fuel e fuel code rva :
  (12 <= fuel)%nat →
  IsFunctionX86 arch pe_ cs_disasm fuel e code rva 0
  = IsFunctionX86 arch pe_ cs_disasm 12 e code rva 0
  ∧ (pe_text_section_header_ pe_ ≠ None →
     ∃ answer : bool, IsFunctionX86 arch pe_ cs_disasm 12 e code rva 0 = Ok answer).
Proof.
  intros Hfuel.
  assert (IsFunctionX86 arch pe_ cs_disasm 12 e code rva 0 ≠ OutOfFuel) as Hreturns.
  { apply (IsFunctionX86_returns arch pe_ cs_disasm e 11). lia. }
  split.
  - replace fuel with ((fuel - 12) + 12)%nat by lia.
    by apply IsFunctionX86_any_fuel.
  - intros Htext.
    pose proof (IsFunctionX86_answers e 12 code rva 0 Htext) as Hanswers.
    destruct (IsFunctionX86 arch pe_ cs_disasm 12 e code rva 0) as [answer|what| |];
      [by exists answer|done|done|done].
Qed.

(** X28.  The X86 test for a function stops, whatever the code: its calls
    nest at most twelve deep, so a fuel of twelve is enough and more fuel
    gives the same result; with a text section in the image the result is
    an answer, yes or no. *)
Theorem IsFunction_x86_settles e code rva (n : nat) :
  IsFunctionX86 arch pe_ cs_disasm (12 + n) e code rva 0
  = IsFunctionX86 arch pe_ cs_disasm 12 e code rva 0
  ∧ IsFunctionX86 arch pe_ cs_disasm 12 e code rva 0 ≠ OutOfFuel
  ∧ (pe_text_section_header_ pe_ ≠ None →
     ∃ answer : bool, IsFunctionX86 arch pe_ cs_disasm 12 e code rva 0 = Ok answer).
Proof.
  assert (IsFunctionX86 arch pe_ cs_disasm 12 e code rva 0 ≠ OutOfFuel) as Hreturns.
  { apply (IsFunctionX86_returns arch pe_ cs_disasm e 11). lia. }
  split; [|split; [done|]].
  - rewrite (Nat.add_comm 12 n). by apply IsFunctionX86_any_fuel.
  - intros Htext.
    pose proof (IsFunctionX86_answers e 12 code rva 0 Htext) as Hanswers.
    destruct (IsFunctionX86 arch pe_ cs_disasm 12 e code rva 0) as [answer|what| |];
      [by exists answer|done|done|done].
Qed.

End PrologueTestReturns.

(* --------------------------------------------------------------------- *)
(** ** Pushed addresses *)

Section PushImmediate.

Import PeDisassemblyEngine.

Variable arch : Arch.
Variable pe_ : pe.PortableExecutable.
Variable cs_disasm : Z → Z → Z → nat → list capstone.cs_insn.
Variable cs_disasm_iter : Z → Z → Z → option capstone.cs_insn.

Lemma IsFunction_X86 fuel e code rva :
  arch = X86 →
  IsFunction arch pe_ cs_disasm cs_disasm_iter fuel e code rva
  = IsFunctionX86 arch pe_ cs_disasm fuel e code rva 0.
Proof. unfold IsFunction. by destruct arch. Qed.

(** X24.  A [push] of an immediate is handled like a [mov] of an immediate.
    An immediate that is no address of the text section changes nothing,
    and the engine goes on with the next instruction.  For an address of
    the text section the test for a function is run on the code at that
    address: when it answers, the address is queued as a disassembly point
    if the answer is yes, nothing changes if it is no, and the engine goes
    on with the next instruction; when it does not return, neither does
    [ParseInstruction].  On X86, with a text section in the image, both
    tests answer (a fuel of twelve is enough), so that [ParseInstruction]
    returns; on X64 the test for a function can fail to return. *)
Theorem ParseInstruction_push_immediate fuel e instruction rva :
  let point :=
    {| rva := rva;
       code := uptr arch (current_instruction_code_ e
                          + u64 (rva - capstone.address instruction)) |} in
  let run := ParseInstruction arch pe_ cs_disasm cs_disasm_iter fuel e instruction in
  let function_test :=
    IsFunction arch pe_ cs_disasm cs_disasm_iter fuel e (code point) rva in
  capstone.id instruction = capstone.X86_INS_PUSH →
  capstone.cs_insn_group instruction capstone.CS_GRP_RET = false →
  capstone.cs_insn_group instruction capstone.CS_GRP_CALL = false →
  capstone.cs_insn_group instruction capstone.CS_GRP_JUMP = false →
  capstone.cs_insn_group instruction capstone.CS_GRP_INT = false →
  capstone.type (capstone.operand instruction 0) = capstone.X86_OP_IMM →
  GetOperandRva arch (capstone.operand instruction 0) (pe_image_base_ pe_) = Ok rva →
  (* every outcome of the two tests *)
  run = (in_text ← IsRvaWithinText pe_ rva;
         if (in_text : bool) then
           is_function ← function_test;
           Ok (NextInstruction,
               if (is_function : bool) then AddDisassemblyPoint e point else e)
         else Ok (NextInstruction, e))
  (* a test for a function that does not return *)
  ∧ (IsRvaWithinText pe_ rva = Ok true → function_test = OutOfFuel →
     run = OutOfFuel)
  (* on X86 both tests answer *)
  ∧ (arch = X86 → pe_text_section_header_ pe_ ≠ None → (12 <= fuel)%nat →
     ∃ in_text is_function : bool,
       IsRvaWithinText pe_ rva = Ok in_text
       ∧ IsFunctionX86 arch pe_ cs_disasm 12 e (code point) rva 0 = Ok is_function
       ∧ run = Ok (NextInstruction,
                   if in_text && is_function then AddDisassemblyPoint e point
                   else e)).
Proof.
  intros point run function_test Hid Hret Hcall Hjump Hint Htype Hrva.
  assert (run = (in_text ← IsRvaWithinText pe_ rva;
                 if (in_text : bool) then
                   is_function ← function_test;
                   Ok (NextInstruction,
                       if (is_function : bool) then AddDisassemblyPoint e point
                       else e)
                 else Ok (NextInstruction, e))) as Hrun.
  { unfold run, ParseInstruction. rewrite Hid, Hret, Hcall, Hjump, Hint, Htype.
    cbn [orb bool_decide decide_rel]. rewrite bool_decide_eq_true_2 by done.
    rewrite Hrva. cbn [mbind Result_bind].
    destruct (IsRvaWithinText pe_ rva) as [[]| | |]; try done.
    cbn [mbind Result_bind].
    unfold GetOperandDestinationValueDisassasemblyPoint. rewrite Hid.
    rewrite bool_decide_eq_false_2 by done.
    cbn [PeDisassemblyEngine.rva PeDisassemblyEngine.code].
    fold point. unfold function_test. cbn [PeDisassemblyEngine.code point].
    destruct (IsFunction _ _ _ _ _ _ _ _) as [[]| | |]; done. }
  split; [exact Hrun|]. split.
  - intros Htext Hfunction. rewrite Hrun, Htext. cbn [mbind Result_bind].
    by rewrite Hfunction.
  - intros Harch Htext Hfuel. rewrite Hrun. unfold function_test.
    rewrite IsFunction_X86 by done.
    destruct (IsFunctionX86_enough_fuel arch pe_ cs_disasm e fuel (code point) rva
                Hfuel) as [-> Hanswer].
    destruct (Hanswer Htext) as [is_function His].
    unfold IsRvaWithinText.
    destruct (pe_text_section_header_ pe_) as [text|]; [|done].
    cbn [deref mbind Result_bind].
    exists (pe.IsRvaWithinSection text rva), is_function.
    split; [done|]. split; [done|]. rewrite His.
    by destruct (pe.IsRvaWithinSection text rva), is_function.
Qed.

End PushImmediate.

Lemma ParseInstruction_push_immediate_witness :
  PeDisassemblyEngine.ParseInstruction X86 scenario.S1_pe scenario.prologue_decoder
    scenario.no_iter 12 scenario.S1_engine examples.push_imm
  = Ok (PeDisassemblyEngine.NextInstruction,
        PeDisassemblyEngine.AddDisassemblyPoint scenario.S1_engine
          {| PeDisassemblyEngine.rva := 0x1030; PeDisassemblyEngine.code := 0x70 |}).
Proof.
  destruct (ParseInstruction_push_immediate X86 scenario.S1_pe
              scenario.prologue_decoder scenario.no_iter 12 scenario.S1_engine
              examples.push_imm 0x1030
              eq_refl eq_refl eq_refl eq_refl eq_refl eq_refl eq_refl)
    as (_ & _ & Hreturns).
  destruct (Hreturns eq_refl ltac:(discriminate) ltac:(lia))
    as (in_text & is_function & Htext & Hfunction & Hrun).
  injection Htext as <-. injection Hfunction as <-. exact Hrun.
Defined.

(* --------------------------------------------------------------------- *)
(** ** Pointers in .rdata *)

Section RDataScan.

Import PeDisassemblyEngine.

Variable arch : Arch.
Variable pe_ : pe.PortableExecutable.
Variable cs_disasm : Z → Z → Z → nat → list capstone.cs_insn.
Variable cs_disasm_iter : Z → Z → Z → option capstone.cs_insn.

Lemma AddDisassemblyPoint_points e point p :
  p ∈ disassembly_points_ (AddDisassemblyPoint e point) →
  p ∈ disassembly_points_ e ∨ p = point.
Proof.
  unfold AddDisassemblyPoint. case_bool_decide; [by left|]. simpl.
  intros Hin. apply elem_of_app in Hin as [Hin|Hin]; [by left|].
  apply list_elem_of_singleton in Hin. by right.
Qed.

Lemma ParseRDataSection_loop_sound (good : DisassemblyPoint → Prop) e0 fuel :
  (∀ rva, IsRvaWithinText pe_ rva = Ok true →
          pe.RvaToFileOffset (pe_section_headers_ pe_) rva ≠ 0 →
          good {| rva := rva;
                  code := uptr arch
                            (0 + pe.RvaToFileOffset (pe_section_headers_ pe_) rva) |}) →
  ∀ e header i e',
  ParseRDataSection_loop arch pe_ cs_disasm cs_disasm_iter fuel e header i = Ok e' →
  (∀ p, p ∈ disassembly_points_ e → p ∈ disassembly_points_ e0 ∨ good p) →
  invariants.kept e e'
  ∧ data_ranges_ e' = data_ranges_ e
  ∧ ∀ p, p ∈ disassembly_points_ e' → p ∈ disassembly_points_ e0 ∨ good p.
Proof.
  intros Hgood.
  induction fuel as [|fuel IH]; intros e header i e' H Hpoints; [done|].
  simpl in H.
  destruct (negb _); [by injection H as <-; split; [apply kept_refl|]|].
  destruct (read_le _ _ _) as [value|]; [|done]. simpl in H.
  destruct (value =? 0); [by eapply IH|].
  destruct (IsRvaWithinText pe_ _) as [[]| | |] eqn:Htext; try done; simpl in H;
    [|by eapply IH].
  destruct (pe.RvaToFileOffset _ _ =? 0) eqn:Hoffset; [by eapply IH|].
  destruct (IsFunction _ _ _ _ _ _ _ _) as [[]| | |]; try done; simpl in H;
    [|by eapply IH].
  destruct (IH _ _ _ _ H) as (Hkept & Hranges & Hsound).
  - intros p Hp. apply AddDisassemblyPoint_points in Hp as [Hp| ->]; [by apply Hpoints|].
    right. apply Hgood; [done|]. by apply Z.eqb_neq.
  - split; [|split; [|done]].
    + eapply kept_trans; [apply kept_AddDisassemblyPoint|done].
    + by rewrite Hranges, AddDisassemblyPoint_data_ranges.
Qed.

(** X29.  [ParseRDataSection] queues pointers into the text section only:
    every point it adds has an RVA inside .text whose file offset is not
    zero, and the code pointer of the point is that file offset.  The points
    queued before are kept, no data range is recorded, and a queue free of
    duplicate RVAs with all its RVAs cached stays so. *)
Theorem ParseRDataSection_queues_text_pointers fuel e e' :
  ParseRDataSection arch pe_ cs_disasm cs_disasm_iter fuel e = Ok e' →
  (∀ p, p ∈ disassembly_points_ e' →
     p ∈ disassembly_points_ e
     ∨ (IsRvaWithinText pe_ (rva p) = Ok true
        ∧ pe.RvaToFileOffset (pe_section_headers_ pe_) (rva p) ≠ 0
        ∧ code p = uptr arch (pe.RvaToFileOffset (pe_section_headers_ pe_) (rva p))))
  ∧ disassembly_points_ e `prefix_of` disassembly_points_ e'
  ∧ data_ranges_ e' = data_ranges_ e
  ∧ (invariants.points_known e → invariants.points_known e').
Proof.
  unfold ParseRDataSection. intros H.
  destruct (pe.FromName _ _) as [header|]; [|done].
  destruct (ParseRDataSection_loop_sound
              (λ p, IsRvaWithinText pe_ (rva p) = Ok true
                    ∧ pe.RvaToFileOffset (pe_section_headers_ pe_) (rva p) ≠ 0
                    ∧ code p
                      = uptr arch (pe.RvaToFileOffset (pe_section_headers_ pe_) (rva p)))
              e fuel) with (2 := H) as ([Hextends Hknown] & Hranges & Hsound).
  - intros rva Htext Hoffset. simpl. done.
  - intros p Hp. by left.
  - destruct Hextends as (Hprefix & _). done.
Qed.

End RDataScan.

Lemma ParseRDataSection_queues_text_pointers_witness :
  ∃ e',
    PeDisassemblyEngine.ParseRDataSection X86 examples.rdata_pe
      scenario.prologue_decoder scenario.no_iter 5 scenario.S1_engine = Ok e'
    ∧ PeDisassemblyEngine.disassembly_points_ e'
      = [ {| PeDisassemblyEngine.rva := 0x1030; PeDisassemblyEngine.code := 0x70 |} ]
    ∧ PeDisassemblyEngine.data_ranges_ e'
      = PeDisassemblyEngine.data_ranges_ scenario.S1_engine.
Proof.
  eexists. split; [reflexivity|]. split; [reflexivity|].
  refine (proj1 (proj2 (proj2
    (ParseRDataSection_queues_text_pointers X86 examples.rdata_pe
       scenario.prologue_decoder scenario.no_iter 5 scenario.S1_engine _ _)))).
  reflexivity.
Defined.
